(** * insert-html-content: the streaming insertion engine and its response wrapper

    A shallow embedding of [index.js].  The class [HtmlInsertionStream]
    becomes a record of its fields with one function per method; the closures
    of [main] become functions over a record for the response.  Platform
    primitives the code calls ([Buffer], [TextDecoder], [String], the
    [EventEmitter] dispatch order) are written out after their documented
    behaviour.  The markup tokenizer the class extends is external: every
    call of [super.write] receives, as an argument, the tokens the tokenizer
    emits synchronously during that call. *)

From Stdlib Require Import ZArith Lia Bool DecimalString DecimalPos.
From stdpp Require Import base list strings gmap.

Local Open Scope Z_scope.

(** ** Buffers *)

Module Buf.

(** A [Buffer] is its sequence of bytes, each a Z in 0..255. *)
Definition Buffer := list Z.

Definition blen (b : Buffer) : Z := Z.of_nat (length b).

(** Relative indices of [Buffer.prototype.slice]: a negative index counts
    from the end, and the result is clamped to the buffer. *)
Definition rel_index (n i : Z) : Z :=
  if i <? 0 then Z.max (n + i) 0 else Z.min i n.

(** [buf.slice(start, end)] *)
Definition slice (b : Buffer) (start stop : Z) : Buffer :=
  let s := rel_index (blen b) start in
  let e := rel_index (blen b) stop in
  take (Z.to_nat (e - s)) (drop (Z.to_nat s) b).

(** [buf.slice(start)] *)
Definition slice_from (b : Buffer) (start : Z) : Buffer :=
  slice b start (blen b).

(** [Buffer.concat(list, totalLength)]: an empty list gives the empty
    buffer; otherwise the chunks are copied into a buffer of [totalLength]
    bytes: what does not fit is cut, what is missing stays zero.  Node
    refuses a negative [totalLength] with a [RangeError]; the lengths the
    engine passes are not negative on the states a response reaches, where
    [len] is the length of the queue and the watermarks are in order, and a
    negative one is read as 0 here. *)
Definition concat_total (l : list Buffer) (total : Z) : Buffer :=
  match l with
  | [] => []
  | _ =>
    let all := concat l in
    take (Z.to_nat total) all ++ replicate (Z.to_nat total - length all)%nat 0
  end.

(** [body] with [chunk] put in at byte offset [k]. *)
Definition insert_at (k : Z) (chunk body : Buffer) : Buffer :=
  take (Z.to_nat k) body ++ chunk ++ drop (Z.to_nat k) body.

(** Sum of the chunk lengths of a queue. *)
Definition total_len (l : list Buffer) : Z := blen (concat l).

End Buf.

(** ** JavaScript strings and their UTF-8 measure *)

Module JsStr.

(** A JavaScript string is a sequence of UTF-16 code units. *)
Definition jsstring := list Z.

Definition is_high (u : Z) : bool := (0xD800 <=? u) && (u <=? 0xDBFF).
Definition is_low (u : Z) : bool := (0xDC00 <=? u) && (u <=? 0xDFFF).

(** [Buffer.byteLength(str)] for the default encoding, UTF-8: a surrogate
    pair takes four bytes, a lone surrogate is written as U+FFFD. *)
Fixpoint byteLength (s : jsstring) : Z :=
  match s with
  | [] => 0
  | u :: rest =>
    if u <? 0x80 then 1 + byteLength rest
    else if u <? 0x800 then 2 + byteLength rest
    else if is_high u then
      match rest with
      | v :: rest' => if is_low v then 4 + byteLength rest' else 3 + byteLength rest
      | [] => 3
      end
    else 3 + byteLength rest
  end.

(** [str.substring(0, e)] *)
Definition substring0 (s : jsstring) (e : Z) : jsstring :=
  take (Z.to_nat e) s.

(** Code units of an ASCII literal. *)
Definition of_ascii (s : string) : jsstring :=
  map (fun c => Z.of_nat (Ascii.nat_of_ascii c)) (String.list_ascii_of_string s).

(** The code units of one code point (a string built from decoded text). *)
Definition of_code_point (cp : Z) : jsstring :=
  if cp <? 0x10000 then [cp]
  else [0xD800 + Z.shiftr (cp - 0x10000) 10; 0xDC00 + Z.land (cp - 0x10000) 0x3FF].

End JsStr.

(** ** The incremental UTF-8 decoder ([TextDecoder('utf8', {fatal: true})]) *)

Module Utf8.
Import Buf JsStr.

(** State of the decoder between [decode] calls made with [{stream: true}]:
    the code point under construction, how many continuation bytes were seen
    and are needed, the bounds on the next continuation byte, whether a byte
    order mark was already looked for, and the "do not flush" flag. *)
Record Decoder := mkDecoder {
  code_point : Z;
  bytes_seen : Z;
  bytes_needed : Z;
  lower_boundary : Z;
  upper_boundary : Z;
  bom_seen : bool;
  do_not_flush : bool
}.

Definition fresh : Decoder := mkDecoder 0 0 0 0x80 0xBF false false.

(** Emitting a code point: the first one of a stream is dropped when it is
    the byte order mark ([ignoreBOM] keeps its default, false). *)
Definition emit (d : Decoder) (cp : Z) : Decoder * jsstring :=
  let d' := mkDecoder 0 0 0 0x80 0xBF true (do_not_flush d) in
  if bom_seen d then (d', of_code_point cp)
  else if cp =? 0xFEFF then (d', []) else (d', of_code_point cp).

(** One byte through the decoder; [None] is the [TypeError] of fatal mode. *)
Definition step (d : Decoder) (b : Z) : option (Decoder * jsstring) :=
  if bytes_needed d =? 0 then
    if b <=? 0x7F then Some (emit d b)
    else if (0xC2 <=? b) && (b <=? 0xDF) then
      Some (mkDecoder (Z.land b 0x1F) 0 1 0x80 0xBF (bom_seen d) (do_not_flush d), [])
    else if (0xE0 <=? b) && (b <=? 0xEF) then
      Some (mkDecoder (Z.land b 0xF) 0 2
              (if b =? 0xE0 then 0xA0 else 0x80)
              (if b =? 0xED then 0x9F else 0xBF) (bom_seen d) (do_not_flush d), [])
    else if (0xF0 <=? b) && (b <=? 0xF4) then
      Some (mkDecoder (Z.land b 0x7) 0 3
              (if b =? 0xF0 then 0x90 else 0x80)
              (if b =? 0xF4 then 0x8F else 0xBF) (bom_seen d) (do_not_flush d), [])
    else None
  else if (b <? lower_boundary d) || (upper_boundary d <? b) then None
  else
    let cp := Z.lor (Z.shiftl (code_point d) 6) (Z.land b 0x3F) in
    if bytes_seen d + 1 =? bytes_needed d then Some (emit d cp)
    else Some (mkDecoder cp (bytes_seen d + 1) (bytes_needed d) 0x80 0xBF
                 (bom_seen d) (do_not_flush d), []).

Fixpoint run (d : Decoder) (bs : Buffer) : option (Decoder * jsstring) :=
  match bs with
  | [] => Some (d, [])
  | b :: rest =>
    match step d b with
    | None => None
    | Some (d1, out1) =>
      match run d1 rest with
      | None => None
      | Some (d2, out2) => Some (d2, out1 ++ out2)
      end
    end
  end.

(** [decoder.decode(bytes, {stream})]: a call that follows a flushing call
    starts from a fresh decoder; without [stream] the input must end on a
    character boundary. *)
Definition decode (d : Decoder) (bs : Buffer) (stream : bool) : option (Decoder * jsstring) :=
  let d0 := if do_not_flush d then d else fresh in
  match run d0 bs with
  | None => None
  | Some (d1, out) =>
    let d2 := mkDecoder (code_point d1) (bytes_seen d1) (bytes_needed d1)
                (lower_boundary d1) (upper_boundary d1) (bom_seen d1) stream in
    if stream then Some (d2, out)
    else if bytes_needed d1 =? 0 then Some (d2, out) else None
  end.

End Utf8.

(** ** The engine: class [HtmlInsertionStream] *)

Module Engine.
Import Buf JsStr.

(** The five events of [PARSER_EVENTS]. *)
Inductive TokenKind := StartTag | EndTag | Comment | Text | Doctype.

#[global] Instance TokenKind_eq_dec : EqDecision TokenKind.
Proof. solve_decision. Defined.

(** A token as the listeners see it: its event, [tagName] (tags only) and
    the two offsets of [sourceCodeLocation] the code reads. *)
Record Token := mkToken {
  kind : TokenKind;
  tagName : string;
  startOffset : Z;
  endOffset : Z
}.

(** The second argument of [write]: absent, a callback, or a string. *)
Inductive EncodingArg := EncUndefined | EncFunction | EncString (s : string).

(** The value of [str] after the [try] block of [internalWrite]. *)
Inductive Decoded := Undefined | Str (s : jsstring).

Inductive EngineError :=
| InvalidHtmlEncoding (encoding : string)
| InvalidUtf8
| WriteAfterEnd.

Definition error_message (e : EngineError) : string :=
  match e with
  | InvalidHtmlEncoding enc =>
    "HTML must be UTF-8 encoded https://github.com/w3c/html/pull/1273, but encoded in " +:+ enc +:+ "."
  | InvalidUtf8 => "The HTML cannot be encoded to a valid UTF-8 character sequence."
  | WriteAfterEnd => "write after end"
  end.

Record Engine := mkEngine {
  utf8Decoder : Utf8.Decoder;
  buffers : list Buffer;
  stringBuffer : jsstring;
  len : Z;
  writableOffset : Z;
  writtenOffset : Z;
  shouldParseHtml : bool;
  targetTagName : string;
  insertionChunk : Buffer;
  insertToEnd : bool;
  insertionLength : Z;
  (** listeners registered in the constructor that are still attached *)
  anyTokenListeners : bool;
  tagListener : bool;
  (** [this.stop()] and [this.end()] were called *)
  stopped : bool;
  ended : bool;
  (** what [super.write] took, and the errors emitted, oldest first *)
  parserInput : list Decoded;
  emitted : list EngineError
}.

(** Field updates, one per assigned field. *)
Definition set_utf8Decoder v (st : Engine) : Engine :=
  mkEngine v (buffers st) (stringBuffer st) (len st) (writableOffset st)
    (writtenOffset st) (shouldParseHtml st) (targetTagName st) (insertionChunk st)
    (insertToEnd st) (insertionLength st) (anyTokenListeners st) (tagListener st)
    (stopped st) (ended st) (parserInput st) (emitted st).
Definition set_buffers v (st : Engine) : Engine :=
  mkEngine (utf8Decoder st) v (stringBuffer st) (len st) (writableOffset st)
    (writtenOffset st) (shouldParseHtml st) (targetTagName st) (insertionChunk st)
    (insertToEnd st) (insertionLength st) (anyTokenListeners st) (tagListener st)
    (stopped st) (ended st) (parserInput st) (emitted st).
Definition set_stringBuffer v (st : Engine) : Engine :=
  mkEngine (utf8Decoder st) (buffers st) v (len st) (writableOffset st) (writtenOffset st)
    (shouldParseHtml st) (targetTagName st) (insertionChunk st) (insertToEnd st)
    (insertionLength st) (anyTokenListeners st) (tagListener st) (stopped st) (ended st)
    (parserInput st) (emitted st).
Definition set_len v (st : Engine) : Engine :=
  mkEngine (utf8Decoder st) (buffers st) (stringBuffer st) v (writableOffset st)
    (writtenOffset st) (shouldParseHtml st) (targetTagName st) (insertionChunk st)
    (insertToEnd st) (insertionLength st) (anyTokenListeners st) (tagListener st)
    (stopped st) (ended st) (parserInput st) (emitted st).
Definition set_writableOffset v (st : Engine) : Engine :=
  mkEngine (utf8Decoder st) (buffers st) (stringBuffer st) (len st) v (writtenOffset st)
    (shouldParseHtml st) (targetTagName st) (insertionChunk st) (insertToEnd st)
    (insertionLength st) (anyTokenListeners st) (tagListener st) (stopped st) (ended st)
    (parserInput st) (emitted st).
Definition set_writtenOffset v (st : Engine) : Engine :=
  mkEngine (utf8Decoder st) (buffers st) (stringBuffer st) (len st) (writableOffset st) v
    (shouldParseHtml st) (targetTagName st) (insertionChunk st) (insertToEnd st)
    (insertionLength st) (anyTokenListeners st) (tagListener st) (stopped st) (ended st)
    (parserInput st) (emitted st).
Definition set_shouldParseHtml v (st : Engine) : Engine :=
  mkEngine (utf8Decoder st) (buffers st) (stringBuffer st) (len st) (writableOffset st)
    (writtenOffset st) v (targetTagName st) (insertionChunk st) (insertToEnd st)
    (insertionLength st) (anyTokenListeners st) (tagListener st) (stopped st) (ended st)
    (parserInput st) (emitted st).
Definition set_anyTokenListeners v (st : Engine) : Engine :=
  mkEngine (utf8Decoder st) (buffers st) (stringBuffer st) (len st) (writableOffset st)
    (writtenOffset st) (shouldParseHtml st) (targetTagName st) (insertionChunk st)
    (insertToEnd st) (insertionLength st) v (tagListener st) (stopped st) (ended st)
    (parserInput st) (emitted st).
Definition set_tagListener v (st : Engine) : Engine :=
  mkEngine (utf8Decoder st) (buffers st) (stringBuffer st) (len st) (writableOffset st)
    (writtenOffset st) (shouldParseHtml st) (targetTagName st) (insertionChunk st)
    (insertToEnd st) (insertionLength st) (anyTokenListeners st) v (stopped st) (ended st)
    (parserInput st) (emitted st).
Definition set_stopped v (st : Engine) : Engine :=
  mkEngine (utf8Decoder st) (buffers st) (stringBuffer st) (len st) (writableOffset st)
    (writtenOffset st) (shouldParseHtml st) (targetTagName st) (insertionChunk st)
    (insertToEnd st) (insertionLength st) (anyTokenListeners st) (tagListener st) v
    (ended st) (parserInput st) (emitted st).
Definition set_ended v (st : Engine) : Engine :=
  mkEngine (utf8Decoder st) (buffers st) (stringBuffer st) (len st) (writableOffset st)
    (writtenOffset st) (shouldParseHtml st) (targetTagName st) (insertionChunk st)
    (insertToEnd st) (insertionLength st) (anyTokenListeners st) (tagListener st)
    (stopped st) v (parserInput st) (emitted st).
Definition set_parserInput v (st : Engine) : Engine :=
  mkEngine (utf8Decoder st) (buffers st) (stringBuffer st) (len st) (writableOffset st)
    (writtenOffset st) (shouldParseHtml st) (targetTagName st) (insertionChunk st)
    (insertToEnd st) (insertionLength st) (anyTokenListeners st) (tagListener st)
    (stopped st) (ended st) v (emitted st).
Definition set_emitted v (st : Engine) : Engine :=
  mkEngine (utf8Decoder st) (buffers st) (stringBuffer st) (len st) (writableOffset st)
    (writtenOffset st) (shouldParseHtml st) (targetTagName st) (insertionChunk st)
    (insertToEnd st) (insertionLength st) (anyTokenListeners st) (tagListener st)
    (stopped st) (ended st) (parserInput st) v.

(** [new HtmlInsertionStream({targetTagName, insertionChunk, insertionLength, insertToEnd})] *)
Definition create (target : string) (chunk : Buffer) (chunkLen : Z) (toEnd : bool) : Engine :=
  mkEngine Utf8.fresh [] [] 0 0 0 false target chunk toEnd chunkLen
    true true false false [] [].

(** [insertionEventName] *)
Definition insertionEvent (st : Engine) : TokenKind :=
  if insertToEnd st then EndTag else StartTag.

(** [push] returns [null] for an empty chunk, the chunk otherwise; the
    boolean is the truth value of the result. *)
Definition push (st : Engine) (data : Buffer) : Engine * bool :=
  if blen data =? 0 then (st, false)
  else (set_buffers (buffers st ++ [data]) (set_len (len st + blen data) st), true).

(** [utf8Re.test(encoding)], for /utf-?8/ui. *)
Definition lower_ascii (c : Ascii.ascii) : Ascii.ascii :=
  let n := Ascii.nat_of_ascii c in
  if (65 <=? n)%nat && (n <=? 90)%nat then Ascii.ascii_of_nat (n + 32) else c.

Fixpoint lower_string (s : string) : string :=
  match s with
  | EmptyString => EmptyString
  | String c r => String (lower_ascii c) (lower_string r)
  end.

Fixpoint contains_at_some_position (p s : string) : bool :=
  String.prefix p s ||
  match s with
  | EmptyString => false
  | String _ r => contains_at_some_position p r
  end.

Definition utf8Re_test (encoding : string) : bool :=
  let e := lower_string encoding in
  contains_at_some_position "utf8" e || contains_at_some_position "utf-8" e.

(** The guard of the first [if] of [internalWrite]. *)
Definition encoding_rejected (st : Engine) (encoding : EncodingArg) : option string :=
  match encoding with
  | EncString e =>
    if shouldParseHtml st && negb (String.eqb e "") && negb (utf8Re_test e)
    then Some e else None
  | _ => None
  end.

(** [onAnyToken] *)
Definition onAnyToken (st : Engine) (tok : Token) : Engine :=
  set_writableOffset (byteLength (substring0 (stringBuffer st) (endOffset tok))) st.

(** The [for] loop of [onTag]: [before] holds the chunks already passed,
    [index] their total length. *)
Fixpoint splice_loop (chunk : Buffer) (insertionIndex : Z)
    (before rest : list Buffer) (index : Z) : list Buffer :=
  match rest with
  | [] => before
  | buffer :: rest' =>
    if index + blen buffer >=? insertionIndex then
      let sliceIndex := insertionIndex - index in
      before ++ [slice buffer 0 sliceIndex; chunk; slice_from buffer sliceIndex] ++ rest'
    else splice_loop chunk insertionIndex (before ++ [buffer]) rest' (index + blen buffer)
  end.

Definition boundaryOffset (st : Engine) (tok : Token) : Z :=
  if insertToEnd st then startOffset tok else endOffset tok.

Definition insertionIndex (st : Engine) (tok : Token) : Z :=
  byteLength (substring0 (stringBuffer st) (boundaryOffset st tok)) - writtenOffset st.

(** [onTag] *)
Definition onTag (st : Engine) (tok : Token) : Engine :=
  if negb (String.eqb (tagName tok) (targetTagName st)) then st
  else
    let st1 := set_anyTokenListeners false st in
    let st2 := set_tagListener false st1 in
    let st3 := set_stopped true st2 in
    let st4 := set_shouldParseHtml false st3 in
    let st5 := set_buffers
      (splice_loop (insertionChunk st4) (insertionIndex st4 tok) [] (buffers st4) 0) st4 in
    let st6 := set_len (len st5 + insertionLength st5) st5 in
    set_ended true st6.

(** One token reaching the emitter: the listeners attached when the event
    is emitted run in the order they were registered, [onAnyToken] first. *)
Definition emit_token (st : Engine) (tok : Token) : Engine :=
  let st1 := if anyTokenListeners st then onAnyToken st tok else st in
  if tagListener st && bool_decide (kind tok = insertionEvent st)
  then onTag st1 tok else st1.

(** The tokens of one [super.write] call; none is emitted once the parser
    was stopped. *)
Fixpoint emit_tokens (st : Engine) (toks : list Token) : Engine :=
  match toks with
  | [] => st
  | tok :: rest => if stopped st then st else emit_tokens (emit_token st tok) rest
  end.

(** How a call ends: it returns, or an exception leaves it and the
    statements after the call do not run. *)
Inductive Completion := Returns | Throws.

(** [super.write(str)]: the stream throws a [TypeError] for a chunk that is
    neither a string nor a buffer ([str] is [undefined] after a decode that
    failed), before anything else; it refuses a write after [end()] with an
    error event. *)
Definition super_write (st : Engine) (str : Decoded) (toks : list Token)
    : Engine * Completion :=
  match str with
  | Undefined => (st, Throws)
  | Str _ =>
    if ended st then (set_emitted (emitted st ++ [WriteAfterEnd]) st, Returns)
    else (emit_tokens (set_parserInput (parserInput st ++ [str]) st) toks, Returns)
  end.

(** [this.stringBuffer += str] *)
Definition append_decoded (s : jsstring) (str : Decoded) : jsstring :=
  match str with
  | Undefined => s ++ of_ascii "undefined"
  | Str t => s ++ t
  end.

(** [internalWrite(data, encoding, isLast)]; [toks] are the tokens emitted
    during its [super.write].  The [catch] block emits the error and goes
    on, so a chunk that does not decode reaches [super.write] as
    [undefined]. *)
Definition internalWrite (st : Engine) (data : Buffer) (encoding : EncodingArg)
    (isLast : bool) (toks : list Token) : Engine * Completion :=
  match encoding_rejected st encoding with
  | Some e => (set_emitted (emitted st ++ [InvalidHtmlEncoding e]) st, Returns)
  | None =>
    let (st1, pushed) := push st data in
    if negb pushed then (st1, Returns)
    else
      let (st2, str) :=
        match Utf8.decode (utf8Decoder st1) data (negb isLast) with
        | Some (d, s) => (set_utf8Decoder d st1, Str s)
        | None => (set_emitted (emitted st1 ++ [InvalidUtf8]) st1, Undefined)
        end in
      let st3 := set_stringBuffer (append_decoded (stringBuffer st2) str) st2 in
      super_write st3 str toks
  end.

Definition write (st : Engine) (data : Buffer) (encoding : EncodingArg) (toks : list Token)
    : Engine * Completion :=
  internalWrite st data encoding false toks.

Definition writeLast (st : Engine) (data : Buffer) (encoding : EncodingArg) (toks : list Token)
    : Engine * Completion :=
  internalWrite st data encoding true toks.

(** [flush] *)
Definition flush (st : Engine) : Engine * Buffer :=
  match buffers st with
  | [b] => (set_buffers [] st, b)
  | bs => (set_buffers [] st, concat_total bs (len st))
  end.

(** [removeAnyTokenListeners] *)
Definition removeAnyTokenListeners (st : Engine) : Engine :=
  set_anyTokenListeners false st.

(** The [for] loop of [getWritableBuffer]; [None] when it runs to the end. *)
Fixpoint release_loop (writableLen : Z) (before rest : list Buffer) (index : Z)
    : option (list Buffer * Buffer) :=
  match rest with
  | [] => None
  | buffer :: rest' =>
    if index + blen buffer =? writableLen then
      Some (rest', concat_total (before ++ [buffer]) writableLen)
    else if index + blen buffer >? writableLen then
      let sliceIndex := writableLen - index in
      Some (slice_from buffer sliceIndex :: rest',
            concat_total (before ++ [slice buffer 0 sliceIndex]) writableLen)
    else release_loop writableLen (before ++ [buffer]) rest' (index + blen buffer)
  end.

(** [getWritableBuffer] *)
Definition getWritableBuffer (st : Engine) : Engine * Buffer :=
  if negb (writableOffset st =? 0) then
    let writableLen := writableOffset st - writtenOffset st in
    let st1 := set_writtenOffset (writableOffset st) st in
    let st2 := set_writableOffset 0 st1 in
    let st3 := set_len (len st2 - writableLen) st2 in
    match release_loop writableLen [] (buffers st3) 0 with
    | Some (remaining, out) => (set_buffers remaining st3, out)
    | None => (st3, [])
    end
  else (st, []).

End Engine.

(** ** Header values and the numbers read from them *)

Module Js.

(** Numbers as [adjustContentLength] tells them apart: integers, [NaN], and
    the other non-integers (fractions, infinities), kept by their printed
    form.  The numbers of the code are doubles; an integer is kept here as
    the integer itself, which is what the double holds when its magnitude is
    at most 2^53. *)
Inductive Number := Int (z : Z) | NaN | NonInteger (shown : string).

(** The integers a double holds exactly.  On them reading a digit string,
    adding and printing are exact in the code, as they are in [parseInt],
    [add_int] and [number_to_string] below; beyond them the code rounds and
    these definitions do not, so the general properties of the header
    arithmetic are stated within this range. *)
Definition exact_integer (z : Z) : Prop := - 9007199254740992 <= z <= 9007199254740992.

(** A header value as [setHeader] accepts it. *)
Inductive HeaderValue := HNum (n : Number) | HStr (s : string) | HArr (l : list string).

Definition decimal (z : Z) : string :=
  DecimalString.NilZero.string_of_int (Z.to_int z).

(** Template-literal conversion of a number. *)
Definition number_to_string (n : Number) : string :=
  match n with
  | Int z => decimal z
  | NaN => "NaN"
  | NonInteger shown => shown
  end.

Fixpoint join_comma (l : list string) : string :=
  match l with
  | [] => ""
  | [s] => s
  | s :: rest => s +:+ "," +:+ join_comma rest
  end.

(** Template-literal conversion of a header value. *)
Definition to_string (v : HeaderValue) : string :=
  match v with
  | HNum n => number_to_string n
  | HStr s => s
  | HArr l => join_comma l
  end.

Definition is_digit (c : Ascii.ascii) : bool :=
  let n := Ascii.nat_of_ascii c in (48 <=? n)%nat && (n <=? 57)%nat.

Definition digit_value (c : Ascii.ascii) : Z := Z.of_nat (Ascii.nat_of_ascii c) - 48.

(** [/\D/u.test(s)] *)
Fixpoint has_non_digit (s : string) : bool :=
  match s with
  | EmptyString => false
  | String c rest => negb (is_digit c) || has_non_digit rest
  end.

Definition is_js_space (c : Ascii.ascii) : bool :=
  let n := Ascii.nat_of_ascii c in
  (n =? 32)%nat || ((9 <=? n)%nat && (n <=? 13)%nat).

Fixpoint skip_spaces (s : string) : string :=
  match s with
  | String c rest => if is_js_space c then skip_spaces rest else s
  | EmptyString => s
  end.

(** The longest prefix of decimal digits, read as a number; [None] when the
    string does not start with a digit. *)
Fixpoint leading_digits (s : string) (acc : option Z) : option Z :=
  match s with
  | String c rest =>
    if is_digit c
    then leading_digits rest (Some (10 * default 0 acc + digit_value c))
    else acc
  | EmptyString => acc
  end.

(** [parseInt(s, 10)], exact: the code's result is the nearest double. *)
Definition parseInt (s : string) : Number :=
  let s1 := skip_spaces s in
  let (negative, s2) :=
    match s1 with
    | String c rest =>
      if Ascii.eqb c (Ascii.ascii_of_nat 45) then (true, rest)
      else if Ascii.eqb c (Ascii.ascii_of_nat 43) then (false, rest)
      else (false, s1)
    | EmptyString => (false, s1)
    end in
  match leading_digits s2 None with
  | Some z => Int (if negative then - z else z)
  | None => NaN
  end.

(** [Number.isInteger(n)] *)
Definition isInteger (n : Number) : bool :=
  match n with Int _ => true | _ => false end.

(** [n < 0], used on integers only. *)
Definition is_negative (n : Number) : bool :=
  match n with Int z => z <? 0 | _ => false end.

(** [n + p] for an integer [p] (the code adds to integers and [NaN] only:
    other numbers are refused before the sum).  The sum is exact: it is the
    code's when it is within [exact_integer]. *)
Definition add_int (n : Number) (p : Z) : Number :=
  match n with
  | Int z => Int (z + p)
  | NaN => NaN
  | NonInteger shown => NonInteger (shown +:+ "+" +:+ decimal p)
  end.

(** [v !== n]: strict inequality of a header value and a number. *)
Definition strict_ne (v : HeaderValue) (n : Number) : bool :=
  match v, n with
  | HNum (Int a), Int b => negb (a =? b)
  | _, _ => true
  end.

End Js.

(** ** The response and the wrappers [main] installs on it *)

Module Response.
Import Buf JsStr Engine Js.

(** Which function each patched property of [res] currently holds. *)
Inductive WriteImpl := WritePatched | WriteParsing | WriteOriginal.
Inductive EndImpl := EndPatched | EndOriginal.
Inductive SetHeaderImpl := SetHeaderPatched | SetHeaderOriginal.

Inductive ResError :=
| ParserError (e : EngineError)
| InvalidContentType (raw : HeaderValue) (reason : string)
| InvalidContentLength (raw : HeaderValue).

(** What the caller's own ['error'] listener does: nothing, or end the
    response with the message (as the listeners of the test suite do). *)
Inductive UserListener := NoListener | EndWithMessage.

Record Response := mkResponse {
  headers : gmap string HeaderValue;
  headersSent : bool;
  finished : bool;
  (** body chunks handed to the original [write] and [end], oldest first *)
  wire : list Buffer;
  (** errors emitted on [res], oldest first *)
  errors : list ResError;
  listener : UserListener;
  setHeaderImpl : SetHeaderImpl;
  writeImpl : WriteImpl;
  endImpl : EndImpl;
  parser : Engine;
  parserDestroyed : bool;
  (** the closure variable [etag] of [main] *)
  etag : string
}.

Definition set_headers v (r : Response) : Response :=
  mkResponse v (headersSent r) (finished r) (wire r) (errors r) (listener r)
    (setHeaderImpl r) (writeImpl r) (endImpl r) (parser r) (parserDestroyed r) (etag r).
Definition set_headersSent v (r : Response) : Response :=
  mkResponse (headers r) v (finished r) (wire r) (errors r) (listener r)
    (setHeaderImpl r) (writeImpl r) (endImpl r) (parser r) (parserDestroyed r) (etag r).
Definition set_finished v (r : Response) : Response :=
  mkResponse (headers r) (headersSent r) v (wire r) (errors r) (listener r)
    (setHeaderImpl r) (writeImpl r) (endImpl r) (parser r) (parserDestroyed r) (etag r).
Definition set_wire v (r : Response) : Response :=
  mkResponse (headers r) (headersSent r) (finished r) v (errors r) (listener r)
    (setHeaderImpl r) (writeImpl r) (endImpl r) (parser r) (parserDestroyed r) (etag r).
Definition set_errors v (r : Response) : Response :=
  mkResponse (headers r) (headersSent r) (finished r) (wire r) v (listener r)
    (setHeaderImpl r) (writeImpl r) (endImpl r) (parser r) (parserDestroyed r) (etag r).
Definition set_setHeaderImpl v (r : Response) : Response :=
  mkResponse (headers r) (headersSent r) (finished r) (wire r) (errors r) (listener r)
    v (writeImpl r) (endImpl r) (parser r) (parserDestroyed r) (etag r).
Definition set_writeImpl v (r : Response) : Response :=
  mkResponse (headers r) (headersSent r) (finished r) (wire r) (errors r) (listener r)
    (setHeaderImpl r) v (endImpl r) (parser r) (parserDestroyed r) (etag r).
Definition set_endImpl v (r : Response) : Response :=
  mkResponse (headers r) (headersSent r) (finished r) (wire r) (errors r) (listener r)
    (setHeaderImpl r) (writeImpl r) v (parser r) (parserDestroyed r) (etag r).
Definition set_parser v (r : Response) : Response :=
  mkResponse (headers r) (headersSent r) (finished r) (wire r) (errors r) (listener r)
    (setHeaderImpl r) (writeImpl r) (endImpl r) v (parserDestroyed r) (etag r).
Definition set_parserDestroyed v (r : Response) : Response :=
  mkResponse (headers r) (headersSent r) (finished r) (wire r) (errors r) (listener r)
    (setHeaderImpl r) (writeImpl r) (endImpl r) (parser r) v (etag r).
Definition set_etag v (r : Response) : Response :=
  mkResponse (headers r) (headersSent r) (finished r) (wire r) (errors r) (listener r)
    (setHeaderImpl r) (writeImpl r) (endImpl r) (parser r) (parserDestroyed r) v.

(** A response nothing was installed on. *)
Definition plain (hs : gmap string HeaderValue) (l : UserListener) : Response :=
  mkResponse hs false false [] [] l SetHeaderOriginal WriteOriginal EndOriginal
    (create "" [] 0 false) false "".

(** Everything delivered to the transport. *)
Definition delivered (r : Response) : Buffer := concat (wire r).

Definition TMP_HEADER_NAME : string := "nodejs-temporary-inserted-header-name".

Definition CONTENT_LENGTH_ERROR : string :=
  "According to RFC7230, content-length header must be a non-negative integer https://tools.ietf.org/html/rfc7230#section-3.3.2".

(** Bytes of a string argument ([Buffer.from(str)]; a [string] holds its
    UTF-8 bytes). *)
Definition bytes_of_string (s : string) : Buffer :=
  map (fun c => Z.of_nat (Ascii.nat_of_ascii c)) (String.list_ascii_of_string s).

(** Header names are case-insensitive. *)
Definition getHeader (r : Response) (name : string) : option HeaderValue :=
  headers r !! lower_string name.

Definition hasHeader (r : Response) (name : string) : bool :=
  bool_decide (is_Some (getHeader r name)).

(** The original methods of the response.  Node throws when a header is set
    or removed after the headers were sent, and drops what is written after
    the end: the response stays as it was. *)
Definition originalSetHeader (r : Response) (name : string) (v : HeaderValue) : Response :=
  if headersSent r then r else set_headers (<[lower_string name := v]> (headers r)) r.

Definition removeHeader (r : Response) (name : string) : Response :=
  if headersSent r then r else set_headers (delete (lower_string name) (headers r)) r.

Definition originalWrite (r : Response) (data : Buffer) : Response :=
  if finished r then r
  else set_headersSent true (set_wire (wire r ++ [data]) r).

Definition originalEnd (r : Response) (data : option Buffer) : Response :=
  if finished r then r
  else set_finished true (set_headersSent true
         (set_wire (wire r ++ match data with Some d => [d] | None => [] end) r)).

(** [restoreOriginalMethods] *)
Definition restoreOriginalMethods (r : Response) : Response :=
  set_endImpl EndOriginal (set_writeImpl WriteOriginal (set_setHeaderImpl SetHeaderOriginal r)).

Section Platform.

(** [util.inspect] on a header value, and [parse] of the content-type
    package: the media type, or the message of the error it throws. *)
Variable inspect : HeaderValue -> string.
Variable parseContentType : HeaderValue -> string + string.

Definition message (e : ResError) : string :=
  match e with
  | ParserError e => error_message e
  | InvalidContentType raw reason =>
    inspect raw +:+ " is not a valid value for content-type header: " +:+ reason +:+ "."
  | InvalidContentLength raw =>
    CONTENT_LENGTH_ERROR +:+ ", but it was " +:+ inspect raw +:+ "."
  end.

(** [res.emit('error', e)]: [restoreOriginalMethods] was prepended to the
    listeners, the caller's listener follows. *)
Definition emit_error (r : Response) (e : ResError) : Response :=
  let r1 := set_errors (errors r ++ [e]) (restoreOriginalMethods r) in
  match listener r1 with
  | NoListener => r1
  | EndWithMessage => originalEnd r1 (Some (bytes_of_string (message e)))
  end.

(** The listener [err => res.emit('error', err)] on the parser, for the
    errors the parser emitted since it had emitted [seen] of them. *)
Definition forward_errors (seen : nat) (r : Response) : Response :=
  fold_left (fun acc e => emit_error acc (ParserError e))
    (drop seen (emitted (parser r))) r.

(** [hasHtmlContentType] *)
Definition hasHtmlContentType (r : Response) (v : HeaderValue) : Response * bool :=
  match parseContentType v with
  | inl type => (r, String.eqb type "text/html")
  | inr reason => (emit_error r (InvalidContentType v reason), false)
  end.

(** The validity test of each branch of [adjustContentLength]. *)
Definition content_length_refused (v : HeaderValue) : bool :=
  match v with
  | HNum n => negb (isInteger n) || is_negative n
  | _ => has_non_digit (to_string v)
  end.

Definition originalContentLength (v : HeaderValue) : Number :=
  match v with
  | HNum n => n
  | _ => parseInt (to_string v)
  end.

Definition header_strict_ne (h : option HeaderValue) (n : Number) : bool :=
  match h with
  | Some v => strict_ne v n
  | None => true
  end.

(** [adjustContentLength] *)
Definition adjustContentLength (r : Response) (v : HeaderValue) : Response :=
  if content_length_refused v then
    emit_error (removeHeader r "content-length") (InvalidContentLength v)
  else
    let total := add_int (originalContentLength v) (insertionLength (parser r)) in
    if shouldParseHtml (parser r) && header_strict_ne (getHeader r "content-length") total
    then originalSetHeader r "content-length" (HStr (number_to_string total))
    else r.

(** [updateHeaders] *)
Definition updateHeaders (r : Response) : Response :=
  let r1 :=
    match getHeader r "content-type" with
    | Some v =>
      let (r', html) := hasHtmlContentType r v in
      set_parser (set_shouldParseHtml html (parser r')) r'
    | None => r
    end in
  let r2 :=
    match getHeader r1 "content-length" with
    | Some v => adjustContentLength r1 v
    | None => r1
    end in
  match getHeader r2 "etag" with
  | Some old =>
    if negb (String.eqb (etag r2) "") && shouldParseHtml (parser r2)
    then set_etag "" (originalSetHeader r2 "etag" (HStr (to_string old +:+ etag r2)))
    else r2
  | None => r2
  end.

(** [main]; [ensureResponseSetHeaderWorks] sets and removes a header. *)
Definition main (r : Response) (chunk : Buffer) (chunkLen : Z) (tag : string)
    (target : string) (toEnd : bool) : Response :=
  if headersSent r then r
  else
    let r1 := removeHeader (originalSetHeader r TMP_HEADER_NAME (HStr "1")) TMP_HEADER_NAME in
    let r2 := set_etag tag (set_parserDestroyed false
                (set_parser (create target chunk chunkLen toEnd) r1)) in
    let r3 := updateHeaders r2 in
    set_endImpl EndPatched (set_writeImpl WritePatched (set_setHeaderImpl SetHeaderPatched r3)).

(** [res.setHeader(name, value)] *)
Definition setHeader (r : Response) (name : string) (v : HeaderValue) : Response :=
  match setHeaderImpl r with
  | SetHeaderOriginal => originalSetHeader r name v
  | SetHeaderPatched =>
    if headersSent r then r else updateHeaders (originalSetHeader r name v)
  end.

(** [res.writeHead(status, headers)]: each header goes through
    [res.setHeader], then the head is stored. *)
Definition writeHead (r : Response) (hs : list (string * HeaderValue)) : Response :=
  set_headersSent true (fold_left (fun acc kv => setHeader acc kv.1 kv.2) hs r).

(** The function [write] of [main].  When [parser.write] throws, the
    exception leaves the function (and the caller's [res.write]) at that
    point: what the listeners of the error did stays, the rest is skipped. *)
Definition write_fn (r : Response) (data : Buffer) (encoding : EncodingArg)
    (toks : list Token) : Response :=
  if shouldParseHtml (parser r) then
    let seen := length (emitted (parser r)) in
    let (p1, completion) := write (parser r) data encoding toks in
    let r1 := forward_errors seen (set_parser p1 r) in
    match completion with
    | Throws => r1
    | Returns =>
      let (p2, writableBuffer) := getWritableBuffer (parser r1) in
      let r2 := set_parser p2 r1 in
      if negb (blen writableBuffer =? 0) then originalWrite r2 writableBuffer else r2
    end
  else
    let r1 := restoreOriginalMethods r in
    let p := parser r1 in
    originalWrite (set_parser (set_buffers [] p) r1)
      (concat_total (buffers p ++ [data]) (len p + blen data)).

(** [res.write(data, encoding)] *)
Definition res_write (r : Response) (data : Buffer) (encoding : EncodingArg)
    (toks : list Token) : Response :=
  match writeImpl r with
  | WriteOriginal => originalWrite r data
  | WriteParsing => write_fn r data encoding toks
  | WritePatched =>
    let r1 := set_headersSent true (set_setHeaderImpl SetHeaderOriginal r) in
    if negb (shouldParseHtml (parser r1)) then
      originalWrite
        (set_parserDestroyed true (set_endImpl EndOriginal (set_writeImpl WriteOriginal r1)))
        data
    else write_fn (set_writeImpl WriteParsing r1) data encoding toks
  end.

(** [res.end(data, encoding)]; [data] is [None] when the call has no chunk.
    When [parser.writeLast] throws, the call is left before [originalEnd]. *)
Definition res_end (r : Response) (data : option Buffer) (encoding : EncodingArg)
    (toks : list Token) : Response :=
  match endImpl r with
  | EndOriginal => originalEnd r data
  | EndPatched =>
    let r1 := restoreOriginalMethods r in
    let r2 := set_parser (removeAnyTokenListeners (parser r1)) r1 in
    if bool_decide (buffers (parser r2) = []) && negb (shouldParseHtml (parser r2)) then
      originalEnd (set_parserDestroyed true r2) data
    else
      let chunk := default [] data in
      let seen := length (emitted (parser r2)) in
      let (p3, completion) :=
        if shouldParseHtml (parser r2) then writeLast (parser r2) chunk encoding toks
        else ((push (parser r2) chunk).1, Returns) in
      let r3 := forward_errors seen (set_parser p3 r2) in
      match completion with
      | Throws => r3
      | Returns =>
        let (p4, flushed) := flush (parser r3) in
        set_parserDestroyed true (originalEnd (set_parser p4 r3) (Some flushed))
      end
  end.

End Platform.

End Response.

(** ** Runs of the engine, and the words of the specification *)

Module Run.
Import Buf JsStr Engine.

(** The calls the response layer makes on one engine.  The flag
    [shouldParseHtml] is assigned by [updateHeaders] before the first of
    them (the write wrapper puts the original [setHeader] back) and by
    [onTag]: a run starts from the engine as the headers left it,
    [set_shouldParseHtml html (create ...)]. *)
Inductive Op :=
| Write (data : Buffer) (encoding : EncodingArg) (toks : list Token)
| WriteLast (data : Buffer) (encoding : EncodingArg) (toks : list Token)
| GetWritableBuffer
| RemoveAnyTokenListeners.

(** A run keeps, beside the engine, the buffers [getWritableBuffer]
    returned and the chunks that reached [push], both oldest first. *)
Record Trace := mkTrace {
  engine : Engine;
  released : list Buffer;
  accepted : list Buffer
}.

Definition accept (tr : Trace) (data : Buffer) (encoding : EncodingArg) (isLast : bool)
    (toks : list Token) : Trace :=
  mkTrace (internalWrite (engine tr) data encoding isLast toks).1 (released tr)
    (match encoding_rejected (engine tr) encoding with
     | Some _ => accepted tr
     | None => accepted tr ++ [data]
     end).

Definition step (tr : Trace) (op : Op) : Trace :=
  match op with
  | Write data encoding toks => accept tr data encoding false toks
  | WriteLast data encoding toks => accept tr data encoding true toks
  | GetWritableBuffer =>
    let (st, out) := getWritableBuffer (engine tr) in
    mkTrace st (released tr ++ [out]) (accepted tr)
  | RemoveAnyTokenListeners =>
    mkTrace (removeAnyTokenListeners (engine tr)) (released tr) (accepted tr)
  end.

Definition run (tr : Trace) (ops : list Op) : Trace := fold_left step ops tr.

Definition start (st : Engine) : Trace := mkTrace st [] [].

(** Total bytes accepted so far. *)
Definition accepted_bytes (tr : Trace) : Z := total_len (accepted tr).

(** The contract of the tokenizer: the tokens of one call come in order,
    none ends before the end of the last token seen ([last]) and none ends
    past the text decoded so far ([limit] code units). *)
Fixpoint tokens_in_order (last : Z) (toks : list Token) (limit : Z) : Prop :=
  match toks with
  | [] => True
  | tok :: rest =>
    last <= endOffset tok /\ endOffset tok <= limit /\
    tokens_in_order (endOffset tok) rest limit
  end.

(** The same with the start of each token: tokens do not overlap. *)
Fixpoint tokens_located (last : Z) (toks : list Token) (limit : Z) : Prop :=
  match toks with
  | [] => True
  | tok :: rest =>
    last <= startOffset tok /\ startOffset tok <= endOffset tok /\
    endOffset tok <= limit /\
    tokens_located (endOffset tok) rest limit
  end.

(** The token [onTag] waits for. *)
Definition is_target (st : Engine) (tok : Token) : bool :=
  bool_decide (kind tok = insertionEvent st) &&
  String.eqb (tagName tok) (targetTagName st).

Definition last_end (last : Z) (toks : list Token) : Z :=
  fold_left (fun _ tok => endOffset tok) toks last.

Definition text_length (st : Engine) : Z := Z.of_nat (length (stringBuffer st)).

(** The contract along a run. *)
Fixpoint tokenizer_contract (tr : Trace) (last : Z) (ops : list Op) : Prop :=
  match ops with
  | [] => True
  | op :: rest =>
    match op with
    | Write _ _ toks | WriteLast _ _ toks =>
      tokens_in_order last toks (text_length (engine (step tr op))) /\
      tokenizer_contract (step tr op) (last_end last toks) rest
    | _ => tokenizer_contract (step tr op) last rest
    end
  end.

(** The watermark invariant as the specification words it. *)
Definition watermark_invariant (tr : Trace) : Prop :=
  writtenOffset (engine tr) <= writableOffset (engine tr) /\
  writableOffset (engine tr) <= accepted_bytes tr.

(** The watermark invariant the code keeps: [writableOffset] is 0 while
    nothing waits to be released. *)
Definition watermark_invariant_or_idle (tr : Trace) : Prop :=
  (writableOffset (engine tr) = 0 \/ writtenOffset (engine tr) <= writableOffset (engine tr)) /\
  writableOffset (engine tr) <= accepted_bytes tr /\
  writtenOffset (engine tr) <= accepted_bytes tr.

End Run.

Module Spec.
Import Buf JsStr Engine.

(** Total length of the chunks up to and including chunk [i]. *)
Definition running_total (q : list Buffer) (i : nat) : Z := total_len (take (S i) q).

(** Chunk [i] is the first at which the running total reaches or exceeds [n]. *)
Definition first_reaching (q : list Buffer) (n : Z) (i : nat) : Prop :=
  n <= running_total q i /\ forall j, (j < i)%nat -> running_total q j < n.

(** The offset of the boundary: the token's start to insert before the
    close tag, its end to insert after the open tag. *)
Definition boundary (toEnd : bool) (tok : Token) : Z :=
  if toEnd then startOffset tok else endOffset tok.

End Spec.

(** Stand-ins for [util.inspect] and the content-type parser, for the
    examples below.  Both are dependencies of the code, not part of it: the
    general properties take them as parameters, and the examples use these
    two on the plain headers of the test suite. *)
Module Sample.
Import Js.

Definition inspect (v : HeaderValue) : string :=
  match v with
  | HStr s => "'" +:+ s +:+ "'"
  | _ => to_string v
  end.

(** The text before the first [sep], and the text after it. *)
Fixpoint before (sep : Ascii.ascii) (s : string) : string :=
  match s with
  | EmptyString => EmptyString
  | String c r => if Ascii.eqb c sep then EmptyString else String c (before sep r)
  end.

Fixpoint after (sep : Ascii.ascii) (s : string) : option string :=
  match s with
  | EmptyString => None
  | String c r => if Ascii.eqb c sep then Some r else after sep r
  end.

Fixpoint trim_end (s : string) : string :=
  match s with
  | EmptyString => EmptyString
  | String c r =>
    match trim_end r with
    | EmptyString => if is_js_space c then EmptyString else String c EmptyString
    | t => String c t
    end
  end.

(** The characters of a token of RFC 7231. *)
Definition is_token_char (c : Ascii.ascii) : bool :=
  let n := Ascii.nat_of_ascii c in
  ((48 <=? n)%nat && (n <=? 57)%nat) || ((65 <=? n)%nat && (n <=? 90)%nat) ||
  ((97 <=? n)%nat && (n <=? 122)%nat) ||
  bool_decide (n ∈ [33; 35; 36; 37; 38; 39; 42; 43; 45; 46; 94; 95; 96; 124; 126]%nat).

Fixpoint is_token (s : string) : bool :=
  match s with
  | EmptyString => false
  | String c EmptyString => is_token_char c
  | String c r => is_token_char c && is_token r
  end.

Definition is_media_type (s : string) : bool :=
  let slash := Ascii.ascii_of_nat 47 in
  match after slash s with
  | Some subtype => is_token (before slash s) && is_token subtype
  | None => false
  end.

(** The media type of a header: the text before the first semicolon,
    trimmed, in lower case, when it is [type/subtype]; the parameters after
    the semicolon, which the package checks too, are not looked at. *)
Definition parseContentType (v : HeaderValue) : string + string :=
  match v with
  | HStr s =>
    if String.eqb s "" then inr "argument string is required"
    else
      let type := trim_end (skip_spaces (before (Ascii.ascii_of_nat 59) s)) in
      if is_media_type type then inl (Engine.lower_string type)
      else inr "invalid media type"
  | _ => inr "argument string is required to be a string"
  end.

End Sample.

(** ** The body of one response *)

Module Body.
Import Buf JsStr Engine Js Response.

(** The calls a handler makes once the headers are set. *)
Inductive BodyOp :=
| ResWrite (data : Buffer) (encoding : EncodingArg) (toks : list Token)
| ResEnd (data : option Buffer) (encoding : EncodingArg) (toks : list Token).

Definition body_step (inspect : HeaderValue -> string) (r : Response) (op : BodyOp) : Response :=
  match op with
  | ResWrite data encoding toks => res_write inspect r data encoding toks
  | ResEnd data encoding toks => res_end inspect r data encoding toks
  end.

Definition body_run (inspect : HeaderValue -> string) (r : Response) (ops : list BodyOp) : Response :=
  fold_left (body_step inspect) ops r.

(** The bytes the handler wrote. *)
Definition chunk_of (op : BodyOp) : Buffer :=
  match op with
  | ResWrite data _ _ => data
  | ResEnd data _ _ => default [] data
  end.

Definition body_input (ops : list BodyOp) : Buffer := concat (map chunk_of ops).

(** A body: some writes, then the end. *)
Definition writes_then_end (writes : list (Buffer * EncodingArg * list Token))
    (data : option Buffer) (encoding : EncodingArg) (toks : list Token) : list BodyOp :=
  map (fun w => ResWrite w.1.1 w.1.2 w.2) writes ++ [ResEnd data encoding toks].

(** The calls the wrappers make on the engine for these calls, while the
    response is processed as HTML. *)
Definition engine_ops_of_op (op : BodyOp) : list Run.Op :=
  match op with
  | ResWrite data encoding toks => [Run.Write data encoding toks; Run.GetWritableBuffer]
  | ResEnd data encoding toks =>
    [Run.RemoveAnyTokenListeners; Run.WriteLast (default [] data) encoding toks]
  end.

Definition engine_ops_of (ops : list BodyOp) : list Run.Op :=
  concat (map engine_ops_of_op ops).

Definition toks_of (op : BodyOp) : list Token :=
  match op with
  | ResWrite _ _ toks => toks
  | ResEnd _ _ toks => toks
  end.

Definition encoding_of (op : BodyOp) : EncodingArg :=
  match op with
  | ResWrite _ encoding _ => encoding
  | ResEnd _ encoding _ => encoding
  end.

(** The chunk of [res.end] is the last one: the wrapper decodes it without
    [{stream: true}]. *)
Definition is_last (op : BodyOp) : bool :=
  match op with
  | ResWrite _ _ _ => false
  | ResEnd _ _ _ => true
  end.

(** The engine on which the wrapper of the call calls [write] or
    [writeLast], for a response whose parser is [p]. *)
Definition engine_at_call (p : Engine) (op : BodyOp) : Engine :=
  match op with
  | ResWrite _ _ _ => p
  | ResEnd _ _ _ => removeAnyTokenListeners p
  end.

(** The contract of the tokenizer along a body: tokens in order, without
    overlap, within the text decoded so far, and none for an empty chunk
    (which is never passed to the tokenizer). *)
Fixpoint body_contract (inspect : HeaderValue -> string) (r : Response) (last : Z)
    (ops : list BodyOp) : Prop :=
  match ops with
  | [] => True
  | op :: rest =>
    (chunk_of op = [] -> toks_of op = []) /\
    Run.tokens_located last (toks_of op)
      (Run.text_length (parser (body_step inspect r op))) /\
    body_contract inspect (body_step inspect r op) (Run.last_end last (toks_of op)) rest
  end.

End Body.

(** ** The cases the properties below are checked on *)

Module Scenario.
Import Buf JsStr Engine Js Response Body.

Definition res_setHeader := setHeader Sample.inspect Sample.parseContentType.
Definition res_writeHead := writeHead Sample.inspect Sample.parseContentType.
Definition register := main Sample.inspect Sample.parseContentType.

Definition byte_order_mark : Buffer := [0xEF; 0xBB; 0xBF].

(** [insertHtmlContent(res, 'Z')], content-type text/html, then
    [res.end] of a body that starts with a byte order mark. *)
Definition response_with_byte_order_mark : Response :=
  let r := register (plain ∅ NoListener) (bytes_of_string "Z") 1 "tag" "body" false in
  let r := res_setHeader r "content-type" (HStr "text/html") in
  res_end Sample.inspect r
    (Some (byte_order_mark ++ bytes_of_string "<body></body>")) EncUndefined
    [mkToken StartTag "body" 0 6; mkToken EndTag "body" 6 13].

(** The same handler as the README: content type, a content length of 37,
    then one more header. *)
Definition response_with_three_headers : Response :=
  let r := register (plain ∅ NoListener) (bytes_of_string "Z") 1 "tag" "body" false in
  let r := res_setHeader r "content-type" (HStr "text/html") in
  let r := res_setHeader r "content-length" (HStr "37") in
  res_setHeader r "cache-control" (HStr "no-cache").

(** An HTML response that declares an empty content-length. *)
Definition response_with_empty_length : Response :=
  let r := register (plain ∅ NoListener) (bytes_of_string "Z") 1 "tag" "body" false in
  let r := res_setHeader r "content-type" (HStr "text/html") in
  res_setHeader r "content-length" (HStr "").

(** The invalid-utf8 handler of the test suite, with and without its
    ['error'] listener: before and after its [res.end]. *)
Definition response_before_invalid_utf8 (l : UserListener) : Response :=
  let r := register (plain ∅ l) [] 0 "tag" "body" false in
  res_writeHead r [("content-type", HStr "text/html")].

Definition response_with_invalid_utf8 (l : UserListener) : Response :=
  res_end Sample.inspect (response_before_invalid_utf8 l) (Some [0xAC]) EncUndefined [].

(** An HTML response whose first write holds the open tag of the target,
    ended with a byte that is no UTF-8. *)
Definition response_with_late_invalid_byte : Response :=
  let r := register (plain ∅ NoListener) (bytes_of_string "Z") 1 "tag" "body" false in
  let r := res_setHeader r "content-type" (HStr "text/html") in
  let r := res_write Sample.inspect r (bytes_of_string "<body>") EncUndefined
             [mkToken StartTag "body" 0 6] in
  res_end Sample.inspect r (Some [0xAC]) EncUndefined [].

(** The scenarios of the specification: the same body ended at once, with
    the payload after the open tag and before the close tag, and a body in
    two writes whose first ends inside a tag. *)
Definition html_body_tokens : list Token :=
  [mkToken StartTag "html" 0 6; mkToken StartTag "body" 6 12; mkToken StartTag "h2" 12 16;
   mkToken Text "" 16 18; mkToken EndTag "h2" 18 23; mkToken EndTag "body" 23 30;
   mkToken EndTag "html" 30 37].

Definition response_ended_at_once (toEnd : bool) : Response :=
  let r := register (plain ∅ NoListener) (bytes_of_string "<h1>X</h1>") 10 "tag" "body" toEnd in
  let r := res_setHeader r "content-type" (HStr "text/html") in
  res_end Sample.inspect r (Some (bytes_of_string "<html><body><h2>Hi</h2></body></html>"))
    EncUndefined html_body_tokens.

Definition response_in_two_writes : Response :=
  let r := register (plain ∅ NoListener) (bytes_of_string "Z") 1 "tag" "body" false in
  let r := res_setHeader r "content-type" (HStr "text/html") in
  body_run Sample.inspect r
    (writes_then_end
       [(bytes_of_string "<htm", EncUndefined, []);
        (bytes_of_string "l><body></body></html>", EncUndefined,
         [mkToken StartTag "html" 0 6; mkToken StartTag "body" 6 12;
          mkToken EndTag "body" 12 19; mkToken EndTag "html" 19 26])]
       None EncUndefined []).

(** An HTML response whose headers are set and whose body is about to be
    written, and a body without [body] tag in two chunks, the first of which
    ends inside a two-byte character. *)
Definition response_before_body : Response :=
  let r := register (plain ∅ NoListener) (bytes_of_string "Z") 1 "tag" "body" false in
  res_setHeader r "content-type" (HStr "text/html").

Definition body_without_target : list BodyOp :=
  writes_then_end
    [([60; 112; 62; 194], EncUndefined, [mkToken StartTag "p" 0 3])]
    (Some [162; 60; 47; 112; 62]) EncUndefined
    [mkToken Text "" 3 4; mkToken EndTag "p" 4 8].

(** A body with the target in its second write; the first write ends inside
    a two-byte character. *)
Definition body_with_target : list BodyOp :=
  writes_then_end
    [([60; 112; 62; 194], EncUndefined, [mkToken StartTag "p" 0 3]);
     ([162; 60; 98; 111; 100; 121; 62], EncUndefined,
      [mkToken Text "" 3 4; mkToken StartTag "body" 4 10])]
    (Some (bytes_of_string "</body>")) EncUndefined [].

(** An HTML response with a content length whose body has no [body] tag. *)
Definition response_without_target : Response :=
  let r := register (plain ∅ NoListener) (bytes_of_string "Z") 1 "tag" "body" false in
  let r := res_setHeader r "content-type" (HStr "text/html") in
  let r := res_setHeader r "content-length" (HStr "10") in
  res_end Sample.inspect r (Some (bytes_of_string "<p>hi</p>!")) EncUndefined
    [mkToken StartTag "p" 0 3; mkToken Text "" 3 5; mkToken EndTag "p" 5 9].

End Scenario.

(** ** Invariants used in the proofs *)

Module Inv.
Import Buf JsStr Engine Run.

(** Bytes the decoder holds back: the lead byte and the continuation bytes
    of an unfinished character. *)
Definition pending (d : Utf8.Decoder) : Z :=
  if Utf8.bytes_needed d =? 0 then 0 else Utf8.bytes_seen d + 1.

(** The states the decoder can be in. *)
Definition decoder_ok (d : Utf8.Decoder) : Prop :=
  0 <= Utf8.code_point d /\
  0x80 <= Utf8.lower_boundary d /\ Utf8.upper_boundary d <= 0xBF /\
  (Utf8.bytes_needed d = 0 /\ Utf8.bytes_seen d = 0 \/
   Utf8.bytes_needed d = 1 /\ Utf8.bytes_seen d = 0 /\ Utf8.code_point d <= 0x1F \/
   Utf8.bytes_needed d = 2 /\
     (Utf8.bytes_seen d = 0 /\ Utf8.code_point d <= 0xF \/
      Utf8.bytes_seen d = 1 /\ Utf8.code_point d <= 0x3FF) \/
   Utf8.bytes_needed d = 3 /\
     (Utf8.bytes_seen d = 0 /\ Utf8.code_point d <= 4 /\
        (Utf8.code_point d = 4 -> Utf8.upper_boundary d <= 0x8F) \/
      Utf8.bytes_seen d = 1 /\ Utf8.code_point d <= 0x10F \/
      Utf8.bytes_seen d = 2 /\ Utf8.code_point d <= 0x43FF)).

(** What holds of the offsets of an engine that accepted [total] bytes, along
    a run without error: [last] is the end of the last token the tokenizer
    emitted. *)
Definition engine_offsets_ok (st : Engine) (total last : Z) : Prop :=
  decoder_ok (utf8Decoder st) /\
  byteLength (stringBuffer st) + pending (utf8Decoder st) <= total /\
  0 <= last <= text_length st /\
  0 <= writtenOffset st /\
  writtenOffset st <= byteLength (substring0 (stringBuffer st) last) /\
  writableOffset st <= byteLength (substring0 (stringBuffer st) last) /\
  (writableOffset st = 0 \/ writtenOffset st <= writableOffset st).

Definition offsets_ok (tr : Trace) (last : Z) : Prop :=
  engine_offsets_ok (engine tr) (accepted_bytes tr) last.

(** What holds of the queue until the splice: it is what was accepted and
    not yet released, and [len] is its length. *)
Definition queue_ok (tr : Trace) : Prop :=
  let st := engine tr in
  len st = total_len (buffers st) /\
  concat (released tr) ++ concat (buffers st) = concat (accepted tr) /\
  writtenOffset st = total_len (released tr).

(** The engine after a chunk was queued and decoded, before its tokens. *)
Definition after_decode (st : Engine) (data : Buffer) (d : Utf8.Decoder) (s : jsstring) : Engine :=
  set_parserInput (parserInput st ++ [Str s])
    (set_stringBuffer (stringBuffer st ++ s)
       (set_utf8Decoder d
          (set_buffers (buffers st ++ [data]) (set_len (len st + blen data) st)))).

(** The engine before the splice. *)
Definition unspliced (st : Engine) : Prop :=
  tagListener st = true /\ stopped st = false /\ ended st = false.

(** What the constructor fixes. *)
Definition config (st : Engine) : string * Buffer * bool * Z :=
  (targetTagName st, insertionChunk st, insertToEnd st, insertionLength st).

(** A response after the splice, before the original [write] is back:
    what was delivered and what is still queued are the accepted bytes
    [acc] with the payload put in at [k]. *)
Definition after_splice (r0 r : Response.Response) (k : Z) (acc : Buffer) (text : jsstring) : Prop :=
  Response.delivered r ++ concat (buffers (Response.parser r)) =
    Response.delivered r0 ++ insert_at k (insertionChunk (Response.parser r)) acc /\
  len (Response.parser r) = total_len (buffers (Response.parser r)) /\
  shouldParseHtml (Response.parser r) = false /\
  ended (Response.parser r) = true /\
  stringBuffer (Response.parser r) = text /\
  0 <= k <= blen acc /\
  Response.headers r = Response.headers r0 /\
  Response.errors r = Response.errors r0 /\
  Response.finished r = false /\
  Response.endImpl r = Response.EndPatched /\
  Response.writeImpl r = Response.WriteParsing.

(** How a response processed as HTML stands to the run of its engine:
    [r0] is the response when the body starts. *)
Definition in_step (r0 r : Response.Response) (tr : Trace) : Prop :=
  Response.parser r = engine tr /\
  shouldParseHtml (engine tr) = true /\
  Response.delivered r = Response.delivered r0 ++ concat (released tr) /\
  Response.headers r = Response.headers r0 /\
  Response.errors r = Response.errors r0 /\
  Response.finished r = false /\
  Response.endImpl r = Response.EndPatched /\
  (Response.writeImpl r = Response.WritePatched \/
   Response.writeImpl r = Response.WriteParsing).

End Inv.

(** ** What holds between the writes of a body processed as HTML *)

Module Stream.
Import Buf JsStr Engine Run Inv.

(** Between two writes, before the target tag: every listener is attached,
    nothing waits to be released, and what was released is the text up to
    [last], the end of the last token. *)
Definition stream_ok (tr : Trace) (last : Z) : Prop :=
  unspliced (engine tr) /\ anyTokenListeners (engine tr) = true /\
  writableOffset (engine tr) = 0 /\
  writtenOffset (engine tr) = byteLength (substring0 (stringBuffer (engine tr)) last).

End Stream.

(** ** The state of the three patched methods *)

Module Methods.
Import Response.

(** [res.setHeader], [res.write] and [res.end] are the original ones. *)
Definition restored (r : Response) : Prop :=
  setHeaderImpl r = SetHeaderOriginal /\ writeImpl r = WriteOriginal /\
  endImpl r = EndOriginal.

(** From [r] to [r'] no error was raised and no method was assigned. *)
Definition quiet (r r' : Response) : Prop :=
  errors r' = errors r /\ setHeaderImpl r' = setHeaderImpl r /\
  writeImpl r' = writeImpl r /\ endImpl r' = endImpl r.

(** From [r] to [r'] one error was raised, which put the original methods
    back. *)
Definition raised (r r' : Response) : Prop :=
  (exists e, errors r' = errors r ++ [e]) /\ restored r'.

End Methods.

(** ** The three statements of [updateHeaders], one at a time *)

Module Stages.
Import Js Engine Response.

Section Platform.

Variable inspect : HeaderValue -> string.
Variable parseContentType : HeaderValue -> string + string.

(** [if (res.hasHeader('content-type')) parser.shouldParseHtml = hasHtmlContentType(res)] *)
Definition classify (r : Response) : Response :=
  match getHeader r "content-type" with
  | Some v =>
    let (r', html) := hasHtmlContentType inspect parseContentType r v in
    set_parser (set_shouldParseHtml html (parser r')) r'
  | None => r
  end.

(** [if (res.hasHeader('content-length')) adjustContentLength(...)] *)
Definition adjust (r : Response) : Response :=
  match getHeader r "content-length" with
  | Some v => adjustContentLength inspect r v
  | None => r
  end.

(** The [if] that appends [etag] to the etag header. *)
Definition suffix_etag (r : Response) : Response :=
  match getHeader r "etag" with
  | Some old =>
    if negb (String.eqb (etag r) "") && shouldParseHtml (parser r)
    then set_etag "" (originalSetHeader r "etag" (HStr (to_string old +:+ etag r)))
    else r
  | None => r
  end.

End Platform.

End Stages.

(** ** The exported functions and their argument checks *)

Module Entry.
Import Buf JsStr Js.

(** [Buffer.from(str)]: the UTF-8 bytes of a string; a surrogate pair is one
    character of four bytes, a lone surrogate is written as U+FFFD. *)
Fixpoint utf8_bytes (s : jsstring) : Buffer :=
  match s with
  | [] => []
  | u :: rest =>
    if u <? 0x80 then u :: utf8_bytes rest
    else if u <? 0x800 then
      (0xC0 + Z.shiftr u 6) :: (0x80 + Z.land u 0x3F) :: utf8_bytes rest
    else if is_high u then
      match rest with
      | v :: rest' =>
        if is_low v then
          let cp := 0x10000 + Z.shiftl (u - 0xD800) 10 + (v - 0xDC00) in
          (0xF0 + Z.shiftr cp 18) :: (0x80 + Z.land (Z.shiftr cp 12) 0x3F)
            :: (0x80 + Z.land (Z.shiftr cp 6) 0x3F) :: (0x80 + Z.land cp 0x3F)
            :: utf8_bytes rest'
        else 0xEF :: 0xBF :: 0xBD :: utf8_bytes rest
      | [] => [0xEF; 0xBF; 0xBD]
      end
    else if is_low u then 0xEF :: 0xBF :: 0xBD :: utf8_bytes rest
    else
      (0xE0 + Z.shiftr u 12) :: (0x80 + Z.land (Z.shiftr u 6) 0x3F)
        :: (0x80 + Z.land u 0x3F) :: utf8_bytes rest
  end.

(** The code units [\s] matches and [trim] removes: the white space and the
    line terminators of ECMAScript. *)
Definition is_space (u : Z) : bool :=
  ((9 <=? u) && (u <=? 13)) || (u =? 0x20) || (u =? 0xA0) || (u =? 0x1680) ||
  ((0x2000 <=? u) && (u <=? 0x200A)) || (u =? 0x2028) || (u =? 0x2029) ||
  (u =? 0x202F) || (u =? 0x205F) || (u =? 0x3000) || (u =? 0xFEFF).

(** [str.trim()] *)
Fixpoint trim_start (s : jsstring) : jsstring :=
  match s with
  | u :: rest => if is_space u then trim_start rest else s
  | [] => []
  end.

Definition trim (s : jsstring) : jsstring :=
  reverse (trim_start (reverse (trim_start s))).

(** [str.match(/\s/u) !== null] *)
Definition has_space (s : jsstring) : bool := existsb is_space s.

(** A value as the checks tell values apart: [undefined], a boolean, a
    string, a plain object (by the two properties the code reads from it,
    [undefined] when absent), or anything else (by an opaque label). *)
Inductive Value :=
| VUndefined
| VBoolean (b : bool)
| VString (s : jsstring)
| VOther (label : string).

Inductive Arg :=
| AValue (v : Value)
| APlainObject (tagName insertToEnd : Value).

Inductive ErrorKind := TypeError | RangeError | PlainError.

Record JsError := mkJsError {
  kind : ErrorKind;
  code : option string;
  message : string
}.

(** The arguments [main] is called with. *)
Record MainCall := mkMainCall {
  res : Arg;
  insertionChunk : Buffer;
  insertionLength : Z;
  etag : string;
  targetTagName : jsstring;
  insertToEnd : bool
}.

(** The function [new InsertHtmlContent(...)] returns:
    [insertHtmlContentFromClass] with its first five arguments bound. *)
Record Bound := mkBound {
  boundChunk : Buffer;
  boundLength : Z;
  boundEtag : string;
  boundTagName : jsstring;
  boundInsertToEnd : bool
}.

Definition TAG_NAME_ERROR : string := "Expected `tagName` option to be an HTML tag name".

(** [argLen === 0 ? 'no' : argLen] *)
Definition count (n : nat) : string :=
  match n with
  | O => "no"
  | _ => decimal (Z.of_nat n)
  end.

Section Platform.

(** [inspectWithKind], [util.inspect] on a string, [md5Base64] and
    [String.prototype.toLowerCase]. *)
Variable inspectWithKind : Arg -> string.
Variable inspect : jsstring -> string.
Variable md5Base64 : Buffer -> string.
Variable toLowerCase : jsstring -> jsstring.

(** [convertInsertionChunkStringToBuffer] *)
Definition convertInsertionChunkStringToBuffer (str : Arg) : JsError + Buffer :=
  match str with
  | AValue (VString s) => inr (utf8_bytes s)
  | _ =>
    inl (mkJsError TypeError (Some "ERR_INVALID_ARG_TYPE")
           ("Expected a <string> to inject into HTML as the last child of `head` tag, "
            +:+ "but got a non-string value " +:+ inspectWithKind str +:+ "."))
  end.

(** The [if] chain on [tagName]: the error to throw, if any. *)
Definition tagName_error (tagName : Value) : option JsError :=
  match tagName with
  | VUndefined => None
  | VString s =>
    if bool_decide (s = []) then
      Some (mkJsError PlainError (Some "ERR_INVALID_OPTION_VALUE")
              (TAG_NAME_ERROR +:+ ", but got '' (empty string)."))
    else if bool_decide (trim s = []) then
      Some (mkJsError PlainError (Some "ERR_INVALID_OPTION_VALUE")
              (TAG_NAME_ERROR +:+ ", but got a whitespace-only string " +:+ inspect s +:+ "."))
    else if has_space s then
      Some (mkJsError PlainError (Some "ERR_INVALID_OPTION_VALUE")
              (TAG_NAME_ERROR +:+ ", but got an invalid tag name " +:+ inspect s +:+ "."))
    else None
  | _ =>
    Some (mkJsError TypeError (Some "ERR_INVALID_OPTION_VALUE")
            (TAG_NAME_ERROR +:+ " (<string>), but got a non-string value "
             +:+ inspectWithKind (AValue tagName) +:+ "."))
  end.

(** [prepareOptionArguments]; [None] stands for [noOptionsProvided]. *)
Definition prepareOptionArguments (options : option Arg) : JsError + (jsstring * bool) :=
  match options with
  | None => inr (of_ascii "body", false)
  | Some (AValue v) =>
    inl (mkJsError TypeError (Some "ERR_INVALID_ARG_TYPE")
           ("Expected an <Object> to set inject-html-content options, but got "
            +:+ inspectWithKind (AValue v) +:+ "."))
  | Some (APlainObject tagName insertToEnd) =>
    match tagName_error tagName with
    | Some error => inl error
    | None =>
      match insertToEnd with
      | VUndefined | VBoolean _ =>
        inr (match tagName with
             | VString s => toLowerCase s
             | _ => of_ascii "body"
             end,
             match insertToEnd with
             | VBoolean b => b
             | _ => false
             end)
      | _ =>
        inl (mkJsError TypeError (Some "ERR_INVALID_OPTION_VALUE")
               ("Expected `insertToEnd` option to be a boolean, "
                +:+ "but got a non-boolean value "
                +:+ inspectWithKind (AValue insertToEnd) +:+ "."))
      end
    end
  end.

(** [options = noOptionsProvided]: the default of the destructuring applies
    to a missing argument and to [undefined]. *)
Definition options_of (args : list Arg) (i : nat) : option Arg :=
  match args !! i with
  | None | Some (AValue VUndefined) => None
  | Some a => Some a
  end.

(** An argument, [undefined] when missing. *)
Definition arg (args : list Arg) (i : nat) : Arg := default (AValue VUndefined) (args !! i).

(** [module.exports = function insertHtmlContent(...args)], up to its call
    of [main]. *)
Definition insertHtmlContent (args : list Arg) : JsError + MainCall :=
  let argLen := length args in
  if negb (argLen =? 2)%nat && negb (argLen =? 3)%nat then
    inl (mkJsError RangeError None
           ("Expected 2 or 3 arguments (<http.ServerResponse>, <string>[, <Object>]), but got "
            +:+ count argLen +:+ " arguments."))
  else
    match convertInsertionChunkStringToBuffer (arg args 1) with
    | inl error => inl error
    | inr buffer =>
      match prepareOptionArguments (options_of args 2) with
      | inl error => inl error
      | inr (tagName, toEnd) =>
        inr (mkMainCall (arg args 0) buffer (blen buffer) (md5Base64 buffer) tagName toEnd)
      end
    end.

(** The constructor of [InsertHtmlContent]. *)
Definition construct (args : list Arg) : JsError + Bound :=
  let argLen := length args in
  if negb (argLen =? 1)%nat && negb (argLen =? 2)%nat then
    inl (mkJsError RangeError None
           ("Expected 1 or 2 arguments (<string>[, <Object>]), but got "
            +:+ count argLen +:+ " arguments."))
  else
    match convertInsertionChunkStringToBuffer (arg args 0) with
    | inl error => inl error
    | inr buffer =>
      match prepareOptionArguments (options_of args 1) with
      | inl error => inl error
      | inr (tagName, toEnd) =>
        inr (mkBound buffer (blen buffer) (md5Base64 buffer) tagName toEnd)
      end
    end.

(** [insertHtmlContentFromClass], called with the bound arguments followed
    by [args]. *)
Definition insertHtmlContentFromClass (b : Bound) (args : list Arg) : JsError + MainCall :=
  let argLen := length args in
  if negb (argLen =? 1)%nat then
    inl (mkJsError RangeError None
           ("Expected 1 argument (<http.ServerResponse>), but got "
            +:+ count argLen +:+ " arguments."))
  else
    inr (mkMainCall (arg args 0) (boundChunk b) (boundLength b) (boundEtag b)
           (boundTagName b) (boundInsertToEnd b)).

End Platform.

End Entry.

(** Stand-ins for the platform functions of the argument checks, for the
    examples below. *)
Module EntrySample.
Import JsStr Entry.

Definition inspectWithKind (a : Arg) : string :=
  match a with
  | AValue VUndefined => "undefined"
  | AValue (VBoolean true) => "true"
  | AValue (VBoolean false) => "false"
  | AValue (VString _) => "<string>"
  | AValue (VOther label) => label
  | APlainObject _ _ => "<Object>"
  end.

Definition inspect (s : jsstring) : string := "<string>".

Definition md5Base64 (b : Buf.Buffer) : string := "<md5>".

(** Lower case of the letters A to Z only. *)
Definition toLowerCase (s : jsstring) : jsstring :=
  map (fun u => if (65 <=? u) && (u <=? 90) then u + 32 else u) s.

(** The content of the second example of the README: a heading with the
    surfer emoji followed by a zero width joiner. *)
Definition surfer_heading : jsstring :=
  of_ascii "<h1>" ++ [0xD83C; 0xDFC4; 0x200D] ++ of_ascii "</h1>".

End EntrySample.

(** * Properties *)

Module BufFacts.
Import Buf.

Lemma blen_nonneg (b : Buffer) : 0 <= blen b.
Proof. unfold blen. lia. Qed.

Lemma blen_app (a b : Buffer) : blen (a ++ b) = blen a + blen b.
Proof. unfold blen. rewrite length_app. lia. Qed.

Lemma total_len_nil : total_len [] = 0.
Proof. reflexivity. Qed.

Lemma total_len_cons (b : Buffer) (q : list Buffer) :
  total_len (b :: q) = blen b + total_len q.
Proof. unfold total_len. simpl. apply blen_app. Qed.

Lemma total_len_app (p q : list Buffer) :
  total_len (p ++ q) = total_len p + total_len q.
Proof. unfold total_len. rewrite concat_app. apply blen_app. Qed.

Lemma total_len_nonneg (q : list Buffer) : 0 <= total_len q.
Proof. apply blen_nonneg. Qed.

Lemma total_len_snoc (q : list Buffer) (b : Buffer) :
  total_len (q ++ [b]) = total_len q + blen b.
Proof. rewrite total_len_app, total_len_cons, total_len_nil. lia. Qed.

Lemma slice_prefix (b : Buffer) (k : Z) :
  0 <= k <= blen b -> slice b 0 k = take (Z.to_nat k) b.
Proof.
  intros Hk. unfold slice, rel_index. simpl.
  destruct (k <? 0) eqn:E; [lia|].
  replace (Z.min 0 (blen b)) with 0 by (pose proof (blen_nonneg b); lia).
  simpl. rewrite drop_0. f_equal. lia.
Qed.

Lemma slice_suffix (b : Buffer) (k : Z) :
  0 <= k <= blen b -> slice_from b k = drop (Z.to_nat k) b.
Proof.
  intros Hk. unfold slice_from, slice, rel_index.
  destruct (k <? 0) eqn:E; [lia|].
  destruct (blen b <? 0) eqn:E2; [pose proof (blen_nonneg b); lia|].
  rewrite Z.min_id. rewrite (Z.min_l k) by lia.
  apply take_ge. rewrite length_drop. unfold blen. lia.
Qed.

Lemma slice_split (b : Buffer) (k : Z) :
  0 <= k <= blen b -> slice b 0 k ++ slice_from b k = b.
Proof.
  intros Hk. rewrite slice_prefix, slice_suffix by exact Hk. apply take_drop.
Qed.

Lemma concat_total_exact (q : list Buffer) (n : Z) :
  0 <= n <= total_len q -> concat_total q n = take (Z.to_nat n) (concat q).
Proof.
  intros Hn. unfold concat_total, total_len, blen in *.
  replace (Z.to_nat n - length (concat q))%nat with 0%nat by lia.
  destruct q as [|b q]; [simpl; rewrite take_nil; reflexivity|].
  simpl. apply app_nil_r.
Qed.

Lemma concat_total_all (q : list Buffer) : concat_total q (total_len q) = concat q.
Proof.
  rewrite concat_total_exact by (pose proof (total_len_nonneg q); lia).
  apply take_ge. unfold total_len, blen. lia.
Qed.

End BufFacts.

Module EngineFacts.
Import Buf JsStr Engine.

(** C4: a second [getWritableBuffer] in a row returns an empty buffer and
    leaves the engine as the first call left it. *)
Theorem getWritableBuffer_twice_is_idle (st : Engine) :
  getWritableBuffer (getWritableBuffer st).1 = ((getWritableBuffer st).1, []).
Proof.
  unfold getWritableBuffer at 2 3.
  destruct (writableOffset st =? 0) eqn:Hw; simpl.
  - unfold getWritableBuffer. rewrite Hw. reflexivity.
  - destruct (release_loop _ _ _ _) as [[remaining out]|]; simpl;
      unfold getWritableBuffer; reflexivity.
Qed.

(** C8: with HTML processing active, a write whose encoding argument is a
    non-empty string that [utf8Re] does not match emits one
    [InvalidHtmlEncoding] error and changes nothing else: the chunk is not
    queued, not decoded and not passed to the tokenizer, and the call
    returns. *)
Theorem internalWrite_rejects_encoding (st : Engine) (data : Buffer) (e : string)
    (isLast : bool) (toks : list Token) :
  shouldParseHtml st = true ->
  e <> "" ->
  utf8Re_test e = false ->
  let st' := (internalWrite st data (EncString e) isLast toks).1 in
  st' = set_emitted (emitted st ++ [InvalidHtmlEncoding e]) st /\
  emitted st' = emitted st ++ [InvalidHtmlEncoding e] /\
  buffers st' = buffers st /\ len st' = len st /\
  utf8Decoder st' = utf8Decoder st /\ stringBuffer st' = stringBuffer st /\
  parserInput st' = parserInput st /\
  (internalWrite st data (EncString e) isLast toks).2 = Returns.
Proof.
  intros Hhtml Hne Hre. unfold internalWrite, encoding_rejected.
  rewrite Hhtml, Hre. simpl.
  destruct (String.eqb e "") eqn:He.
  - apply String.eqb_eq in He. contradiction.
  - simpl. repeat split.
Qed.

Lemma internalWrite_rejects_encoding_witness :
  let st := set_shouldParseHtml true (create "body" [90] 1 false) in
  emitted (internalWrite st [60; 112; 62] (EncString "ascii") false
             [mkToken StartTag "p" 0 3]).1
    = [InvalidHtmlEncoding "ascii"].
Proof.
  intro st.
  apply (internalWrite_rejects_encoding st [60; 112; 62] "ascii" false
           [mkToken StartTag "p" 0 3]); [reflexivity | discriminate | reflexivity].
Defined.

(** C10: an empty chunk never reaches the queue, the counter, the decoder,
    the text log or the tokenizer, final or not: apart from the encoding
    check, which comes first, the call returns the engine as it was. *)
Theorem internalWrite_empty_chunk (st : Engine) (encoding : EncodingArg)
    (isLast : bool) (toks : list Token) :
  let st' := (internalWrite st [] encoding isLast toks).1 in
  st' = match encoding_rejected st encoding with
        | Some e => set_emitted (emitted st ++ [InvalidHtmlEncoding e]) st
        | None => st
        end /\
  buffers st' = buffers st /\ len st' = len st /\
  utf8Decoder st' = utf8Decoder st /\ stringBuffer st' = stringBuffer st /\
  parserInput st' = parserInput st /\
  writableOffset st' = writableOffset st /\ writtenOffset st' = writtenOffset st /\
  stopped st' = stopped st /\ ended st' = ended st /\
  emitted st' = emitted st ++ match encoding_rejected st encoding with
                              | Some e => [InvalidHtmlEncoding e]
                              | None => []
                              end /\
  (internalWrite st [] encoding isLast toks).2 = Returns.
Proof.
  unfold internalWrite. destruct (encoding_rejected st encoding); simpl;
    rewrite ?app_nil_r; repeat split.
Qed.

End EngineFacts.

Module JsStrFacts.
Import JsStr.

(** Induction two code units at a time, as [byteLength] recurses. *)
Lemma pairwise_ind (P : jsstring -> Prop) :
  P [] -> (forall u, P [u]) ->
  (forall u v rest, P (v :: rest) -> P rest -> P (u :: v :: rest)) ->
  forall s, P s.
Proof.
  intros Hnil Hone Hstep s.
  assert (H : P s /\ forall u, P (u :: s)).
  { induction s as [|v rest [IH1 IH2]]; split; auto. }
  exact (proj1 H).
Qed.

Lemma byteLength_nonneg (s : jsstring) : 0 <= byteLength s.
Proof.
  induction s as [| u | u v rest IH1 IH2] using pairwise_ind.
  - simpl. lia.
  - simpl. destruct (u <? 128); [lia|]. destruct (u <? 2048); [lia|].
    destruct (is_high u); lia.
  - cbn [byteLength] in *.
    destruct (u <? 128); [lia|]. destruct (u <? 2048); [lia|].
    destruct (is_high u); [|lia]. destruct (is_low v); lia.
Qed.

Lemma low_not_small (v : Z) : is_low v = true -> (v <? 128) = false /\ (v <? 2048) = false /\ is_high v = false.
Proof. unfold is_low, is_high. intros H. apply andb_true_iff in H. lia. Qed.

Lemma byteLength_app_ge (s t : jsstring) : byteLength s <= byteLength (s ++ t).
Proof.
  revert t. induction s as [| u | u v rest IH1 IH2] using pairwise_ind; intros t.
  - apply byteLength_nonneg.
  - pose proof (byteLength_nonneg t). simpl.
    destruct (u <? 128); [lia|]. destruct (u <? 2048); [lia|].
    destruct (is_high u); [|lia].
    destruct t as [|v t']; [lia|].
    pose proof (byteLength_nonneg t'). destruct (is_low v); lia.
  - specialize (IH1 t). specialize (IH2 t).
    change ((u :: v :: rest) ++ t) with (u :: (v :: rest) ++ t).
    change ((v :: rest) ++ t) with (v :: rest ++ t) in *.
    cbn [byteLength] in *.
    destruct (u <? 128); [lia|]. destruct (u <? 2048); [lia|].
    destruct (is_high u); [|lia].
    destruct (is_low v); lia.
Qed.

Lemma byteLength_app_le (s t : jsstring) : byteLength (s ++ t) <= byteLength s + byteLength t.
Proof.
  revert t. induction s as [| u | u v rest IH1 IH2] using pairwise_ind; intros t.
  - simpl. lia.
  - pose proof (byteLength_nonneg t). simpl.
    destruct (u <? 128); [lia|]. destruct (u <? 2048); [lia|].
    destruct (is_high u); [|lia].
    destruct t as [|v t']; [lia|].
    destruct (is_low v) eqn:Hv; [|lia].
    apply low_not_small in Hv as (H1 & H2 & H3).
    cbn [byteLength]. rewrite H1, H2, H3.
    pose proof (byteLength_nonneg t'). lia.
  - specialize (IH1 t). specialize (IH2 t).
    change ((u :: v :: rest) ++ t) with (u :: (v :: rest) ++ t).
    change ((v :: rest) ++ t) with (v :: rest ++ t) in *.
    cbn [byteLength] in *.
    destruct (u <? 128); [lia|]. destruct (u <? 2048); [lia|].
    destruct (is_high u); [|lia].
    destruct (is_low v); lia.
Qed.

Lemma byteLength_take_le (s : jsstring) (k : nat) : byteLength (take k s) <= byteLength s.
Proof.
  rewrite <- (take_drop k s) at 2. apply byteLength_app_ge.
Qed.

Lemma byteLength_substring0_mono (s : jsstring) (a b : Z) :
  a <= b -> byteLength (substring0 s a) <= byteLength (substring0 s b).
Proof.
  intros Hab. unfold substring0.
  replace (take (Z.to_nat a) s) with (take (Z.to_nat a) (take (Z.to_nat b) s)).
  - apply byteLength_take_le.
  - rewrite take_take. f_equal. lia.
Qed.

Lemma substring0_app (s t : jsstring) (e : Z) :
  e <= Z.of_nat (length s) -> substring0 (s ++ t) e = substring0 s e.
Proof.
  intros He. unfold substring0. apply take_app_le. lia.
Qed.

Lemma byteLength_substring0_le (s : jsstring) (e : Z) :
  byteLength (substring0 s e) <= byteLength s.
Proof. apply byteLength_take_le. Qed.

End JsStrFacts.

Module Utf8Facts.
Import Buf JsStr JsStrFacts Inv.

Lemma land_31 (b : Z) : Z.land b 0x1F = b mod 32.
Proof. change 0x1F with (Z.ones 5). rewrite Z.land_ones by lia. reflexivity. Qed.

Lemma land_15 (b : Z) : Z.land b 0xF = b mod 16.
Proof. change 0xF with (Z.ones 4). rewrite Z.land_ones by lia. reflexivity. Qed.

Lemma land_7 (b : Z) : Z.land b 0x7 = b mod 8.
Proof. change 0x7 with (Z.ones 3). rewrite Z.land_ones by lia. reflexivity. Qed.

Lemma land_63 (b : Z) : Z.land b 0x3F = b mod 64.
Proof. change 0x3F with (Z.ones 6). rewrite Z.land_ones by lia. reflexivity. Qed.

Lemma land_1023 (b : Z) : Z.land b 0x3FF = b mod 1024.
Proof. change 0x3FF with (Z.ones 10). rewrite Z.land_ones by lia. reflexivity. Qed.

(** Appending six low bits: the [lor] of the decoder is a sum. *)
Lemma lor_shiftl_6 (cp y : Z) :
  0 <= y < 64 -> Z.lor (Z.shiftl cp 6) y = cp * 64 + y.
Proof.
  intros Hy. rewrite Z.shiftl_mul_pow2 by lia.
  assert (Hdisjoint : Z.land (cp * 2 ^ 6) y = 0).
  { apply Z.bits_inj'. intros i Hi. rewrite Z.land_spec, Z.bits_0.
    destruct (Z.lt_ge_cases i 6) as [Hlow | Hhigh].
    - rewrite Z.mul_pow2_bits_low by lia. reflexivity.
    - destruct (Z.eq_dec y 0) as [-> | Hnz].
      + rewrite Z.bits_0. apply andb_false_r.
      + rewrite (Z.bits_above_log2 y i); [apply andb_false_r | lia |].
        assert (Z.log2 y < 6) by (apply Z.log2_lt_pow2; lia). lia. }
  rewrite <- Z.lxor_lor, <- Z.add_nocarry_lxor by exact Hdisjoint.
  reflexivity.
Qed.

Lemma continuation (cp b : Z) :
  0x80 <= b <= 0xBF ->
  Z.lor (Z.shiftl cp 6) (Z.land b 0x3F) = cp * 64 + (b - 128).
Proof.
  intros Hb. rewrite land_63.
  assert (b mod 64 = b - 128) as -> by (Z.div_mod_to_equations; lia).
  apply lor_shiftl_6. lia.
Qed.

(** UTF-8 length of the code units of one code point. *)
Lemma byteLength_of_code_point (cp : Z) :
  (cp < 0x80 -> byteLength (of_code_point cp) = 1) /\
  (cp < 0x800 -> byteLength (of_code_point cp) <= 2) /\
  (cp < 0x10000 -> byteLength (of_code_point cp) <= 3) /\
  (0 <= cp <= 0x10FFFF -> byteLength (of_code_point cp) <= 4).
Proof.
  unfold of_code_point.
  destruct (cp <? 65536) eqn:Hbmp.
  - assert (Hone : byteLength [cp] <= 3 /\ (cp < 0x800 -> byteLength [cp] <= 2) /\
                   (cp < 0x80 -> byteLength [cp] = 1)).
    { simpl. destruct (cp <? 128) eqn:E1; [lia|].
      destruct (cp <? 2048) eqn:E2; [lia|]. destruct (is_high cp); lia. }
    repeat split; intros; lia.
  - repeat split; intros; try lia.
    rewrite Z.shiftr_div_pow2 by lia. rewrite land_1023.
    set (x := cp - 65536).
    assert (Hx : 0 <= x < 1048576) by (subst x; lia).
    assert (Hhi : 0 <= x / 2 ^ 10 <= 1023) by (Z.div_mod_to_equations; lia).
    assert (Hlo : 0 <= x mod 1024 <= 1023) by (Z.div_mod_to_equations; lia).
    cbn [byteLength].
    destruct (55296 + x / 2 ^ 10 <? 128) eqn:E1; [lia|].
    destruct (55296 + x / 2 ^ 10 <? 2048) eqn:E2; [lia|].
    assert (is_high (55296 + x / 2 ^ 10) = true) as -> by (unfold is_high; lia).
    assert (is_low (56320 + x mod 1024) = true) as -> by (unfold is_low; lia).
    lia.
Qed.

Lemma emit_ok (d d' : Utf8.Decoder) (cp : Z) (out : jsstring) :
  Utf8.emit d cp = (d', out) ->
  decoder_ok d' /\ pending d' = 0 /\ (out = [] \/ out = of_code_point cp).
Proof.
  unfold Utf8.emit. intros H.
  assert (Hd : d' = Utf8.mkDecoder 0 0 0 128 191 true (Utf8.do_not_flush d) /\
               (out = [] \/ out = of_code_point cp)).
  { destruct (Utf8.bom_seen d); [|destruct (cp =? 65279)];
      injection H as <- <-; auto. }
  destruct Hd as [-> Hout].
  repeat split; try exact Hout; unfold decoder_ok; simpl; lia.
Qed.

(** One byte: the decoder stays in a state it can be in, and gives out no
    more bytes of text than it has taken in. *)
Lemma step_ok (d d' : Utf8.Decoder) (b : Z) (out : jsstring) :
  decoder_ok d -> Utf8.step d b = Some (d', out) ->
  decoder_ok d' /\ byteLength out + pending d' <= pending d + 1.
Proof.
  intros (Hcp & Hlo & Hup & Hstate). unfold Utf8.step.
  destruct d as [cp seen needed lo up bom dnf]. simpl in *.
  destruct (needed =? 0) eqn:Hneeded.
  - assert (Hp : pending (Utf8.mkDecoder cp seen needed lo up bom dnf) = 0)
      by (unfold pending; simpl; rewrite Hneeded; reflexivity).
    rewrite Hp. clear Hp Hstate.
    destruct (b <=? 127) eqn:H1.
    { intros H. injection H as H. apply emit_ok in H as (Hok & Hpend & [-> | ->]).
      - split; [exact Hok|]. rewrite Hpend. simpl. lia.
      - split; [exact Hok|]. rewrite Hpend.
        rewrite (proj1 (byteLength_of_code_point b)) by lia. lia. }
    destruct ((194 <=? b) && (b <=? 223)) eqn:H2.
    { intros H. injection H as <- <-. rewrite land_31.
      assert (b mod 32 = b - 192) as -> by (Z.div_mod_to_equations; lia).
      unfold decoder_ok, pending. simpl. lia. }
    destruct ((224 <=? b) && (b <=? 239)) eqn:H3.
    { intros H. injection H as <- <-. rewrite land_15.
      assert (b mod 16 = b - 224) as -> by (Z.div_mod_to_equations; lia).
      unfold decoder_ok, pending. simpl.
      destruct (b =? 224) eqn:E1; destruct (b =? 237) eqn:E2; lia. }
    destruct ((240 <=? b) && (b <=? 244)) eqn:H4; [|discriminate].
    intros H. injection H as <- <-. rewrite land_7.
    assert (b mod 8 = b - 240) as -> by (Z.div_mod_to_equations; lia).
    unfold decoder_ok, pending. simpl.
    destruct (b =? 240) eqn:E1; destruct (b =? 244) eqn:E2; lia.
  - destruct ((b <? lo) || (up <? b)) eqn:Hrange; [discriminate|].
    assert (Hb : 128 <= b <= 191) by lia.
    rewrite (continuation cp b Hb).
    assert (Hp : pending (Utf8.mkDecoder cp seen needed lo up bom dnf) = seen + 1)
      by (unfold pending; simpl; rewrite Hneeded; reflexivity).
    rewrite Hp. clear Hp.
    destruct (seen + 1 =? needed) eqn:Hlast.
    + intros H. injection H as H. apply emit_ok in H as (Hok & Hpend & Hout).
      split; [exact Hok|]. rewrite Hpend.
      destruct Hout as [-> | ->]; [simpl; lia|].
      pose proof (byteLength_of_code_point (cp * 64 + (b - 128))) as (_ & B2 & B3 & B4).
      destruct Hstate as [? | [? | [[? [? | ?]] | [? [? | [? | ?]]]]]]; lia.
    + intros H. injection H as <- <-.
      unfold decoder_ok, pending. simpl.
      assert (Hn : (needed =? 0) = false) by exact Hneeded. rewrite Hn.
      lia.
Qed.

Lemma run_ok (bs : Buffer) (d d' : Utf8.Decoder) (out : jsstring) :
  decoder_ok d -> Utf8.run d bs = Some (d', out) ->
  decoder_ok d' /\ byteLength out + pending d' <= pending d + blen bs.
Proof.
  revert d d' out. induction bs as [|b rest IH]; intros d d' out Hok; simpl.
  - intros H. injection H as <- <-. split; [exact Hok|]. simpl. unfold blen. simpl. lia.
  - destruct (Utf8.step d b) as [[d1 out1]|] eqn:Hstep; [|discriminate].
    destruct (Utf8.run d1 rest) as [[d2 out2]|] eqn:Hrun; [|discriminate].
    intros H. injection H as <- <-.
    destruct (step_ok _ _ _ _ Hok Hstep) as [Hok1 Hlen1].
    destruct (IH _ _ _ Hok1 Hrun) as [Hok2 Hlen2].
    split; [exact Hok2|].
    pose proof (byteLength_app_le out1 out2).
    unfold blen in *. simpl length. lia.
Qed.

Lemma pending_nonneg (d : Utf8.Decoder) : decoder_ok d -> 0 <= pending d.
Proof.
  intros (_ & _ & _ & Hstate). unfold pending.
  destruct (Utf8.bytes_needed d =? 0); lia.
Qed.

Lemma fresh_ok : decoder_ok Utf8.fresh /\ pending Utf8.fresh = 0.
Proof. unfold decoder_ok, pending. simpl. lia. Qed.

(** One [decode] call gives out no more bytes of text than went in. *)
Lemma decode_ok (d d' : Utf8.Decoder) (bs : Buffer) (stream : bool) (out : jsstring) :
  decoder_ok d -> Utf8.decode d bs stream = Some (d', out) ->
  decoder_ok d' /\ byteLength out + pending d' <= pending d + blen bs.
Proof.
  intros Hok. unfold Utf8.decode.
  set (d0 := if Utf8.do_not_flush d then d else Utf8.fresh).
  assert (H0 : decoder_ok d0 /\ pending d0 <= pending d).
  { subst d0. destruct (Utf8.do_not_flush d).
    - split; [exact Hok | lia].
    - destruct fresh_ok as [? ->]. split; [assumption | apply pending_nonneg; exact Hok]. }
  destruct H0 as [Hok0 Hp0].
  destruct (Utf8.run d0 bs) as [[d1 out1]|] eqn:Hrun; [|discriminate].
  destruct (run_ok _ _ _ _ Hok0 Hrun) as [Hok1 Hlen1].
  assert (Hsame : forall flag,
    decoder_ok (Utf8.mkDecoder (Utf8.code_point d1) (Utf8.bytes_seen d1) (Utf8.bytes_needed d1)
                  (Utf8.lower_boundary d1) (Utf8.upper_boundary d1) (Utf8.bom_seen d1) flag) /\
    pending (Utf8.mkDecoder (Utf8.code_point d1) (Utf8.bytes_seen d1) (Utf8.bytes_needed d1)
               (Utf8.lower_boundary d1) (Utf8.upper_boundary d1) (Utf8.bom_seen d1) flag)
      = pending d1).
  { intros flag. split; [exact Hok1 | reflexivity]. }
  destruct stream.
  - intros H. injection H as <- <-. destruct (Hsame true) as [? ->]. split; [assumption | lia].
  - destruct (Utf8.bytes_needed d1 =? 0); [|discriminate].
    intros H. injection H as <- <-. destruct (Hsame false) as [? ->]. split; [assumption | lia].
Qed.

End Utf8Facts.

Module RunFacts.
Import Buf JsStr Engine Run Inv BufFacts JsStrFacts Utf8Facts.

(** *** The loop of [getWritableBuffer] *)

Lemma release_loop_spec (w : Z) (rest before : list Buffer) :
  total_len before <= w <= total_len before + total_len rest ->
  match release_loop w before rest (total_len before) with
  | Some (remaining, out) =>
    out = take (Z.to_nat w) (concat (before ++ rest)) /\
    concat remaining = drop (Z.to_nat (w - total_len before)) (concat rest)
  | None => w = total_len before /\ concat rest = []
  end.
Proof.
  revert before. induction rest as [|buffer rest IH]; intros before Hw; simpl.
  - rewrite total_len_nil in Hw. split; [lia | reflexivity].
  - rewrite total_len_cons in Hw. pose proof (blen_nonneg buffer) as Hb.
    pose proof (total_len_nonneg before) as Hbefore.
    destruct (total_len before + blen buffer =? w) eqn:Heq.
    + assert (Hw' : w = total_len (before ++ [buffer])) by (rewrite total_len_snoc; lia).
      split.
      * replace (before ++ buffer :: rest) with ((before ++ [buffer]) ++ rest)
          by (rewrite <- app_assoc; reflexivity).
        generalize dependent (before ++ [buffer]). intros q Hq. subst w.
        rewrite concat_total_all, concat_app. symmetry. apply take_app_length'.
        unfold total_len, blen. lia.
      * replace (Z.to_nat (w - total_len before)) with (length buffer)
          by (unfold blen in *; lia).
        symmetry. apply drop_app_length.
    + destruct (total_len before + blen buffer >? w) eqn:Hgt.
      * set (k := w - total_len before).
        assert (Hk : 0 <= k <= blen buffer) by (subst k; lia).
        rewrite slice_prefix, slice_suffix by exact Hk.
        assert (Hlen : length (take (Z.to_nat k) buffer) = Z.to_nat k)
          by (rewrite length_take; unfold blen in *; lia).
        split.
        -- rewrite concat_total_exact.
           2:{ rewrite total_len_snoc. unfold blen. rewrite Hlen. lia. }
           rewrite !concat_app. simpl. rewrite !app_nil_r.
           replace (Z.to_nat w) with (length (concat before) + Z.to_nat k)%nat
             by (subst k; unfold total_len, blen in *; lia).
           rewrite !take_app_add'; try reflexivity.
           rewrite take_take, (take_app_le buffer) by (unfold blen in *; lia).
           f_equal. f_equal. lia.
        -- simpl. symmetry. apply drop_app_le. unfold blen in *. lia.
      * specialize (IH (before ++ [buffer])).
        rewrite total_len_snoc in IH. specialize (IH ltac:(lia)).
        destruct (release_loop w (before ++ [buffer]) rest (total_len before + blen buffer))
          as [[remaining out]|].
        -- destruct IH as [Hout Hrem]. split.
           ++ rewrite Hout. rewrite <- app_assoc. reflexivity.
           ++ rewrite Hrem.
              replace (Z.to_nat (w - total_len before))
                with (length buffer + Z.to_nat (w - (total_len before + blen buffer)))%nat
                by (unfold blen in *; lia).
              symmetry. apply drop_app_add.
        -- lia.
Qed.

(** *** Tokens *)

Ltac case_ifs :=
  repeat match goal with
         | |- context [if ?c then _ else _] => destruct c
         end.

Lemma emit_token_frame (st : Engine) (tok : Token) :
  stringBuffer (emit_token st tok) = stringBuffer st /\
  utf8Decoder (emit_token st tok) = utf8Decoder st /\
  writtenOffset (emit_token st tok) = writtenOffset st /\
  emitted (emit_token st tok) = emitted st /\
  writableOffset (emit_token st tok) =
    (if anyTokenListeners st
     then byteLength (substring0 (stringBuffer st) (endOffset tok))
     else writableOffset st).
Proof.
  unfold emit_token, onTag, onAnyToken.
  destruct (anyTokenListeners st); case_ifs; simpl; repeat split.
Qed.

Lemma emit_token_ended (st : Engine) (tok : Token) :
  ended st = true -> ended (emit_token st tok) = true.
Proof.
  intros H. unfold emit_token, onTag, onAnyToken. case_ifs; simpl; auto.
Qed.

(** A token that leaves the stream open only moved [writableOffset]. *)
Lemma emit_token_no_splice (st : Engine) (tok : Token) :
  ended (emit_token st tok) = false ->
  buffers (emit_token st tok) = buffers st /\ len (emit_token st tok) = len st /\
  stopped (emit_token st tok) = stopped st /\ ended st = false.
Proof.
  unfold emit_token, onTag, onAnyToken. case_ifs; simpl; intros H;
    try discriminate; repeat split; auto.
Qed.

Lemma emit_tokens_frame (toks : list Token) (st : Engine) :
  stringBuffer (emit_tokens st toks) = stringBuffer st /\
  utf8Decoder (emit_tokens st toks) = utf8Decoder st /\
  writtenOffset (emit_tokens st toks) = writtenOffset st /\
  emitted (emit_tokens st toks) = emitted st.
Proof.
  revert st. induction toks as [|tok rest IH]; intros st; simpl; [repeat split|].
  destruct (stopped st); [repeat split|].
  destruct (IH (emit_token st tok)) as (-> & -> & -> & ->).
  destruct (emit_token_frame st tok) as (-> & -> & -> & -> & _). repeat split.
Qed.

Lemma emit_tokens_ended (toks : list Token) (st : Engine) :
  ended st = true -> ended (emit_tokens st toks) = true.
Proof.
  revert st. induction toks as [|tok rest IH]; intros st H; simpl; [exact H|].
  destruct (stopped st); [exact H|]. apply IH, emit_token_ended, H.
Qed.

Lemma emit_tokens_no_splice (toks : list Token) (st : Engine) :
  ended (emit_tokens st toks) = false ->
  buffers (emit_tokens st toks) = buffers st /\ len (emit_tokens st toks) = len st /\
  ended st = false.
Proof.
  revert st. induction toks as [|tok rest IH]; intros st; simpl; [auto|].
  destruct (stopped st); [auto|]. intros H.
  destruct (IH _ H) as (-> & -> & Hended).
  destruct (emit_token_no_splice _ _ Hended) as (-> & -> & _ & ?). auto.
Qed.

Lemma offsets_mono (st : Engine) (total last last' : Z) :
  engine_offsets_ok st total last -> last <= last' <= text_length st ->
  engine_offsets_ok st total last'.
Proof.
  intros (Hd & Hlen & Hlast & Hw0 & Hwritten & Hwritable & Hidle) Hl.
  pose proof (byteLength_substring0_mono (stringBuffer st) last last' ltac:(lia)).
  unfold engine_offsets_ok. split; [exact Hd|]. repeat split; try assumption; lia.
Qed.

Lemma emit_token_offsets (st : Engine) (total last : Z) (tok : Token) :
  engine_offsets_ok st total last ->
  last <= endOffset tok <= text_length st ->
  engine_offsets_ok (emit_token st tok) total (endOffset tok).
Proof.
  intros Hok Hl. apply (offsets_mono _ _ _ (endOffset tok)) in Hok; [|exact Hl].
  destruct Hok as (Hd & Hlen & Hlast & Hw0 & Hwritten & Hwritable & Hidle).
  destruct (emit_token_frame st tok) as (Hsb & Hdec & Hwr & _ & Hwa).
  unfold engine_offsets_ok, text_length. rewrite Hsb, Hdec, Hwr, Hwa.
  unfold text_length in *.
  split; [exact Hd|].
  destruct (anyTokenListeners st); repeat split; try assumption; lia.
Qed.

Lemma tokens_in_order_bounds (toks : list Token) (last limit : Z) :
  tokens_in_order last toks limit -> last <= limit ->
  last <= last_end last toks <= limit.
Proof.
  revert last. induction toks as [|tok rest IH]; intros last H Hl; simpl in *; [lia|].
  destruct H as (H1 & H2 & H3). specialize (IH _ H3 H2).
  change (last_end last (tok :: rest)) with (last_end (endOffset tok) rest). lia.
Qed.

Lemma emit_tokens_offsets (toks : list Token) (st : Engine) (total last : Z) :
  engine_offsets_ok st total last ->
  tokens_in_order last toks (text_length st) ->
  engine_offsets_ok (emit_tokens st toks) total (last_end last toks).
Proof.
  revert st last. induction toks as [|tok rest IH]; intros st last Hok Hin; [exact Hok|].
  assert (Hb : last <= last_end last (tok :: rest) <= text_length st).
  { apply tokens_in_order_bounds; [exact Hin|]. destruct Hok as (_ & _ & ? & _). lia. }
  simpl. destruct (stopped st).
  - apply (offsets_mono _ _ last); assumption.
  - destruct Hin as (H1 & H2 & H3).
    apply (IH (emit_token st tok) (endOffset tok)).
    + apply (emit_token_offsets _ _ last); [exact Hok | lia].
    + unfold text_length in *.
      destruct (emit_token_frame st tok) as (-> & _). exact H3.
Qed.

(** *** One [internalWrite] that emits no error *)

Lemma app_not_self {A} (l k : list A) : l ++ k = l -> k = [].
Proof.
  intros H. apply (f_equal length) in H. rewrite length_app in H.
  destruct k; [reflexivity | simpl in H; lia].
Qed.

Lemma internalWrite_emitted (st : Engine) (data : Buffer) (encoding : EncodingArg)
    (isLast : bool) (toks : list Token) :
  exists l, emitted (internalWrite st data encoding isLast toks).1 = emitted st ++ l.
Proof.
  unfold internalWrite. destruct (encoding_rejected st encoding); [eexists; reflexivity|].
  unfold push. destruct (blen data =? 0); simpl; [exists []; rewrite app_nil_r; reflexivity|].
  destruct (Utf8.decode _ _ _) as [[d s]|]; unfold super_write; simpl.
  - destruct (ended st); simpl; [eexists; reflexivity|].
    destruct (emit_tokens_frame toks
      (set_parserInput (parserInput st ++ [Str s])
        (set_stringBuffer (stringBuffer st ++ s)
          (set_utf8Decoder d
            (set_buffers (buffers st ++ [data]) (set_len (len st + blen data) st))))))
      as (_ & _ & _ & ->).
    exists []. rewrite app_nil_r. reflexivity.
  - eexists; reflexivity.
Qed.

Lemma internalWrite_no_error (st : Engine) (data : Buffer) (encoding : EncodingArg)
    (isLast : bool) (toks : list Token) :
  emitted (internalWrite st data encoding isLast toks).1 = emitted st ->
  encoding_rejected st encoding = None /\
  (data = [] /\ (internalWrite st data encoding isLast toks).1 = st \/
   data <> [] /\ ended st = false /\
   exists d s, Utf8.decode (utf8Decoder st) data (negb isLast) = Some (d, s) /\
     (internalWrite st data encoding isLast toks).1 = emit_tokens (after_decode st data d s) toks).
Proof.
  unfold internalWrite. destruct (encoding_rejected st encoding).
  { simpl. intros H. apply app_not_self in H. discriminate. }
  intros H. split; [reflexivity|]. revert H.
  unfold push. destruct (blen data =? 0) eqn:Hlen; simpl.
  { intros _. left. split; [|reflexivity].
    destruct data; [reflexivity | unfold blen in Hlen; simpl in Hlen; lia]. }
  assert (Hne : data <> []) by (intros ->; discriminate).
  destruct (Utf8.decode _ _ _) as [[d s]|]; unfold super_write; simpl.
  - destruct (ended st) eqn:Hended; simpl.
    + intros H. apply app_not_self in H. discriminate.
    + intros _. right. split; [exact Hne|]. split; [reflexivity|].
      exists d, s. split; reflexivity.
  - intros H. apply app_not_self in H. discriminate.
Qed.

(** A call that emits no error returns: the only exception is the one that
    follows the decode error. *)
Lemma internalWrite_returns (st : Engine) (data : Buffer) (encoding : EncodingArg)
    (isLast : bool) (toks : list Token) :
  emitted (internalWrite st data encoding isLast toks).1 = emitted st ->
  (internalWrite st data encoding isLast toks).2 = Returns.
Proof.
  unfold internalWrite. destruct (encoding_rejected st encoding); [reflexivity|].
  unfold push. destruct (blen data =? 0); simpl; [reflexivity|].
  destruct (Utf8.decode _ _ _) as [[d s]|]; unfold super_write; simpl.
  - destruct (ended st); reflexivity.
  - intros H. apply app_not_self in H. discriminate.
Qed.


(** *** The invariants along one call *)

Lemma accepted_bytes_snoc (acc : list Buffer) (data : Buffer) :
  total_len (acc ++ [data]) = total_len acc + blen data.
Proof. apply total_len_snoc. Qed.

Lemma after_decode_offsets (st : Engine) (total last : Z) (data : Buffer)
    (d : Utf8.Decoder) (s : jsstring) (stream : bool) :
  engine_offsets_ok st total last ->
  Utf8.decode (utf8Decoder st) data stream = Some (d, s) ->
  engine_offsets_ok (after_decode st data d s) (total + blen data) last.
Proof.
  intros (Hd & Hlen & Hlast & Hw0 & Hwritten & Hwritable & Hidle) Hdec.
  destruct (decode_ok _ _ _ _ _ Hd Hdec) as [Hd' Hlen'].
  pose proof (byteLength_app_le (stringBuffer st) s).
  unfold engine_offsets_ok, after_decode, text_length in *. simpl.
  rewrite length_app, substring0_app by lia.
  split; [exact Hd'|]. repeat split; try assumption; lia.
Qed.

Lemma accept_offsets (tr : Trace) (last : Z) (data : Buffer) (encoding : EncodingArg)
    (isLast : bool) (toks : list Token) :
  offsets_ok tr last ->
  emitted (engine (accept tr data encoding isLast toks)) = emitted (engine tr) ->
  tokens_in_order last toks (text_length (engine (accept tr data encoding isLast toks))) ->
  offsets_ok (accept tr data encoding isLast toks) (last_end last toks).
Proof.
  unfold offsets_ok, accept, accepted_bytes. simpl. intros Hok Hem Hin.
  destruct (internalWrite_no_error _ _ _ _ _ Hem) as [-> Hcases]. simpl.
  rewrite accepted_bytes_snoc.
  destruct Hcases as [[-> Heq] | (Hne & Hended & d & s & Hdec & Heq)];
    rewrite Heq in *.
  - change (blen []) with 0. rewrite Z.add_0_r.
    apply (offsets_mono _ _ last); [exact Hok|].
    apply tokens_in_order_bounds; [exact Hin|].
    destruct Hok as (_ & _ & ? & _). lia.
  - apply emit_tokens_offsets.
    + eapply after_decode_offsets; eassumption.
    + unfold text_length in *.
      destruct (emit_tokens_frame toks (after_decode (engine tr) data d s)) as (Hsb & _).
      rewrite Hsb in Hin. exact Hin.
Qed.

Lemma accept_queue (tr : Trace) (data : Buffer) (encoding : EncodingArg)
    (isLast : bool) (toks : list Token) :
  queue_ok tr ->
  emitted (engine (accept tr data encoding isLast toks)) = emitted (engine tr) ->
  ended (engine (accept tr data encoding isLast toks)) = false ->
  queue_ok (accept tr data encoding isLast toks).
Proof.
  unfold queue_ok, accept. simpl. intros (Hlen & Hcat & Hwritten) Hem Hended.
  destruct (internalWrite_no_error _ _ _ _ _ Hem) as [-> Hcases]. simpl.
  destruct Hcases as [[-> Heq] | (Hne & _ & d & s & Hdec & Heq)];
    rewrite Heq in *.
  - rewrite concat_app. simpl. rewrite !app_nil_r. auto.
  - destruct (emit_tokens_no_splice _ _ Hended) as (-> & -> & _).
    destruct (emit_tokens_frame toks (after_decode (engine tr) data d s))
      as (_ & _ & -> & _).
    unfold after_decode. simpl.
    rewrite total_len_snoc, !concat_app, app_assoc, Hcat. auto with lia.
Qed.

Lemma getWritableBuffer_frame (st : Engine) :
  let st' := (getWritableBuffer st).1 in
  emitted st' = emitted st /\ ended st' = ended st /\
  stringBuffer st' = stringBuffer st /\ utf8Decoder st' = utf8Decoder st.
Proof.
  unfold getWritableBuffer. destruct (negb (writableOffset st =? 0)); simpl; [|auto].
  destruct (release_loop _ _ _ _) as [[remaining out]|]; simpl; auto.
Qed.

Lemma getWritableBuffer_offsets (tr : Trace) (last : Z) :
  offsets_ok tr last -> offsets_ok (step tr GetWritableBuffer) last.
Proof.
  unfold offsets_ok, step, accepted_bytes.
  intros (Hd & Hlen & Hlast & Hw0 & Hwritten & Hwritable & Hidle).
  pose proof (byteLength_nonneg (substring0 (stringBuffer (engine tr)) last)).
  unfold getWritableBuffer.
  destruct (writableOffset (engine tr) =? 0) eqn:Hz; simpl.
  - unfold engine_offsets_ok. auto 10.
  - destruct (release_loop _ _ _ _) as [[remaining out]|]; simpl;
      unfold engine_offsets_ok, text_length in *; simpl;
      (split; [exact Hd|]); repeat split; try assumption; lia.
Qed.

Lemma getWritableBuffer_queue (tr : Trace) (last : Z) :
  offsets_ok tr last -> queue_ok tr -> queue_ok (step tr GetWritableBuffer).
Proof.
  unfold offsets_ok, queue_ok, step, accepted_bytes.
  intros (Hd & Hlen & Hlast & Hw0 & Hwritten & Hwritable & Hidle) (Hq & Hcat & Hrel).
  unfold getWritableBuffer.
  destruct (writableOffset (engine tr) =? 0) eqn:Hz; simpl.
  - rewrite concat_app. simpl. rewrite !app_nil_r, total_len_snoc.
    change (blen []) with 0. auto with lia.
  - set (w := writableOffset (engine tr) - writtenOffset (engine tr)).
    pose proof (byteLength_substring0_le (stringBuffer (engine tr)) last).
    pose proof (pending_nonneg _ Hd).
    assert (Htotal : total_len (accepted tr) =
                     total_len (released tr) + total_len (buffers (engine tr))).
    { unfold total_len at 1. rewrite <- Hcat. rewrite blen_app. reflexivity. }
    assert (Hw : 0 <= w <= total_len (buffers (engine tr))) by (subst w; lia).
    pose proof (release_loop_spec w (buffers (engine tr)) []) as Hloop.
    rewrite total_len_nil in Hloop. specialize (Hloop ltac:(lia)).
    simpl in Hloop. rewrite Z.sub_0_r in Hloop.
    destruct (release_loop w [] (buffers (engine tr)) 0) as [[remaining out]|]; simpl.
    + destruct Hloop as [Hout Hrem].
      assert (Hn : (Z.to_nat w <= length (concat (buffers (engine tr))))%nat)
        by (unfold total_len, blen in Hw; lia).
      assert (Hblen : blen out = w).
      { rewrite Hout. unfold blen. rewrite length_take. lia. }
      repeat split.
      * unfold total_len at 1. rewrite Hrem. unfold blen. rewrite length_drop.
        rewrite Hq. unfold total_len, blen. lia.
      * rewrite concat_app. simpl. rewrite app_nil_r, <- app_assoc, Hout, Hrem.
        rewrite take_drop. exact Hcat.
      * rewrite total_len_snoc. lia.
    + destruct Hloop as [Hw0' Hnil]. repeat split.
      * lia.
      * rewrite concat_app. simpl. rewrite !app_nil_r. exact Hcat.
      * rewrite total_len_snoc. change (blen []) with 0. lia.
Qed.

(** *** Errors and the end of the stream only accumulate *)

Lemma internalWrite_ended (st : Engine) (data : Buffer) (encoding : EncodingArg)
    (isLast : bool) (toks : list Token) :
  ended st = true -> ended (internalWrite st data encoding isLast toks).1 = true.
Proof.
  intros H. unfold internalWrite. destruct (encoding_rejected st encoding); [exact H|].
  unfold push. destruct (blen data =? 0); simpl; [exact H|].
  destruct (Utf8.decode _ _ _) as [[d s]|]; unfold super_write; simpl;
    rewrite ?H; simpl; assumption || reflexivity.
Qed.

Lemma step_emitted (tr : Trace) (op : Op) :
  exists l, emitted (engine (step tr op)) = emitted (engine tr) ++ l.
Proof.
  destruct op as [data enc toks | data enc toks | |]; simpl.
  - apply internalWrite_emitted.
  - apply internalWrite_emitted.
  - destruct (getWritableBuffer_frame (engine tr)) as (He & _).
    destruct (getWritableBuffer (engine tr)) as [st out]. simpl in *.
    exists []. rewrite app_nil_r. exact He.
  - exists []. rewrite app_nil_r. reflexivity.
Qed.

Lemma step_ended (tr : Trace) (op : Op) :
  ended (engine tr) = true -> ended (engine (step tr op)) = true.
Proof.
  intros H. destruct op as [data enc toks | data enc toks | |]; simpl.
  - apply internalWrite_ended, H.
  - apply internalWrite_ended, H.
  - destruct (getWritableBuffer_frame (engine tr)) as (_ & He & _).
    destruct (getWritableBuffer (engine tr)) as [st out]. simpl in *. congruence.
  - exact H.
Qed.

Lemma run_emitted (ops : list Op) (tr : Trace) :
  exists l, emitted (engine (run tr ops)) = emitted (engine tr) ++ l.
Proof.
  revert tr. induction ops as [|op ops IH]; intros tr; simpl.
  - exists []. rewrite app_nil_r. reflexivity.
  - destruct (IH (step tr op)) as [l2 ->]. destruct (step_emitted tr op) as [l1 ->].
    exists (l1 ++ l2). rewrite app_assoc. reflexivity.
Qed.

Lemma run_ended (ops : list Op) (tr : Trace) :
  ended (engine tr) = true -> ended (engine (run tr ops)) = true.
Proof.
  revert tr. induction ops as [|op ops IH]; intros tr H; simpl; [exact H|].
  apply IH, step_ended, H.
Qed.

Lemma run_no_error_split (op : Op) (ops : list Op) (tr : Trace) :
  emitted (engine (run tr (op :: ops))) = emitted (engine tr) ->
  emitted (engine (step tr op)) = emitted (engine tr) /\
  emitted (engine (run (step tr op) ops)) = emitted (engine (step tr op)).
Proof.
  simpl. destruct (run_emitted ops (step tr op)) as [l2 H2].
  destruct (step_emitted tr op) as [l1 H1]. rewrite H2, H1, <- app_assoc.
  intros H. apply app_not_self in H. apply app_eq_nil in H as [-> ->].
  rewrite !app_nil_r. auto.
Qed.

(** *** The invariants along a run *)

Lemma step_offsets (tr : Trace) (last : Z) (op : Op) :
  offsets_ok tr last ->
  emitted (engine (step tr op)) = emitted (engine tr) ->
  match op with
  | Write _ _ toks | WriteLast _ _ toks =>
    tokens_in_order last toks (text_length (engine (step tr op))) ->
    offsets_ok (step tr op) (last_end last toks)
  | _ => offsets_ok (step tr op) last
  end.
Proof.
  intros Hok Hem. destruct op as [data enc toks | data enc toks | |].
  - intros Hin. apply accept_offsets; assumption.
  - intros Hin. apply accept_offsets; assumption.
  - apply getWritableBuffer_offsets, Hok.
  - exact Hok.
Qed.

Lemma step_queue (tr : Trace) (last : Z) (op : Op) :
  offsets_ok tr last -> queue_ok tr ->
  emitted (engine (step tr op)) = emitted (engine tr) ->
  ended (engine (step tr op)) = false ->
  queue_ok (step tr op).
Proof.
  intros Hok Hq Hem Hended. destruct op as [data enc toks | data enc toks | |].
  - apply accept_queue; assumption.
  - apply accept_queue; assumption.
  - eapply getWritableBuffer_queue; eassumption.
  - exact Hq.
Qed.

Lemma run_invariants (ops : list Op) (tr : Trace) (last : Z) :
  offsets_ok tr last ->
  tokenizer_contract tr last ops ->
  emitted (engine (run tr ops)) = emitted (engine tr) ->
  (exists last', offsets_ok (run tr ops) last') /\
  (queue_ok tr -> ended (engine (run tr ops)) = false -> queue_ok (run tr ops)).
Proof.
  revert tr last. induction ops as [|op ops IH]; intros tr last Hok Hcontract Hem.
  - split; [exists last; exact Hok | auto].
  - destruct (run_no_error_split _ _ _ Hem) as [Hem1 Hem2].
    pose proof (step_offsets tr last op Hok Hem1) as Hstep.
    assert (Hnext : exists last1, offsets_ok (step tr op) last1 /\
                                  tokenizer_contract (step tr op) last1 ops).
    { destruct op as [data enc toks | data enc toks | |]; simpl in Hcontract.
      - destruct Hcontract as [Hin Hrest]. exists (last_end last toks). auto.
      - destruct Hcontract as [Hin Hrest]. exists (last_end last toks). auto.
      - exists last. auto.
      - exists last. auto. }
    destruct Hnext as (last1 & Hok1 & Hcontract1).
    destruct (IH _ _ Hok1 Hcontract1 Hem2) as [Hoff Hqueue].
    split; [exact Hoff|].
    intros Hq Hended. apply Hqueue; [|exact Hended].
    apply (step_queue tr last op Hok Hq Hem1).
    destruct (ended (engine (step tr op))) eqn:E; [|reflexivity].
    apply (run_ended ops) in E. simpl in Hended. congruence.
Qed.

Lemma create_invariants (target : string) (chunk : Buffer) (chunkLen : Z) (toEnd html : bool) :
  offsets_ok (start (set_shouldParseHtml html (create target chunk chunkLen toEnd))) 0 /\
  queue_ok (start (set_shouldParseHtml html (create target chunk chunkLen toEnd))).
Proof.
  split.
  - unfold offsets_ok, engine_offsets_ok, accepted_bytes, text_length. simpl.
    destruct fresh_ok as [Hok Hp]. rewrite Hp.
    split; [exact Hok|]. unfold total_len, blen. simpl. lia.
  - unfold queue_ok. simpl. auto.
Qed.

(** *** What a run without error and without splice leaves alone *)

Lemma emit_token_html (st : Engine) (tok : Token) :
  ended (emit_token st tok) = false ->
  shouldParseHtml (emit_token st tok) = shouldParseHtml st.
Proof.
  unfold emit_token, onTag, onAnyToken. case_ifs; simpl; intros H;
    try discriminate; reflexivity.
Qed.

Lemma emit_tokens_html (toks : list Token) (st : Engine) :
  ended (emit_tokens st toks) = false ->
  shouldParseHtml (emit_tokens st toks) = shouldParseHtml st.
Proof.
  revert st. induction toks as [|tok rest IH]; intros st; simpl; [auto|].
  destruct (stopped st); [auto|]. intros H. rewrite (IH _ H).
  apply emit_token_html.
  destruct (ended (emit_token st tok)) eqn:E; [|reflexivity].
  apply (emit_tokens_ended rest) in E. congruence.
Qed.

Lemma accept_no_error (tr : Trace) (data : Buffer) (encoding : EncodingArg)
    (isLast : bool) (toks : list Token) :
  emitted (engine (accept tr data encoding isLast toks)) = emitted (engine tr) ->
  ended (engine (accept tr data encoding isLast toks)) = false ->
  accepted (accept tr data encoding isLast toks) = accepted tr ++ [data] /\
  released (accept tr data encoding isLast toks) = released tr /\
  shouldParseHtml (engine (accept tr data encoding isLast toks)) = shouldParseHtml (engine tr).
Proof.
  unfold accept. simpl. intros Hem Hended.
  destruct (internalWrite_no_error _ _ _ _ _ Hem) as [-> Hcases].
  repeat split.
  destruct Hcases as [[-> Heq] | (Hne & _ & d & s & Hdec & Heq)]; rewrite Heq in *.
  - reflexivity.
  - rewrite (emit_tokens_html _ _ Hended). reflexivity.
Qed.

(** C5: on a run of an engine, whether the headers classified the response
    as HTML or not, in which no error was emitted and no splice occurred,
    with a tokenizer that keeps its contract, [flush] returns the accepted
    bytes that [getWritableBuffer] has not released, in their order; a queue
    of one chunk is returned as that chunk. *)
Theorem flush_returns_unreleased_input (target : string) (chunk : Buffer) (chunkLen : Z)
    (toEnd html : bool) (ops : list Op) :
  let st0 := set_shouldParseHtml html (create target chunk chunkLen toEnd) in
  let tr := run (start st0) ops in
  tokenizer_contract (start st0) 0 ops ->
  emitted (engine tr) = [] ->
  ended (engine tr) = false ->
  (flush (engine tr)).2 = drop (length (concat (released tr))) (concat (accepted tr)) /\
  concat (released tr) ++ (flush (engine tr)).2 = concat (accepted tr) /\
  (forall b, buffers (engine tr) = [b] -> (flush (engine tr)).2 = b).
Proof.
  intros st0 tr Hcontract Hem Hended.
  pose proof (create_invariants target chunk chunkLen toEnd html) as [Hoff0 Hq0].
  fold st0 in Hoff0, Hq0.
  assert (Hem0 : emitted (engine tr) = emitted (engine (start st0))) by exact Hem.
  destruct (run_invariants ops _ 0 Hoff0 Hcontract Hem0) as [_ Hqueue].
  destruct (Hqueue Hq0 Hended) as (Hlen & Hcat & _). fold tr in Hlen, Hcat.
  assert (Hflush : (flush (engine tr)).2 = concat (buffers (engine tr))).
  { unfold flush. rewrite Hlen.
    destruct (buffers (engine tr)) as [|b [|b' q]]; simpl.
    - reflexivity.
    - rewrite app_nil_r. reflexivity.
    - apply (concat_total_all (b :: b' :: q)). }
  repeat split.
  - rewrite Hflush, <- Hcat. rewrite drop_app_length. reflexivity.
  - rewrite Hflush. exact Hcat.
  - intros b Hb. unfold flush. rewrite Hb. reflexivity.
Qed.

Lemma flush_returns_unreleased_input_witness :
  let ops := [Write [60; 112; 62; 194] EncUndefined [mkToken StartTag "p" 0 3];
              GetWritableBuffer;
              Write [162] EncUndefined [];
              RemoveAnyTokenListeners;
              WriteLast [60; 47; 112; 62] EncUndefined [mkToken Text "" 3 4; mkToken EndTag "p" 4 8]] in
  let tr := run (start (set_shouldParseHtml true (create "body" [90] 1 false))) ops in
  released tr = [[60; 112; 62]] /\
  (flush (engine tr)).2 = [194; 162; 60; 47; 112; 62].
Proof.
  intros ops tr.
  assert (H : tokenizer_contract
                (start (set_shouldParseHtml true (create "body" [90] 1 false))) 0 ops)
    by (vm_compute; repeat split; discriminate).
  destruct (flush_returns_unreleased_input "body" [90] 1 false true ops H eq_refl eq_refl)
    as (Hflush & _).
  split; [reflexivity|]. etransitivity; [exact Hflush | reflexivity].
Defined.

(** C6, as the code keeps it: along a run of an engine, whether the headers
    classified the response as HTML or not, without error and with a
    tokenizer that keeps its contract, [writableOffset] is 0 (nothing waits
    to be released) or at least [writtenOffset], and neither offset exceeds
    the bytes accepted so far. *)
Theorem watermarks_along_run (target : string) (chunk : Buffer) (chunkLen : Z)
    (toEnd html : bool) (ops : list Op) :
  let st0 := set_shouldParseHtml html (create target chunk chunkLen toEnd) in
  let tr := run (start st0) ops in
  tokenizer_contract (start st0) 0 ops ->
  emitted (engine tr) = [] ->
  watermark_invariant_or_idle tr.
Proof.
  intros st0 tr Hcontract Hem.
  pose proof (create_invariants target chunk chunkLen toEnd html) as [Hoff0 _].
  fold st0 in Hoff0.
  assert (Hem0 : emitted (engine tr) = emitted (engine (start st0))) by exact Hem.
  destruct (run_invariants ops _ 0 Hoff0 Hcontract Hem0) as [[last Hoff] _].
  fold tr in Hoff.
  destruct Hoff as (Hd & Hlen & Hlast & Hw0 & Hwritten & Hwritable & Hidle).
  pose proof (byteLength_substring0_le (stringBuffer (engine tr)) last).
  pose proof (pending_nonneg _ Hd).
  unfold watermark_invariant_or_idle. repeat split; [exact Hidle | lia | lia].
Qed.

Lemma watermarks_along_run_witness :
  let ops := [Write [60; 112; 62; 194] EncUndefined [mkToken StartTag "p" 0 3];
              GetWritableBuffer;
              Write [162; 60; 98; 111; 100; 121; 62] EncUndefined
                [mkToken Text "" 3 4; mkToken StartTag "body" 4 10];
              GetWritableBuffer] in
  watermark_invariant_or_idle
    (run (start (set_shouldParseHtml true (create "body" [90] 1 false))) ops).
Proof.
  intros ops.
  apply (watermarks_along_run "body" [90] 1 false true ops).
  - vm_compute. repeat split; discriminate.
  - reflexivity.
Defined.

(** C6, as the specification words it, fails on an HTML response once
    [getWritableBuffer] has released bytes: [writtenOffset] is 3 and
    [writableOffset] is back to 0. *)
Lemma watermark_invariant_fails_after_release :
  ~ watermark_invariant
      (run (start (set_shouldParseHtml true (create "body" [90] 1 false)))
         [Write [60; 112; 62] EncUndefined [mkToken StartTag "p" 0 3];
          GetWritableBuffer]).
Proof.
  intros [H _]. vm_compute in H. apply H. reflexivity.
Qed.


End RunFacts.

Module SpliceFacts.
Import Buf JsStr Engine BufFacts.

(** The loop of [onTag] stops at the first chunk at which the running total
    reaches the insertion index and replaces it by its two parts around the
    payload. *)
Lemma splice_loop_first_reaching (chunk : Buffer) (n : Z) (rest before : list Buffer)
    (i : nat) (b : Buffer) :
  Spec.first_reaching (before ++ rest) n (length before + i) ->
  rest !! i = Some b ->
  splice_loop chunk n before rest (total_len before) =
    before ++ take i rest ++
      [slice b 0 (n - total_len (before ++ take i rest)); chunk;
       slice_from b (n - total_len (before ++ take i rest))] ++ drop (S i) rest.
Proof.
  revert before i. induction rest as [|buffer rest IH]; intros before i [Hreach Hmin] Hb.
  - discriminate.
  - destruct i as [|i]; simpl in *.
    + injection Hb as ->. rewrite app_nil_r.
      unfold Spec.running_total in Hreach.
      rewrite Nat.add_0_r in Hreach.
      replace (S (length before)) with (length (before ++ [b])) in Hreach
        by (rewrite length_app; simpl; lia).
      replace (before ++ b :: rest) with ((before ++ [b]) ++ rest) in Hreach
        by (rewrite <- app_assoc; reflexivity).
      rewrite take_app_length, total_len_snoc in Hreach.
      destruct (total_len before + blen b >=? n) eqn:E; [|lia].
      rewrite drop_0. reflexivity.
    + assert (Hlt : total_len before + blen buffer < n).
      { specialize (Hmin (length before) ltac:(lia)).
        unfold Spec.running_total in Hmin.
        replace (S (length before)) with (length (before ++ [buffer])) in Hmin
          by (rewrite length_app; simpl; lia).
        replace (before ++ buffer :: rest) with ((before ++ [buffer]) ++ rest) in Hmin
          by (rewrite <- app_assoc; reflexivity).
        rewrite take_app_length, total_len_snoc in Hmin. exact Hmin. }
      destruct (total_len before + blen buffer >=? n) eqn:E; [lia|].
      rewrite <- total_len_snoc.
      rewrite (IH (before ++ [buffer]) i).
      * rewrite <- !app_assoc. simpl. reflexivity.
      * rewrite <- app_assoc. simpl.
        replace (length (before ++ [buffer]) + i)%nat with (length before + S i)%nat
          by (rewrite length_app; simpl; lia).
        split; assumption.
      * exact Hb.
Qed.

(** When no running total reaches the insertion index, the loop leaves the
    queue as it is. *)
Lemma splice_loop_none (chunk : Buffer) (n : Z) (rest before : list Buffer) :
  (forall j, (j < length (before ++ rest))%nat -> Spec.running_total (before ++ rest) j < n) ->
  splice_loop chunk n before rest (total_len before) = before ++ rest.
Proof.
  revert before. induction rest as [|buffer rest IH]; intros before Hall; simpl.
  - rewrite app_nil_r. reflexivity.
  - assert (Hlt : total_len before + blen buffer < n).
    { specialize (Hall (length before)). rewrite length_app in Hall. simpl in Hall.
      specialize (Hall ltac:(lia)). unfold Spec.running_total in Hall.
      replace (S (length before)) with (length (before ++ [buffer])) in Hall
        by (rewrite length_app; simpl; lia).
      replace (before ++ buffer :: rest) with ((before ++ [buffer]) ++ rest) in Hall
        by (rewrite <- app_assoc; reflexivity).
      rewrite take_app_length, total_len_snoc in Hall. exact Hall. }
    destruct (total_len before + blen buffer >=? n) eqn:E; [lia|].
    rewrite <- total_len_snoc. rewrite IH.
    + rewrite <- app_assoc. reflexivity.
    + rewrite <- app_assoc. simpl. exact Hall.
Qed.

(** What [onTag] does to the queue for a token of the target tag: the
    first chunk [i] at which the running total reaches the insertion index
    is replaced by its prefix, the payload and its suffix. *)
Lemma onTag_splice_queue (st : Engine) (tok : Token) (i : nat) (b : Buffer) :
  tagName tok = targetTagName st ->
  let n := byteLength (substring0 (stringBuffer st) (Spec.boundary (insertToEnd st) tok))
           - writtenOffset st in
  let k := n - total_len (take i (buffers st)) in
  Spec.first_reaching (buffers st) n i ->
  buffers st !! i = Some b ->
  buffers (onTag st tok) =
    take i (buffers st) ++ [slice b 0 k; insertionChunk st; slice_from b k]
      ++ drop (S i) (buffers st) /\
  len (onTag st tok) = len st + insertionLength st /\
  (0 <= n -> slice b 0 k ++ slice_from b k = b).
Proof.
  intros Htag n k Hreach Hb. unfold onTag.
  rewrite Htag, String.eqb_refl. simpl.
  split; [|split].
  - pose proof (splice_loop_first_reaching (insertionChunk st) n (buffers st) [] i b
                  Hreach Hb) as Hloop.
    exact Hloop.
  - reflexivity.
  - intros Hn. apply slice_split. subst k.
    destruct Hreach as [Hreach Hmin].
    unfold Spec.running_total in *.
    assert (Hsplit : take (S i) (buffers st) = take i (buffers st) ++ [b])
      by (apply take_S_r; exact Hb).
    rewrite Hsplit, total_len_snoc in Hreach.
    split; [|lia].
    destruct i as [|i].
    + simpl. rewrite ?total_len_nil. unfold total_len, blen. simpl. lia.
    + specialize (Hmin i ltac:(lia)). lia.
Qed.

(** [onAnyToken], which runs before [onTag] on the same token, leaves what
    the splice reads. *)
Lemma onAnyToken_frame (st : Engine) (tok : Token) :
  let st1 := if anyTokenListeners st then onAnyToken st tok else st in
  buffers st1 = buffers st /\ len st1 = len st /\ stringBuffer st1 = stringBuffer st /\
  writtenOffset st1 = writtenOffset st /\ insertToEnd st1 = insertToEnd st /\
  insertionChunk st1 = insertionChunk st /\ insertionLength st1 = insertionLength st /\
  targetTagName st1 = targetTagName st.
Proof. cbv zeta. destruct (anyTokenListeners st); repeat split. Qed.

(** C9: the splice is triggered by the token of the target tag whose event
    is the insertion event: the close tag with [insertToEnd], the open tag
    otherwise; a tag of the target name on the other event leaves the queue
    alone.  When it fires, the insertion index is the UTF-8 length of the
    decoded text up to the boundary (start of the close-tag token with
    [insertToEnd], end of the open-tag token otherwise) minus
    [writtenOffset]; the first chunk [i] at which the running total reaches
    the index is replaced by its prefix, the payload and its suffix, cut at
    the index minus the total before the chunk; the payload length is added
    to [len]. *)
Theorem target_token_splices_at_insertion_index (st : Engine) (tok : Token) (i : nat)
    (b : Buffer) :
  tagListener st = true ->
  tagName tok = targetTagName st ->
  let n := byteLength (substring0 (stringBuffer st)
                         (if insertToEnd st then startOffset tok else endOffset tok))
           - writtenOffset st in
  let k := n - total_len (take i (buffers st)) in
  Spec.first_reaching (buffers st) n i ->
  buffers st !! i = Some b ->
  let st' := emit_token st tok in
  (kind tok = (if insertToEnd st then EndTag else StartTag) ->
   buffers st' =
     take i (buffers st) ++ [slice b 0 k; insertionChunk st; slice_from b k]
       ++ drop (S i) (buffers st) /\
   len st' = len st + insertionLength st /\
   (0 <= n -> slice b 0 k ++ slice_from b k = b)) /\
  (kind tok <> (if insertToEnd st then EndTag else StartTag) ->
   buffers st' = buffers st /\ len st' = len st).
Proof.
  intros Hl Htag n k Hreach Hb st'. subst st'. unfold emit_token.
  destruct (onAnyToken_frame st tok)
    as (Hbuf & Hlen & Hsb & Hwr & HtoEnd & Hchunk & Hplen & Hname).
  set (st1 := if anyTokenListeners st then onAnyToken st tok else st) in *.
  rewrite Hl. cbn [andb]. unfold insertionEvent. split.
  - intros Hkind. rewrite bool_decide_eq_true_2 by exact Hkind.
    assert (Htag1 : tagName tok = targetTagName st1) by congruence.
    assert (Hreach1 : Spec.first_reaching (buffers st1)
              (byteLength (substring0 (stringBuffer st1) (Spec.boundary (insertToEnd st1) tok))
               - writtenOffset st1) i).
    { rewrite Hbuf, Hsb, Hwr, HtoEnd. exact Hreach. }
    assert (Hb1 : buffers st1 !! i = Some b) by (rewrite Hbuf; exact Hb).
    destruct (onTag_splice_queue st1 tok i b Htag1 Hreach1 Hb1) as (Hq & Hlen' & Hcut).
    rewrite Hbuf, Hsb, Hwr, HtoEnd, Hchunk in Hq.
    rewrite Hbuf, Hsb, Hwr, HtoEnd in Hcut.
    rewrite Hlen, Hplen in Hlen'.
    split; [exact Hq|]. split; [exact Hlen'|exact Hcut].
  - intros Hkind. rewrite bool_decide_eq_false_2 by exact Hkind.
    split; assumption.
Qed.

Lemma target_token_splices_at_insertion_index_witness :
  let st := set_stringBuffer (of_ascii "<body></body>")
              (set_buffers [[60; 98; 111; 100; 121; 62]; [60; 47; 98; 111; 100; 121; 62]]
                 (create "body" [90] 1 true)) in
  buffers (emit_token st (mkToken EndTag "body" 6 13)) =
    [[60; 98; 111; 100; 121; 62]; [90]; []; [60; 47; 98; 111; 100; 121; 62]] /\
  buffers (emit_token st (mkToken StartTag "body" 0 6)) = buffers st.
Proof.
  intro st. split.
  - refine (proj1 (proj1 (target_token_splices_at_insertion_index st
                            (mkToken EndTag "body" 6 13) 0%nat [60; 98; 111; 100; 121; 62]
                            eq_refl eq_refl _ eq_refl) eq_refl)).
    split; [vm_compute; discriminate|]. intros j Hj. lia.
  - refine (proj1 (proj2 (target_token_splices_at_insertion_index st
                            (mkToken StartTag "body" 0 6) 0%nat [60; 98; 111; 100; 121; 62]
                            eq_refl eq_refl _ eq_refl) _)).
    + split; [vm_compute; discriminate|]. intros j Hj. lia.
    + discriminate.
Defined.

End SpliceFacts.

Module ResponseFacts.
Import Buf JsStr Engine Js Response Body Scenario BufFacts.

Section Headers.

Variable inspect : HeaderValue -> string.

(** A declared length that passes the check is replaced by its sum with the
    payload length (a numeric header is left alone when the payload is
    empty). *)
Lemma adjustContentLength_adds_payload (r : Response) (v : HeaderValue) (declared : Z) :
  headersSent r = false ->
  shouldParseHtml (parser r) = true ->
  content_length_refused v = false ->
  originalContentLength v = Int declared ->
  getHeader r "content-length" = Some v ->
  let r' := adjustContentLength inspect r v in
  errors r' = errors r /\
  (getHeader r' "content-length" = Some (HStr (decimal (declared + insertionLength (parser r)))) \/
   insertionLength (parser r) = 0 /\ getHeader r' "content-length" = Some (HNum (Int declared))).
Proof.
  intros Hsent Hhtml Hok Hlen Hget. unfold adjustContentLength.
  rewrite Hok, Hhtml, Hlen, Hget. simpl.
  destruct (strict_ne v (Int (declared + insertionLength (parser r)))) eqn:Hne.
  - split; [unfold originalSetHeader; rewrite Hsent; reflexivity|]. left.
    unfold originalSetHeader, getHeader. rewrite Hsent. simpl.
    apply lookup_insert_eq.
  - split; [reflexivity|]. right.
    destruct v as [[a| |]| |]; simpl in Hne; try discriminate.
    simpl in Hlen. injection Hlen as ->.
    assert (insertionLength (parser r) = 0) by lia.
    split; [assumption | exact Hget].
Qed.

(** A declared length that fails the check is removed, and the error names
    the raw value as [util.inspect] prints it. *)
Lemma adjustContentLength_refuses (r : Response) (v : HeaderValue) :
  headersSent r = false ->
  content_length_refused v = true ->
  let r' := adjustContentLength inspect r v in
  getHeader r' "content-length" = None /\
  errors r' = errors r ++ [InvalidContentLength v] /\
  message inspect (InvalidContentLength v) =
    CONTENT_LENGTH_ERROR +:+ ", but it was " +:+ inspect v +:+ ".".
Proof.
  intros Hsent Hbad. unfold adjustContentLength. rewrite Hbad.
  unfold emit_error, removeHeader, restoreOriginalMethods. rewrite Hsent. simpl.
  destruct (listener r); simpl; unfold originalEnd, getHeader; simpl;
    [|destruct (finished r); simpl]; rewrite lookup_delete_eq; auto.
Qed.

End Headers.

(** The two values the specification names are refused. *)
Lemma negative_and_malformed_lengths_are_refused :
  content_length_refused (HNum (Int (-100))) = true /\
  content_length_refused (HStr "0_0") = true /\
  content_length_refused (HNum (NonInteger "1.5")) = true /\
  content_length_refused (HNum NaN) = true.
Proof. repeat split. Qed.

(** C3, the code on two inputs.  A declared length of 37 with a payload of
    one byte leaves the handler as 39, not 38: every later [setHeader] runs
    [updateHeaders] again, which reads the adjusted header as the declared
    one.  And the empty string, which is no integer, passes the check:
    no error is emitted and the header becomes [NaN]. *)
Theorem content_length_after_later_headers :
  getHeader response_with_three_headers "content-length" = Some (HStr "39") /\
  errors response_with_three_headers = [] /\
  getHeader response_with_empty_length "content-length" = Some (HStr "NaN") /\
  errors response_with_empty_length = [].
Proof. vm_compute. repeat split. Qed.

(** The code on the byte 0xAC ended on an HTML response whose handler has
    no listener that ends the response: the one error is emitted,
    [undefined] is appended to the text log, and the stream refuses it: the
    call is left before [originalEnd], so nothing is delivered and the
    response stays open. *)
Example invalid_utf8_is_not_delivered :
  let r := response_with_invalid_utf8 NoListener in
  errors r = [ParserError InvalidUtf8] /\
  delivered r = [] /\ finished r = false /\
  stringBuffer (parser r) = of_ascii "undefined" /\
  parserInput (parser r) = [].
Proof. vm_compute. repeat split. Qed.

(** With the listener of the test suite the response was ended from inside
    the listener: its body is the message. *)
Lemma invalid_utf8_with_ending_listener :
  let r := response_with_invalid_utf8 EndWithMessage in
  errors r = [ParserError InvalidUtf8] /\
  delivered r = bytes_of_string (error_message InvalidUtf8).
Proof. vm_compute. repeat split. Qed.

(** C7 as worded fails on an HTML response once the splice has taken
    place: the engine has set [shouldParseHtml] to false, the wrappers pass
    what follows straight on, and a byte that is no UTF-8 is delivered
    without any error. *)
Lemma invalid_bytes_after_the_splice_are_delivered :
  ~ In (ParserError InvalidUtf8) (errors response_with_late_invalid_byte) /\
  delivered response_with_late_invalid_byte = bytes_of_string "<body>Z" ++ [0xAC].
Proof. vm_compute. split; [intros H; exact H | reflexivity]. Qed.

(** After the encoding error the call returns at once and the end wrapper
    goes on: nothing of the chunk was queued, and the response is ended
    with what the queue held. *)
Lemma encoding_error_delivers_nothing :
  let r := register (plain ∅ NoListener) [] 0 "tag" "body" false in
  let r := res_writeHead r [("content-type", HStr "text/html")] in
  let r := res_end Sample.inspect r (Some [0xAC]) (EncString "ascii") [] in
  errors r = [ParserError (InvalidHtmlEncoding "ascii")] /\ delivered r = [].
Proof. vm_compute. repeat split. Qed.

(** C1, the code on a body that starts with a byte order mark: the decoder
    drops the mark from the text, every offset of the tokenizer is three
    bytes short of its place in the queue, and the payload lands inside the
    tag. *)
Theorem byte_order_mark_shifts_the_splice :
  delivered response_with_byte_order_mark =
    byte_order_mark ++ bytes_of_string "<boZdy></body>" /\
  errors response_with_byte_order_mark = [].
Proof. vm_compute. repeat split. Qed.

(** The scenarios of the specification. *)
Example payload_after_open_tag :
  delivered (response_ended_at_once false) =
    bytes_of_string "<html><body><h1>X</h1><h2>Hi</h2></body></html>".
Proof. vm_compute. reflexivity. Qed.

Example payload_before_close_tag :
  delivered (response_ended_at_once true) =
    bytes_of_string "<html><body><h2>Hi</h2><h1>X</h1></body></html>".
Proof. vm_compute. reflexivity. Qed.

Example payload_in_split_body :
  delivered response_in_two_writes = bytes_of_string "<html><body>Z</body></html>".
Proof. vm_compute. reflexivity. Qed.

(** C2, the code on an HTML response that declares its length and whose
    body has no target tag: the ten bytes of the body are passed through as
    they are, but the caller's content-length of 10 was replaced by 11 when
    the header was set, and no error tells the caller. *)
Theorem headers_change_without_target :
  delivered response_without_target = bytes_of_string "<p>hi</p>!" /\
  blen (delivered response_without_target) = 10 /\
  getHeader response_without_target "content-length" = Some (HStr "11") /\
  errors response_without_target = [].
Proof. vm_compute. repeat split. Qed.

End ResponseFacts.

Module BodyFacts.
Import Buf JsStr Engine Js Response Body Run Inv BufFacts RunFacts.

Section PassThrough.

Variable inspect : HeaderValue -> string.

Lemma forward_errors_none (seen : nat) (r : Response) :
  drop seen (emitted (parser r)) = [] -> forward_errors inspect seen r = r.
Proof. unfold forward_errors. intros ->. reflexivity. Qed.

Lemma run_app (tr : Trace) (a b : list Op) : run tr (a ++ b) = run (run tr a) b.
Proof. apply fold_left_app. Qed.

(** The two wrappers when the call on the parser returns. *)
Lemma write_fn_returns (r : Response) (data : Buffer) (encoding : EncodingArg)
    (toks : list Token) :
  shouldParseHtml (parser r) = true ->
  (write (parser r) data encoding toks).2 = Returns ->
  write_fn inspect r data encoding toks =
    let r1 := forward_errors inspect (length (emitted (parser r)))
                (set_parser (write (parser r) data encoding toks).1 r) in
    let (p2, writableBuffer) := getWritableBuffer (parser r1) in
    let r2 := set_parser p2 r1 in
    if negb (blen writableBuffer =? 0) then originalWrite r2 writableBuffer else r2.
Proof.
  intros Hhtml Hret. unfold write_fn. rewrite Hhtml.
  destruct (write (parser r) data encoding toks) as [p1 c]. cbn [fst snd] in *.
  subst c. reflexivity.
Qed.

Lemma write_fn_throws (r : Response) (data : Buffer) (encoding : EncodingArg)
    (toks : list Token) :
  shouldParseHtml (parser r) = true ->
  (write (parser r) data encoding toks).2 = Throws ->
  write_fn inspect r data encoding toks =
    forward_errors inspect (length (emitted (parser r)))
      (set_parser (write (parser r) data encoding toks).1 r).
Proof.
  intros Hhtml Hret. unfold write_fn. rewrite Hhtml.
  destruct (write (parser r) data encoding toks) as [p1 c]. cbn [fst snd] in *.
  subst c. reflexivity.
Qed.

Lemma res_end_returns (r : Response) (data : option Buffer) (encoding : EncodingArg)
    (toks : list Token) :
  endImpl r = EndPatched ->
  let r1 := restoreOriginalMethods r in
  let r2 := set_parser (removeAnyTokenListeners (parser r1)) r1 in
  (shouldParseHtml (parser r2) = true ->
   (writeLast (parser r2) (default [] data) encoding toks).2 = Returns) ->
  res_end inspect r data encoding toks =
    if bool_decide (buffers (parser r2) = []) && negb (shouldParseHtml (parser r2)) then
      originalEnd (set_parserDestroyed true r2) data
    else
      let p3 :=
        if shouldParseHtml (parser r2)
        then (writeLast (parser r2) (default [] data) encoding toks).1
        else (push (parser r2) (default [] data)).1 in
      let r3 := forward_errors inspect (length (emitted (parser r2))) (set_parser p3 r2) in
      let (p4, flushed) := flush (parser r3) in
      set_parserDestroyed true (originalEnd (set_parser p4 r3) (Some flushed)).
Proof.
  intros Hend r1 r2 Hret. unfold res_end. rewrite Hend. fold r1. fold r2.
  destruct (bool_decide (buffers (parser r2) = []) && negb (shouldParseHtml (parser r2)));
    [reflexivity|].
  destruct (shouldParseHtml (parser r2)); [|reflexivity].
  specialize (Hret eq_refl).
  destruct (writeLast (parser r2) (default [] data) encoding toks) as [p3 c].
  cbn [fst snd] in *. subst c. reflexivity.
Qed.

Lemma res_end_throws (r : Response) (data : option Buffer) (encoding : EncodingArg)
    (toks : list Token) :
  endImpl r = EndPatched ->
  let r1 := restoreOriginalMethods r in
  let r2 := set_parser (removeAnyTokenListeners (parser r1)) r1 in
  shouldParseHtml (parser r2) = true ->
  (writeLast (parser r2) (default [] data) encoding toks).2 = Throws ->
  res_end inspect r data encoding toks =
    forward_errors inspect (length (emitted (parser r2)))
      (set_parser (writeLast (parser r2) (default [] data) encoding toks).1 r2).
Proof.
  intros Hend r1 r2 Hhtml Hret. unfold res_end. rewrite Hend. fold r1. fold r2.
  rewrite Hhtml, andb_false_r.
  destruct (writeLast (parser r2) (default [] data) encoding toks) as [p3 c].
  cbn [fst snd] in *. subst c. reflexivity.
Qed.

Lemma getWritableBuffer_step_frame (tr : Trace) :
  emitted (engine (step tr GetWritableBuffer)) = emitted (engine tr) /\
  ended (engine (step tr GetWritableBuffer)) = ended (engine tr) /\
  shouldParseHtml (engine (step tr GetWritableBuffer)) = shouldParseHtml (engine tr) /\
  accepted (step tr GetWritableBuffer) = accepted tr.
Proof.
  simpl. unfold getWritableBuffer.
  destruct (negb (writableOffset (engine tr) =? 0)); simpl; [|auto].
  destruct (release_loop _ _ _ _) as [[remaining out]|]; simpl; auto.
Qed.

(** *** While the response is processed as HTML *)

Lemma write_fn_html (r0 r : Response) (tr : Trace) (data : Buffer)
    (encoding : EncodingArg) (toks : list Token) :
  in_step r0 r tr ->
  let tr' := run tr [Write data encoding toks; GetWritableBuffer] in
  emitted (engine tr') = emitted (engine tr) ->
  ended (engine tr') = false ->
  in_step r0 (write_fn inspect r data encoding toks) tr' /\
  accepted tr' = accepted tr ++ [data].
Proof.
  intros (Hp & Hhtml & Hdel & Hhead & Herr & Hfin & Hend & Hwimpl) tr'.
  subst tr'. cbn [run fold_left].
  set (tr1 := step tr (Write data encoding toks)).
  destruct (getWritableBuffer_step_frame tr1) as (Hem2 & Hended2 & Hhtml2 & Hacc2).
  rewrite Hem2, Hended2. intros Hem Hended.
  assert (Hnone : accepted tr1 = accepted tr ++ [data] /\ released tr1 = released tr /\
                  shouldParseHtml (engine tr1) = shouldParseHtml (engine tr))
    by exact (accept_no_error tr data encoding false toks Hem Hended).
  destruct Hnone as (Hacc & Hrel & Hhtml1).
  assert (Hem1 : emitted (engine tr1) = emitted (engine tr)) by exact Hem.
  split; [|rewrite Hacc2; exact Hacc].
  rewrite write_fn_returns;
    [| rewrite Hp; exact Hhtml
     | rewrite Hp; apply internalWrite_returns; exact Hem1 ].
  cbv zeta. rewrite Hp.
  assert (Hwrite : (write (engine tr) data encoding toks).1 = engine tr1) by reflexivity.
  rewrite Hwrite.
  rewrite forward_errors_none.
  2:{ cbn [parser set_parser]. rewrite Hem1. apply drop_all. }
  cbn [parser set_parser].
  assert (Hstep : step tr1 GetWritableBuffer =
                  mkTrace (getWritableBuffer (engine tr1)).1
                    (released tr1 ++ [(getWritableBuffer (engine tr1)).2]) (accepted tr1)).
  { cbn [step]. destruct (getWritableBuffer (engine tr1)); reflexivity. }
  rewrite Hstep in *. clear Hstep.
  destruct (getWritableBuffer (engine tr1)) as [p2 out]. cbn [fst snd engine] in *.
  assert (Hhtml3 : shouldParseHtml p2 = true) by congruence.
  assert (Hshared : forall r', parser r' = p2 ->
            delivered r' = delivered r0 ++ concat (released tr ++ [out]) ->
            headers r' = headers r0 -> errors r' = errors r0 -> finished r' = false ->
            endImpl r' = EndPatched ->
            (writeImpl r' = WritePatched \/ writeImpl r' = WriteParsing) ->
            in_step r0 r' (mkTrace p2 (released tr1 ++ [out]) (accepted tr1))).
  { intros r' ? ? ? ? ? ? ?. unfold in_step. cbn [engine released]. rewrite Hrel.
    repeat split; assumption. }
  destruct (blen out =? 0) eqn:Hout; cbn [negb].
  - apply Hshared; try assumption; try reflexivity.
    assert (out = []) as -> by (destruct out; [reflexivity | unfold blen in Hout; simpl in Hout; lia]).
    rewrite concat_app. simpl. rewrite !app_nil_r. exact Hdel.
  - unfold originalWrite. cbn [finished set_parser]. rewrite Hfin.
    apply Hshared; try assumption; try reflexivity.
    unfold delivered in *. cbn [wire set_headersSent set_wire set_parser].
    rewrite !concat_app, Hdel. simpl.
    rewrite !app_nil_r, app_assoc. reflexivity.
Qed.

Lemma res_write_html (r0 r : Response) (tr : Trace) (data : Buffer)
    (encoding : EncodingArg) (toks : list Token) :
  in_step r0 r tr ->
  let tr' := run tr [Write data encoding toks; GetWritableBuffer] in
  emitted (engine tr') = emitted (engine tr) ->
  ended (engine tr') = false ->
  in_step r0 (res_write inspect r data encoding toks) tr' /\
  accepted tr' = accepted tr ++ [data].
Proof.
  intros Hin tr' Hem Hended.
  pose proof Hin as (Hp & Hhtml & Hdel & Hhead & Herr & Hfin & Hend & Hwimpl).
  unfold res_write. destruct Hwimpl as [Hw | Hw]; rewrite Hw.
  - cbn [parser set_headersSent set_setHeaderImpl]. rewrite Hp, Hhtml. simpl negb. cbv iota.
    apply write_fn_html; [|exact Hem | exact Hended].
    unfold in_step. simpl. repeat split; auto.
  - apply write_fn_html; assumption.
Qed.

Lemma res_end_html (r0 r : Response) (tr : Trace) (data : option Buffer)
    (encoding : EncodingArg) (toks : list Token) :
  in_step r0 r tr ->
  let tr' := run tr [RemoveAnyTokenListeners; WriteLast (default [] data) encoding toks] in
  emitted (engine tr') = emitted (engine tr) ->
  ended (engine tr') = false ->
  queue_ok tr' ->
  let r' := res_end inspect r data encoding toks in
  delivered r' = delivered r0 ++ concat (accepted tr) ++ default [] data /\
  headers r' = headers r0 /\ errors r' = errors r0.
Proof.
  intros (Hp & Hhtml & Hdel & Hhead & Herr & Hfin & Hend & Hwimpl) tr'.
  subst tr'. cbn [run fold_left].
  set (tr1 := step tr RemoveAnyTokenListeners).
  intros Hem Hended (Hlen & Hcat & _).
  destruct (accept_no_error tr1 (default [] data) encoding true toks Hem Hended)
    as (Hacc & Hrel & _).
  assert (Hem1 : emitted (engine (step tr1 (WriteLast (default [] data) encoding toks)))
                 = emitted (engine tr)) by exact Hem.
  rewrite res_end_returns;
    [| exact Hend
     | intros _; cbn [parser set_parser restoreOriginalMethods set_endImpl set_writeImpl
                      set_setHeaderImpl];
       rewrite Hp; unfold writeLast; apply internalWrite_returns; exact Hem ].
  cbv zeta. cbn [parser set_parser restoreOriginalMethods
    set_endImpl set_writeImpl set_setHeaderImpl].
  rewrite Hp.
  assert (Hcond : shouldParseHtml (removeAnyTokenListeners (engine tr)) = true) by exact Hhtml.
  rewrite Hcond, andb_false_r.
  assert (Hlast : (writeLast (removeAnyTokenListeners (engine tr)) (default [] data) encoding toks).1
                  = engine (step tr1 (WriteLast (default [] data) encoding toks)))
    by reflexivity.
  rewrite Hlast.
  set (tr2 := step tr1 (WriteLast (default [] data) encoding toks)) in *.
  rewrite forward_errors_none.
  2:{ cbn [parser set_parser]. fold tr2. rewrite Hem1. apply drop_all. }
  cbn [parser set_parser].
  assert (Hflush : (flush (engine tr2)).2 = concat (buffers (engine tr2))).
  { unfold flush. rewrite Hlen.
    destruct (buffers (engine tr2)) as [|b [|b' q]]; simpl.
    - reflexivity.
    - rewrite app_nil_r. reflexivity.
    - apply (concat_total_all (b :: b' :: q)). }
  destruct (flush (engine tr2)) as [p4 flushed]. simpl in Hflush. subst flushed.
  unfold originalEnd. simpl. rewrite Hfin. simpl.
  repeat split; try assumption.
  unfold delivered in *. simpl. rewrite concat_app, Hdel. simpl. rewrite app_nil_r.
  rewrite <- app_assoc. f_equal.
  assert (Hrel1 : released tr2 = released tr) by exact Hrel.
  assert (Hacc1 : accepted tr2 = accepted tr ++ [default [] data]) by exact Hacc.
  rewrite Hrel1, Hacc1 in Hcat.
  transitivity (concat (accepted tr ++ [default [] data])); [exact Hcat|].
  rewrite concat_app. simpl. rewrite app_nil_r. reflexivity.
Qed.

(** *** Once the original methods are back *)

Lemma original_body (data : option Buffer) (encoding : EncodingArg) (toks : list Token)
    (writes : list (Buffer * EncodingArg * list Token)) :
  forall r : Response,
  writeImpl r = WriteOriginal -> endImpl r = EndOriginal -> finished r = false ->
  let ops := writes_then_end writes data encoding toks in
  let r' := body_run inspect r ops in
  delivered r' = delivered r ++ body_input ops /\
  headers r' = headers r /\ errors r' = errors r.
Proof.
  induction writes as [|[[wdata wenc] wtoks] writes IH]; intros r Hw He Hf.
  - cbn [writes_then_end map app body_run fold_left body_step].
    unfold res_end, originalEnd, body_input, delivered. rewrite He, Hf.
    cbn [map chunk_of concat wire set_finished set_headersSent set_wire headers errors].
    repeat split. rewrite concat_app. destruct data; simpl; rewrite ?app_nil_r; reflexivity.
  - cbn [writes_then_end map app body_run fold_left body_step fst snd].
    fold (writes_then_end writes data encoding toks).
    fold (body_run inspect (res_write inspect r wdata wenc wtoks)
            (writes_then_end writes data encoding toks)).
    assert (Hstep : res_write inspect r wdata wenc wtoks
                    = set_headersSent true (set_wire (wire r ++ [wdata]) r)).
    { unfold res_write, originalWrite. rewrite Hw, Hf. reflexivity. }
    rewrite Hstep.
    destruct (IH (set_headersSent true (set_wire (wire r ++ [wdata]) r)) Hw He Hf)
      as (Hdel & Hhead & Herr).
    split; [|split; assumption].
    etransitivity; [exact Hdel|].
    unfold delivered, body_input. cbn [wire set_headersSent set_wire map chunk_of concat].
    rewrite concat_app. simpl. rewrite app_nil_r, <- app_assoc. reflexivity.
Qed.

End PassThrough.

End BodyFacts.

Module InsertionFacts.
Import Buf JsStr Engine Run Inv BufFacts JsStrFacts Utf8Facts RunFacts.

(** *** The queue after the loop of [onTag] *)

Lemma splice_loop_concat (chunk : Buffer) (n : Z) (rest before : list Buffer) :
  rest <> [] ->
  total_len before <= n <= total_len before + total_len rest ->
  concat (splice_loop chunk n before rest (total_len before)) =
    insert_at n chunk (concat (before ++ rest)).
Proof.
  revert before. induction rest as [|buffer rest IH]; intros before Hne Hn; [contradiction|].
  rewrite total_len_cons in Hn. pose proof (blen_nonneg buffer) as Hb.
  pose proof (total_len_nonneg before) as Hbefore.
  cbn [splice_loop].
  destruct (total_len before + blen buffer >=? n) eqn:Hreach.
  - set (k := n - total_len before).
    assert (Hk : 0 <= k <= blen buffer) by (subst k; lia).
    rewrite slice_prefix, slice_suffix by exact Hk.
    unfold insert_at. rewrite !concat_app. cbn [concat app].
    replace (Z.to_nat n) with (length (concat before) + Z.to_nat k)%nat
      by (subst k; unfold total_len, blen in *; lia).
    rewrite take_app_add', drop_app_add' by reflexivity.
    rewrite take_app_le, drop_app_le by (unfold blen in *; lia).
    rewrite <- !app_assoc. reflexivity.
  - destruct rest as [|buffer' rest'].
    { rewrite total_len_nil in Hn. lia. }
    rewrite <- total_len_snoc. rewrite IH.
    + rewrite <- app_assoc. reflexivity.
    + discriminate.
    + rewrite total_len_snoc. lia.
Qed.

(** *** What no call changes *)

Lemma emit_token_config (st : Engine) (tok : Token) : config (emit_token st tok) = config st.
Proof. unfold emit_token, onTag, onAnyToken. case_ifs; reflexivity. Qed.

Lemma emit_tokens_config (toks : list Token) (st : Engine) :
  config (emit_tokens st toks) = config st.
Proof.
  revert st. induction toks as [|tok rest IH]; intros st; simpl; [reflexivity|].
  destruct (stopped st); [reflexivity|]. rewrite IH. apply emit_token_config.
Qed.

Lemma internalWrite_config (st : Engine) (data : Buffer) (encoding : EncodingArg)
    (isLast : bool) (toks : list Token) :
  config (internalWrite st data encoding isLast toks).1 = config st.
Proof.
  unfold internalWrite. destruct (encoding_rejected st encoding); [reflexivity|].
  unfold push. destruct (blen data =? 0); simpl; [reflexivity|].
  destruct (Utf8.decode _ _ _) as [[d s]|]; unfold super_write; simpl;
    destruct (ended st); simpl; try reflexivity; rewrite emit_tokens_config; reflexivity.
Qed.

Lemma getWritableBuffer_config (st : Engine) :
  config (getWritableBuffer st).1 = config st /\
  tagListener (getWritableBuffer st).1 = tagListener st /\
  stopped (getWritableBuffer st).1 = stopped st.
Proof.
  unfold getWritableBuffer. destruct (negb (writableOffset st =? 0)); simpl; [|auto].
  destruct (release_loop _ _ _ _) as [[remaining out]|]; simpl; auto.
Qed.

Lemma is_target_config (st st' : Engine) (tok : Token) :
  config st' = config st -> is_target st' tok = is_target st tok.
Proof.
  unfold config, is_target, insertionEvent. intros H. injection H as H1 _ H3 _.
  rewrite H1, H3. reflexivity.
Qed.

(** *** Tokens, one of which may be the target *)

Lemma find_ext {A} (f g : A -> bool) (l : list A) :
  (forall x, f x = g x) -> List.find f l = List.find g l.
Proof.
  intros H. induction l as [|x l IH]; simpl; [reflexivity|].
  rewrite H, IH. reflexivity.
Qed.

Lemma emit_token_other (st : Engine) (tok : Token) :
  unspliced st -> is_target st tok = false ->
  unspliced (emit_token st tok) /\
  buffers (emit_token st tok) = buffers st /\ len (emit_token st tok) = len st /\
  exists w, emit_token st tok = set_writableOffset w st.
Proof.
  intros (Hl & Hs & He). unfold is_target, emit_token. rewrite Hl. cbn [andb].
  destruct (bool_decide (kind tok = insertionEvent st)) eqn:Hk; cbn [andb]; intros Hname.
  - unfold onTag, onAnyToken.
    destruct (anyTokenListeners st) eqn:Ha; cbn [targetTagName set_writableOffset];
      rewrite Hname; cbn [negb]; unfold unspliced.
    + repeat split; auto. eexists. reflexivity.
    + repeat split; auto. exists (writableOffset st). destruct st; reflexivity.
  - unfold onAnyToken. destruct (anyTokenListeners st); unfold unspliced.
    + repeat split; auto. eexists. reflexivity.
    + repeat split; auto. exists (writableOffset st). destruct st; reflexivity.
Qed.

Lemma emit_token_target (st : Engine) (tok : Token) :
  unspliced st -> is_target st tok = true ->
  exists w, emit_token st tok = onTag (set_writableOffset w st) tok /\
            ended (emit_token st tok) = true /\ stopped (emit_token st tok) = true.
Proof.
  intros (Hl & Hs & He). unfold is_target, emit_token. rewrite Hl. cbn [andb].
  intros H. apply andb_true_iff in H as [Hk Hname]. rewrite Hk.
  unfold onAnyToken.
  destruct (anyTokenListeners st).
  - eexists. split; [reflexivity|]. unfold onTag.
    cbn [targetTagName set_writableOffset]. rewrite Hname. simpl. auto.
  - exists (writableOffset st).
    assert (Hsame : set_writableOffset (writableOffset st) st = st) by (destruct st; reflexivity).
    rewrite Hsame. split; [reflexivity|]. unfold onTag. rewrite Hname. simpl. auto.
Qed.

Lemma emit_tokens_stopped (toks : list Token) (st : Engine) :
  stopped st = true -> emit_tokens st toks = st.
Proof. intros H. destruct toks; simpl; [reflexivity | rewrite H; reflexivity]. Qed.

(** A run of tokens that leaves the stream open met no target. *)
Lemma emit_tokens_none (toks : list Token) (st : Engine) :
  unspliced st -> ended (emit_tokens st toks) = false ->
  unspliced (emit_tokens st toks) /\ List.find (is_target st) toks = None.
Proof.
  revert st. induction toks as [|tok rest IH]; intros st Hun Hended; [auto|].
  pose proof Hun as (Hl & Hs & He). cbn [emit_tokens List.find] in *. rewrite Hs in *.
  destruct (is_target st tok) eqn:Ht.
  - destruct (emit_token_target st tok Hun Ht) as (w & _ & Hended' & Hstopped).
    rewrite (emit_tokens_stopped rest _ Hstopped) in Hended. congruence.
  - destruct (emit_token_other st tok Hun Ht) as (Hun' & _ & _ & _).
    destruct (IH _ Hun' Hended) as [Hun'' Hfind]. split; [exact Hun''|].
    rewrite <- Hfind. apply find_ext. intros t.
    symmetry. apply is_target_config, emit_token_config.
Qed.

(** A run of tokens that ends the stream: the first target among them was
    handled by [onTag], on the engine as the tokens before it left it. *)
Lemma emit_tokens_splice (toks : list Token) (st : Engine) (total last : Z) :
  unspliced st ->
  engine_offsets_ok st total last ->
  tokens_located last toks (text_length st) ->
  ended (emit_tokens st toks) = true ->
  exists tok w,
    List.find (is_target st) toks = Some tok /\
    emit_tokens st toks = onTag (set_writableOffset w st) tok /\
    writtenOffset st <= byteLength (substring0 (stringBuffer st) (startOffset tok)) /\
    startOffset tok <= endOffset tok <= text_length st.
Proof.
  revert st last. induction toks as [|tok rest IH]; intros st last Hun Hok Hloc Hended.
  { destruct Hun as (_ & _ & He). simpl in Hended. congruence. }
  pose proof Hun as (Hl & Hs & He). cbn [emit_tokens List.find] in *. rewrite Hs in *.
  destruct Hloc as (H1 & H2 & H3 & Hrest).
  destruct (is_target st tok) eqn:Ht.
  - destruct (emit_token_target st tok Hun Ht) as (w & Heq & _ & Hstopped).
    rewrite (emit_tokens_stopped rest _ Hstopped).
    exists tok, w. repeat split; try assumption.
    destruct Hok as (_ & _ & _ & _ & Hwritten & _).
    pose proof (byteLength_substring0_mono (stringBuffer st) last (startOffset tok) H1). lia.
  - destruct (emit_token_other st tok Hun Ht) as (Hun' & _ & _ & w & Heq).
    assert (Hok' : engine_offsets_ok (emit_token st tok) total (endOffset tok)).
    { apply (emit_token_offsets _ _ last); [exact Hok|].
      destruct Hok as (_ & _ & ? & _). lia. }
    assert (Htext : text_length (emit_token st tok) = text_length st).
    { unfold text_length. destruct (emit_token_frame st tok) as (-> & _). reflexivity. }
    rewrite <- Htext in Hrest.
    destruct (IH _ _ Hun' Hok' Hrest Hended) as (tok' & w' & Hfind & Heq' & Hw & Hse).
    exists tok', w'. repeat split.
    + rewrite <- Hfind. apply find_ext. intros t.
      symmetry. apply is_target_config, emit_token_config.
    + rewrite Heq'. rewrite Heq. reflexivity.
    + destruct (emit_token_frame st tok) as (Hsb & _ & Hwr & _).
      rewrite Hsb, Hwr in Hw. exact Hw.
    + lia.
    + rewrite <- Htext. lia.
Qed.

Lemma tokens_located_in_order (toks : list Token) (last limit : Z) :
  tokens_located last toks limit -> tokens_in_order last toks limit.
Proof.
  revert last. induction toks as [|tok rest IH]; intros last; simpl; [auto|].
  intros (H1 & H2 & H3 & H4). repeat split; try lia. apply IH, H4.
Qed.

(** *** Placing a chunk in a sequence of bytes *)

Lemma insert_at_app_l (a b chunk : Buffer) (k : Z) :
  0 <= k -> insert_at (blen a + k) chunk (a ++ b) = a ++ insert_at k chunk b.
Proof.
  intros Hk. unfold insert_at, blen.
  replace (Z.to_nat (Z.of_nat (length a) + k)) with (length a + Z.to_nat k)%nat by lia.
  rewrite take_app_add', drop_app_add' by reflexivity.
  rewrite <- app_assoc. reflexivity.
Qed.

Lemma insert_at_app_r (a b chunk : Buffer) (k : Z) :
  0 <= k <= blen a -> insert_at k chunk (a ++ b) = insert_at k chunk a ++ b.
Proof.
  intros Hk. unfold insert_at, blen in *.
  rewrite take_app_le, drop_app_le by lia.
  rewrite <- !app_assoc. reflexivity.
Qed.

Lemma blen_insert_at (chunk body : Buffer) (k : Z) :
  blen (insert_at k chunk body) = blen body + blen chunk.
Proof.
  unfold insert_at. rewrite !blen_app. unfold blen.
  rewrite length_take, length_drop. lia.
Qed.

(** *** The write that meets the target *)

Lemma internalWrite_splice (st : Engine) (total last : Z) (data : Buffer)
    (encoding : EncodingArg) (isLast : bool) (toks : list Token) :
  unspliced st ->
  engine_offsets_ok st total last ->
  emitted (internalWrite st data encoding isLast toks).1 = emitted st ->
  ended (internalWrite st data encoding isLast toks).1 = true ->
  tokens_located last toks (text_length (internalWrite st data encoding isLast toks).1) ->
  exists d s tok w,
    data <> [] /\
    Utf8.decode (utf8Decoder st) data (negb isLast) = Some (d, s) /\
    List.find (is_target st) toks = Some tok /\
    (internalWrite st data encoding isLast toks).1 =
      onTag (set_writableOffset w (after_decode st data d s)) tok /\
    writtenOffset st <= byteLength (substring0 (stringBuffer st ++ s) (startOffset tok)) /\
    startOffset tok <= endOffset tok <= Z.of_nat (length (stringBuffer st ++ s)).
Proof.
  intros Hun Hok Hem Hended Hloc.
  destruct (internalWrite_no_error _ _ _ _ _ Hem) as [_ Hcases].
  destruct Hcases as [[-> Heq] | (Hne & _ & d & s & Hdec & Heq)]; rewrite Heq in *.
  { destruct Hun as (_ & _ & He). congruence. }
  assert (Hun3 : unspliced (after_decode st data d s)) by exact Hun.
  assert (Hok3 : engine_offsets_ok (after_decode st data d s) (total + blen data) last)
    by (eapply after_decode_offsets; eassumption).
  assert (Htext : text_length (emit_tokens (after_decode st data d s) toks)
                  = text_length (after_decode st data d s)).
  { unfold text_length.
    destruct (emit_tokens_frame toks (after_decode st data d s)) as (-> & _). reflexivity. }
  rewrite Htext in Hloc.
  destruct (emit_tokens_splice toks _ _ _ Hun3 Hok3 Hloc Hended)
    as (tok & w & Hfind & Heq' & Hw & Hse).
  exists d, s, tok, w. repeat split; try assumption; try apply Hse.
Qed.

(** The queue after that write: the queue before it and the chunk, with the
    payload put in at the insertion index. *)
Lemma onTag_queue (st : Engine) (tok : Token) (w : Z) :
  is_target st tok = true ->
  buffers st <> [] ->
  len st = total_len (buffers st) ->
  insertionLength st = blen (insertionChunk st) ->
  0 <= insertionIndex st tok <= total_len (buffers st) ->
  let st' := onTag (set_writableOffset w st) tok in
  concat (buffers st') = insert_at (insertionIndex st tok) (insertionChunk st) (concat (buffers st)) /\
  len st' = total_len (buffers st') /\
  shouldParseHtml st' = false /\ ended st' = true /\
  stringBuffer st' = stringBuffer st /\ writtenOffset st' = writtenOffset st /\
  writableOffset st' = w /\ emitted st' = emitted st /\ config st' = config st.
Proof.
  intros Ht Hne Hlen Hp Hidx. unfold is_target in Ht.
  apply andb_true_iff in Ht as [_ Hname].
  unfold onTag. cbn [tagName targetTagName set_writableOffset]. rewrite Hname. cbn [negb].
  cbn -[splice_loop insert_at total_len].
  assert (Hcat : concat (splice_loop (insertionChunk st) (insertionIndex st tok) [] (buffers st) 0)
                 = insert_at (insertionIndex st tok) (insertionChunk st) (concat (buffers st))).
  { apply (splice_loop_concat _ _ (buffers st) []); [exact Hne|].
    rewrite total_len_nil. lia. }
  set (stx := set_shouldParseHtml false
                (set_stopped true
                   (set_tagListener false
                      (set_anyTokenListeners false (set_writableOffset w st))))).
  change (insertionIndex stx tok) with (insertionIndex st tok).
  repeat split; try assumption.
  unfold total_len in *. rewrite Hcat, blen_insert_at. lia.
Qed.

(** [getWritableBuffer] on any queue whose length is [len]: what it returns
    and what it leaves are the queue. *)
Lemma getWritableBuffer_keeps_queue (st : Engine) :
  len st = total_len (buffers st) ->
  (writableOffset st = 0 \/
   0 <= writableOffset st - writtenOffset st <= total_len (buffers st)) ->
  let st' := (getWritableBuffer st).1 in
  (getWritableBuffer st).2 ++ concat (buffers st') = concat (buffers st) /\
  len st' = total_len (buffers st') /\
  shouldParseHtml st' = shouldParseHtml st /\ ended st' = ended st /\
  stringBuffer st' = stringBuffer st /\ emitted st' = emitted st /\
  config st' = config st.
Proof.
  intros Hlen Hw. unfold getWritableBuffer.
  destruct (writableOffset st =? 0) eqn:Hz; cbn [negb fst snd].
  { repeat split; auto. }
  destruct Hw as [Hw | Hw]; [lia|].
  set (w := writableOffset st - writtenOffset st) in *.
  pose proof (release_loop_spec w (buffers st) []) as Hloop.
  rewrite total_len_nil in Hloop. specialize (Hloop ltac:(lia)).
  cbn [app] in Hloop. rewrite Z.sub_0_r in Hloop.
  cbn [buffers set_len set_writableOffset set_writtenOffset].
  destruct (release_loop w [] (buffers st) 0) as [[remaining out]|]; cbn [fst snd].
  - destruct Hloop as [Hout Hrem]. cbn.
    assert (Hn : (Z.to_nat w <= length (concat (buffers st)))%nat)
      by (unfold total_len, blen in Hw; lia).
    repeat split.
    + rewrite Hout, Hrem. apply take_drop.
    + unfold total_len at 1. rewrite Hrem. unfold blen. rewrite length_drop.
      rewrite Hlen. unfold total_len, blen. lia.
  - destruct Hloop as [Hw0 Hnil]. cbn. repeat split. lia.
Qed.

(** The engine and its trace after the write that meets the target. *)
Lemma accept_splice (tr : Trace) (last : Z) (data : Buffer) (encoding : EncodingArg)
    (isLast : bool) (toks : list Token) :
  offsets_ok tr last -> queue_ok tr -> unspliced (engine tr) ->
  insertionLength (engine tr) = blen (insertionChunk (engine tr)) ->
  let tr1 := accept tr data encoding isLast toks in
  emitted (engine tr1) = emitted (engine tr) ->
  ended (engine tr1) = true ->
  tokens_located last toks (text_length (engine tr1)) ->
  exists tok,
    List.find (is_target (engine tr)) toks = Some tok /\
    let k := byteLength (substring0 (stringBuffer (engine tr1))
                           (Spec.boundary (insertToEnd (engine tr)) tok)) in
    concat (released tr) ++ concat (buffers (engine tr1)) =
      insert_at k (insertionChunk (engine tr)) (concat (accepted tr) ++ data) /\
    0 <= k <= blen (concat (accepted tr) ++ data) /\
    len (engine tr1) = total_len (buffers (engine tr1)) /\
    shouldParseHtml (engine tr1) = false /\
    (writableOffset (engine tr1) = 0 \/
     0 <= writableOffset (engine tr1) - writtenOffset (engine tr1)
       <= total_len (buffers (engine tr1))) /\
    config (engine tr1) = config (engine tr).
Proof.
  intros Hoff Hq Hun Hp tr1 Hem Hended Hloc.
  pose proof (accept_offsets tr last data encoding isLast toks Hoff Hem
                (tokens_located_in_order _ _ _ Hloc)) as Hoff1.
  fold tr1 in Hoff1.
  destruct (internalWrite_splice (engine tr) (accepted_bytes tr) last data encoding isLast toks
              Hun Hoff Hem Hended Hloc)
    as (d & s & tok & w & Hne & Hdec & Hfind & Heq & Hwritten & Hse).
  pose proof (after_decode_offsets _ _ _ data d s _ Hoff Hdec) as Hoff3.
  destruct Hq as (Hlen & Hcat & Hrel).
  set (st := engine tr) in *. set (st3 := after_decode st data d s) in *.
  assert (Hst1 : engine tr1 = onTag (set_writableOffset w st3) tok) by exact Heq.
  assert (Htarget : is_target st3 tok = true).
  { apply List.find_some in Hfind as [_ Ht]. exact Ht. }
  assert (Hsb3 : stringBuffer st3 = stringBuffer st ++ s) by reflexivity.
  assert (Htotal : accepted_bytes tr = writtenOffset st + total_len (buffers st)).
  { unfold accepted_bytes, total_len at 1. rewrite <- Hcat, blen_app. fold (total_len (released tr)).
    fold (total_len (buffers st)). lia. }
  set (b := Spec.boundary (insertToEnd st) tok).
  assert (Hb : startOffset tok <= b <= endOffset tok)
    by (subst b; unfold Spec.boundary; destruct (insertToEnd st); lia).
  assert (Hidx_eq : insertionIndex st3 tok
                    = byteLength (substring0 (stringBuffer st ++ s) b) - writtenOffset st)
    by reflexivity.
  pose proof (byteLength_substring0_mono (stringBuffer st ++ s) (startOffset tok) b ltac:(lia)).
  pose proof (byteLength_substring0_le (stringBuffer st ++ s) b).
  destruct Hoff3 as (Hd3 & Hlen3 & _).
  pose proof (pending_nonneg _ Hd3). rewrite Hsb3 in Hlen3.
  assert (Hbufs3 : total_len (buffers st3) = total_len (buffers st) + blen data)
    by (apply total_len_snoc).
  assert (Hidx : 0 <= insertionIndex st3 tok <= total_len (buffers st3)) by lia.
  destruct (onTag_queue st3 tok w Htarget) as (Hq1 & Hlen1 & Hhtml1 & Hended1 & Hsb1 & Hwr1 & Hwa1 & _ & Hcfg1).
  { subst st3. unfold after_decode. cbn [buffers set_parserInput set_stringBuffer
      set_utf8Decoder set_buffers]. destruct (buffers st); discriminate. }
  { change (len st3) with (len st + blen data). lia. }
  { exact Hp. }
  { exact Hidx. }
  rewrite <- Hst1 in Hq1, Hlen1, Hhtml1, Hended1, Hsb1, Hwr1, Hwa1, Hcfg1.
  exists tok. split; [exact Hfind|].
  cbv zeta. rewrite Hsb1, Hsb3. fold b.
  assert (Hk : byteLength (substring0 (stringBuffer st ++ s) b)
               = blen (concat (released tr)) + insertionIndex st3 tok).
  { rewrite Hidx_eq. fold (total_len (released tr)). lia. }
  repeat split.
  - rewrite Hq1, Hk.
    change (insertionChunk st3) with (insertionChunk st).
    change (buffers st3) with (buffers st ++ [data]).
    rewrite concat_app. cbn [concat]. rewrite app_nil_r.
    rewrite <- Hcat, <- app_assoc.
    symmetry. apply insert_at_app_l. lia.
  - apply byteLength_nonneg.
  - rewrite blen_app. fold (total_len (accepted tr)). fold (accepted_bytes tr). lia.
  - exact Hlen1.
  - exact Hhtml1.
  - destruct Hoff1 as (Hd1 & Hbl1 & Hlast1 & Hw0 & Hwr & Hwa & Hidle).
    destruct (Z.eq_dec (writableOffset (engine tr1)) 0) as [Hz | Hnz]; [left; exact Hz|].
    right.
    pose proof (byteLength_substring0_le (stringBuffer (engine tr1))
                  (last_end last toks)).
    pose proof (pending_nonneg _ Hd1).
    assert (Hacc1 : accepted_bytes tr1 = accepted_bytes tr + blen data).
    { unfold tr1, accept, accepted_bytes. cbn [accepted].
      destruct (internalWrite_no_error _ _ _ _ _ Hem) as [-> _].
      apply total_len_snoc. }
    assert (Htl : total_len (buffers (engine tr1)) = total_len (buffers st3) + blen (insertionChunk st)).
    { unfold total_len at 1. rewrite Hq1, blen_insert_at. reflexivity. }
    pose proof (blen_nonneg (insertionChunk st)).
    change (writtenOffset st3) with (writtenOffset st) in Hwr1.
    lia.
  - exact Hcfg1.
Qed.

End InsertionFacts.

Module SpliceBodyFacts.
Import Buf JsStr Engine Js Response Body Run Inv BufFacts JsStrFacts RunFacts BodyFacts
  InsertionFacts.

Section Insertion.

Variable inspect : HeaderValue -> string.

(** *** Errors on the response only accumulate *)

Lemma originalEnd_frame (r : Response) (data : option Buffer) :
  errors (originalEnd r data) = errors r /\ parser (originalEnd r data) = parser r /\
  headers (originalEnd r data) = headers r.
Proof. unfold originalEnd. destruct (finished r); auto. Qed.

Lemma originalWrite_frame (r : Response) (data : Buffer) :
  errors (originalWrite r data) = errors r /\ parser (originalWrite r data) = parser r /\
  headers (originalWrite r data) = headers r.
Proof. unfold originalWrite. destruct (finished r); auto. Qed.

Lemma emit_error_frame (r : Response) (e : ResError) :
  errors (emit_error inspect r e) = errors r ++ [e] /\
  parser (emit_error inspect r e) = parser r.
Proof.
  unfold emit_error. cbn [listener set_errors restoreOriginalMethods set_endImpl
    set_writeImpl set_setHeaderImpl].
  destruct (listener r); [auto|].
  match goal with |- context [originalEnd ?x ?d] =>
    destruct (originalEnd_frame x d) as (-> & -> & _) end. auto.
Qed.

Lemma fold_emit_errors (l : list EngineError) (r : Response) :
  errors (fold_left (fun acc e => emit_error inspect acc (ParserError e)) l r)
    = errors r ++ map ParserError l /\
  parser (fold_left (fun acc e => emit_error inspect acc (ParserError e)) l r) = parser r.
Proof.
  revert r. induction l as [|e l IH]; intros r; cbn [fold_left map].
  - rewrite app_nil_r. auto.
  - destruct (IH (emit_error inspect r (ParserError e))) as [-> ->].
    destruct (emit_error_frame r (ParserError e)) as [-> ->].
    rewrite <- app_assoc. auto.
Qed.

(** The errors of one parser call as they reach the response. *)
Lemma forwarded (r : Response) (p : Engine) (l : list EngineError) :
  emitted p = emitted (parser r) ++ l ->
  errors (forward_errors inspect (length (emitted (parser r))) (set_parser p r))
    = errors r ++ map ParserError l /\
  parser (forward_errors inspect (length (emitted (parser r))) (set_parser p r)) = p.
Proof.
  intros Hp. unfold forward_errors. cbn [parser set_parser]. rewrite Hp.
  rewrite drop_app_length. apply (fold_emit_errors l (set_parser p r)).
Qed.

Lemma map_ParserError_nil (l : list EngineError) : map ParserError l = [] -> l = [].
Proof. destruct l; [reflexivity | discriminate]. Qed.

Lemma write_fn_errors (r : Response) (data : Buffer) (encoding : EncodingArg)
    (toks : list Token) :
  exists l,
    errors (write_fn inspect r data encoding toks) = errors r ++ map ParserError l /\
    (shouldParseHtml (parser r) = true ->
     emitted (write (parser r) data encoding toks).1 = emitted (parser r) ++ l).
Proof.
  unfold write_fn. destruct (shouldParseHtml (parser r)).
  - destruct (internalWrite_emitted (parser r) data encoding false toks) as [l Hl].
    exists l. split; [|intros _; exact Hl].
    destruct (forwarded r (write (parser r) data encoding toks).1 l Hl) as [Herr Hp].
    destruct (write (parser r) data encoding toks) as [p1 c]. cbn [fst] in Herr, Hp.
    destruct c; [|exact Herr].
    destruct (getWritableBuffer _) as [p2 out].
    destruct (negb (blen out =? 0)).
    + match goal with |- context [originalWrite ?x ?d] =>
        destruct (originalWrite_frame x d) as (-> & _) end. exact Herr.
    + exact Herr.
  - exists []. split; [|discriminate].
    match goal with |- context [originalWrite ?x ?d] =>
      destruct (originalWrite_frame x d) as (-> & _) end.
    cbn. rewrite app_nil_r. reflexivity.
Qed.

Lemma res_write_errors (r : Response) (data : Buffer) (encoding : EncodingArg)
    (toks : list Token) :
  exists l, errors (res_write inspect r data encoding toks) = errors r ++ l.
Proof.
  unfold res_write. destruct (writeImpl r).
  - cbn [parser set_headersSent set_setHeaderImpl].
    destruct (negb (shouldParseHtml (parser r))).
    + match goal with |- context [originalWrite ?x ?d] =>
        destruct (originalWrite_frame x d) as (-> & _) end.
      exists []. cbn. rewrite app_nil_r. reflexivity.
    + match goal with |- context [write_fn inspect ?x _ _ _] =>
        destruct (write_fn_errors x data encoding toks) as (l & -> & _) end.
      eexists. reflexivity.
  - destruct (write_fn_errors r data encoding toks) as (l & -> & _). eexists. reflexivity.
  - destruct (originalWrite_frame r data) as (-> & _).
    exists []. rewrite app_nil_r. reflexivity.
Qed.

Lemma res_end_errors (r : Response) (data : option Buffer) (encoding : EncodingArg)
    (toks : list Token) :
  exists l,
    errors (res_end inspect r data encoding toks) = errors r ++ map ParserError l /\
    (endImpl r = EndPatched -> shouldParseHtml (parser r) = true ->
     emitted (writeLast (removeAnyTokenListeners (parser r)) (default [] data) encoding toks).1
       = emitted (parser r) ++ l).
Proof.
  unfold res_end. destruct (endImpl r).
  - cbn [parser set_parser restoreOriginalMethods set_endImpl set_writeImpl set_setHeaderImpl].
    change (shouldParseHtml (removeAnyTokenListeners (parser r)))
      with (shouldParseHtml (parser r)).
    change (buffers (removeAnyTokenListeners (parser r))) with (buffers (parser r)).
    change (emitted (removeAnyTokenListeners (parser r))) with (emitted (parser r)).
    destruct (shouldParseHtml (parser r)) eqn:Hhtml.
    + rewrite andb_false_r.
      destruct (internalWrite_emitted (removeAnyTokenListeners (parser r))
                  (default [] data) encoding true toks) as [l Hl].
      exists l. split; [|intros _ _; exact Hl].
      set (r2 := set_parser (removeAnyTokenListeners (parser r))
                   (set_endImpl EndOriginal (set_writeImpl WriteOriginal
                      (set_setHeaderImpl SetHeaderOriginal r)))).
      assert (Hl2 : emitted (writeLast (removeAnyTokenListeners (parser r))
                               (default [] data) encoding toks).1
                    = emitted (parser r2) ++ l) by exact Hl.
      destruct (forwarded r2 _ l Hl2) as [Herr Hp].
      change (length (emitted (parser r)))
        with (length (emitted (parser r2))).
      change (set_parser (removeAnyTokenListeners (parser r))
                (set_endImpl EndOriginal (set_writeImpl WriteOriginal
                   (set_setHeaderImpl SetHeaderOriginal r))))
        with r2.
      destruct (writeLast (removeAnyTokenListeners (parser r)) (default [] data)
                  encoding toks) as [p3 c].
      cbn [fst] in Herr, Hp. destruct c; [|exact Herr].
      destruct (flush _) as [p4 flushed]. cbn [errors set_parserDestroyed].
      match goal with |- context [originalEnd ?x ?d] =>
        destruct (originalEnd_frame x d) as (-> & _) end.
      cbn [errors set_parser]. exact Herr.
    + exists []. split; [|discriminate]. cbn [map]. rewrite app_nil_r.
      destruct (bool_decide (buffers (parser r) = [])); cbn [andb negb].
      * match goal with |- context [originalEnd ?x ?d] =>
          destruct (originalEnd_frame x d) as (-> & _) end. reflexivity.
      * unfold forward_errors. cbn [parser set_parser].
        assert (Hpush : emitted (push (removeAnyTokenListeners (parser r)) (default [] data)).1
                        = emitted (parser r)).
        { unfold push. destruct (blen (default [] data) =? 0); reflexivity. }
        rewrite Hpush, drop_all. cbn [fold_left].
        destruct (flush _) as [p4 flushed]. cbn [errors set_parserDestroyed].
        match goal with |- context [originalEnd ?x ?d] =>
          destruct (originalEnd_frame x d) as (-> & _) end. reflexivity.
  - destruct (originalEnd_frame r data) as (-> & _).
    exists []. split; [|discriminate]. cbn. rewrite app_nil_r. reflexivity.
Qed.

Lemma body_step_errors (r : Response) (op : BodyOp) :
  exists l, errors (body_step inspect r op) = errors r ++ l.
Proof.
  destruct op as [data enc toks | data enc toks]; cbn [body_step].
  - apply res_write_errors.
  - destruct (res_end_errors r data enc toks) as (l & -> & _). eexists. reflexivity.
Qed.

Lemma body_run_errors (ops : list BodyOp) (r : Response) :
  exists l, errors (body_run inspect r ops) = errors r ++ l.
Proof.
  revert r. induction ops as [|op ops IH]; intros r; cbn [body_run fold_left].
  - exists []. rewrite app_nil_r. reflexivity.
  - destruct (IH (body_step inspect r op)) as [l2 Hl2].
    unfold body_run in Hl2. rewrite Hl2.
    destruct (body_step_errors r op) as [l1 ->].
    exists (l1 ++ l2). rewrite app_assoc. reflexivity.
Qed.

Lemma body_no_error_split (op : BodyOp) (ops : list BodyOp) (r : Response) :
  errors (body_run inspect r (op :: ops)) = errors r ->
  errors (body_step inspect r op) = errors r /\
  errors (body_run inspect (body_step inspect r op) ops) = errors (body_step inspect r op).
Proof.
  cbn [body_run fold_left].
  destruct (body_run_errors ops (body_step inspect r op)) as [l2 H2].
  unfold body_run in H2. rewrite H2.
  destruct (body_step_errors r op) as [l1 H1]. rewrite H1, <- app_assoc.
  intros H. apply app_not_self in H. apply app_eq_nil in H as [-> ->].
  rewrite !app_nil_r in *. split; [reflexivity|].
  unfold body_run. congruence.
Qed.

(** *** The call that meets the target *)

Lemma res_write_is_write_fn (r0 r : Response) (tr : Trace) (data : Buffer)
    (encoding : EncodingArg) (toks : list Token) :
  in_step r0 r tr ->
  exists r', res_write inspect r data encoding toks = write_fn inspect r' data encoding toks /\
             in_step r0 r' tr /\ writeImpl r' = WriteParsing /\ errors r' = errors r.
Proof.
  intros Hin. pose proof Hin as (Hp & Hhtml & Hdel & Hhead & Herr & Hfin & Hend & Hwimpl).
  unfold res_write. destruct Hwimpl as [Hw | Hw]; rewrite Hw.
  - cbn [parser set_headersSent set_setHeaderImpl]. rewrite Hp, Hhtml. cbn [negb].
    eexists. split; [reflexivity|]. split; [|split; reflexivity].
    unfold in_step. cbn. repeat split; auto.
  - exists r. repeat split; auto.
Qed.

Lemma res_write_no_error (r0 r : Response) (tr : Trace) (data : Buffer)
    (encoding : EncodingArg) (toks : list Token) :
  in_step r0 r tr ->
  errors (res_write inspect r data encoding toks) = errors r ->
  emitted (engine (step tr (Write data encoding toks))) = emitted (engine tr).
Proof.
  intros Hin Herr.
  destruct (res_write_is_write_fn r0 r tr data encoding toks Hin)
    as (r' & Heq & Hin' & _ & Herr').
  destruct Hin' as (Hp & Hhtml & _).
  destruct (write_fn_errors r' data encoding toks) as (l & Hl & Hem).
  rewrite Heq, Hl, Herr' in Herr. apply app_not_self, map_ParserError_nil in Herr. subst l.
  rewrite Hp in Hem. specialize (Hem Hhtml). rewrite app_nil_r in Hem. exact Hem.
Qed.

Lemma res_end_no_error (r0 r : Response) (tr : Trace) (data : option Buffer)
    (encoding : EncodingArg) (toks : list Token) :
  in_step r0 r tr ->
  errors (res_end inspect r data encoding toks) = errors r ->
  emitted (engine (run tr [RemoveAnyTokenListeners; WriteLast (default [] data) encoding toks]))
    = emitted (engine tr).
Proof.
  intros (Hp & Hhtml & _ & _ & _ & _ & Hend & _) Herr.
  destruct (res_end_errors r data encoding toks) as (l & Hl & Hem).
  rewrite Hl in Herr. apply app_not_self, map_ParserError_nil in Herr. subst l.
  rewrite Hp in Hem. specialize (Hem Hend Hhtml). rewrite app_nil_r in Hem. exact Hem.
Qed.

Lemma config_fields (st st' : Engine) :
  config st' = config st ->
  targetTagName st' = targetTagName st /\ insertionChunk st' = insertionChunk st /\
  insertToEnd st' = insertToEnd st /\ insertionLength st' = insertionLength st.
Proof. unfold config. intros H. injection H as -> -> -> ->. auto. Qed.

Lemma write_fn_splice (r0 r : Response) (tr : Trace) (last : Z) (data : Buffer)
    (encoding : EncodingArg) (toks : list Token) :
  in_step r0 r tr -> writeImpl r = WriteParsing ->
  offsets_ok tr last -> queue_ok tr -> unspliced (engine tr) ->
  insertionLength (engine tr) = blen (insertionChunk (engine tr)) ->
  let tr1 := step tr (Write data encoding toks) in
  emitted (engine tr1) = emitted (engine tr) ->
  ended (engine tr1) = true ->
  tokens_located last toks (text_length (engine tr1)) ->
  exists tok,
    List.find (is_target (engine tr)) toks = Some tok /\
    insertionChunk (parser (write_fn inspect r data encoding toks)) = insertionChunk (engine tr) /\
    after_splice r0 (write_fn inspect r data encoding toks)
      (byteLength (substring0 (stringBuffer (engine tr1))
                     (Spec.boundary (insertToEnd (engine tr)) tok)))
      (concat (accepted tr) ++ data) (stringBuffer (engine tr1)).
Proof.
  intros (Hp & Hhtml & Hdel & Hhead & Herr & Hfin & Hend & _) Hw Hoff Hq Hun Hlen tr1
    Hem Hended Hloc.
  destruct (accept_splice tr last data encoding false toks Hoff Hq Hun Hlen Hem Hended Hloc)
    as (tok & Hfind & Hcat & Hk & Hlen1 & Hhtml1 & Hwritable & Hcfg).
  change (accept tr data encoding false toks) with tr1 in Hcat, Hk, Hlen1, Hhtml1, Hwritable, Hcfg.
  exists tok. split; [exact Hfind|].
  destruct (getWritableBuffer_keeps_queue (engine tr1) Hlen1 Hwritable)
    as (Hout & Hlen2 & Hhtml2 & Hended2 & Hsb2 & _ & Hcfg2).
  rewrite write_fn_returns;
    [| rewrite Hp; exact Hhtml
     | rewrite Hp; apply internalWrite_returns; exact Hem ].
  cbv zeta. rewrite Hp.
  assert (Hwrite : (write (engine tr) data encoding toks).1 = engine tr1) by reflexivity.
  rewrite Hwrite.
  rewrite forward_errors_none.
  2:{ cbn [parser set_parser]. rewrite Hem. apply drop_all. }
  cbn [parser set_parser].
  destruct (getWritableBuffer (engine tr1)) as [p2 out]. cbn [fst snd] in *.
  destruct (config_fields _ _ Hcfg) as (_ & Hchunk1 & _ & _).
  destruct (config_fields _ _ Hcfg2) as (_ & Hchunk2 & _ & _).
  assert (Hshared : forall r', parser r' = p2 ->
            delivered r' = delivered r ++ out ->
            headers r' = headers r0 -> errors r' = errors r0 -> finished r' = false ->
            endImpl r' = EndPatched -> writeImpl r' = WriteParsing ->
            insertionChunk (parser r') = insertionChunk (engine tr) /\
            after_splice r0 r'
              (byteLength (substring0 (stringBuffer (engine tr1))
                             (Spec.boundary (insertToEnd (engine tr)) tok)))
              (concat (accepted tr) ++ data) (stringBuffer (engine tr1))).
  { intros r' Hp' Hdel' ? ? ? ? ?.
    assert (Hc : insertionChunk (parser r') = insertionChunk (engine tr)) by congruence.
    split; [exact Hc|].
    unfold after_splice. rewrite Hc, Hp', Hdel', Hdel.
    repeat split; try assumption; try congruence; try apply Hk.
    rewrite <- !app_assoc. rewrite Hout. rewrite Hcat. reflexivity. }
  destruct (blen out =? 0) eqn:Hzero; cbn [negb].
  - apply Hshared; try assumption; try reflexivity.
    assert (out = []) as -> by (destruct out; [reflexivity | unfold blen in Hzero; simpl in Hzero; lia]).
    cbn [set_parser delivered wire]. unfold delivered. cbn. rewrite app_nil_r. reflexivity.
  - unfold originalWrite. cbn [finished set_parser]. rewrite Hfin.
    apply Hshared; try assumption; try reflexivity.
    unfold delivered. cbn [wire set_headersSent set_wire set_parser].
    rewrite concat_app. cbn. rewrite app_nil_r. reflexivity.
Qed.

Lemma flush_concat (st : Engine) :
  len st = total_len (buffers st) ->
  (flush st).2 = concat (buffers st) /\
  stringBuffer (flush st).1 = stringBuffer st /\ ended (flush st).1 = ended st.
Proof.
  intros Hlen. unfold flush. rewrite Hlen.
  destruct (buffers st) as [|b [|b' q]]; cbn [fst snd]; repeat split.
  - simpl. rewrite app_nil_r. reflexivity.
  - apply (concat_total_all (b :: b' :: q)).
Qed.

Lemma res_end_splice (r0 r : Response) (tr : Trace) (last : Z) (data : option Buffer)
    (encoding : EncodingArg) (toks : list Token) :
  in_step r0 r tr ->
  offsets_ok tr last -> queue_ok tr -> unspliced (engine tr) ->
  insertionLength (engine tr) = blen (insertionChunk (engine tr)) ->
  let tr1 := run tr [RemoveAnyTokenListeners; WriteLast (default [] data) encoding toks] in
  emitted (engine tr1) = emitted (engine tr) ->
  ended (engine tr1) = true ->
  tokens_located last toks (text_length (engine tr1)) ->
  let r' := res_end inspect r data encoding toks in
  exists tok,
    List.find (is_target (engine tr)) toks = Some tok /\
    delivered r' = delivered r0 ++
      insert_at (byteLength (substring0 (stringBuffer (parser r'))
                               (Spec.boundary (insertToEnd (engine tr)) tok)))
        (insertionChunk (engine tr)) (concat (accepted tr) ++ default [] data) /\
    headers r' = headers r0 /\ errors r' = errors r0.
Proof.
  intros (Hp & Hhtml & Hdel & Hhead & Herr & Hfin & Hend & _) Hoff Hq Hun Hlen tr1
    Hem Hended Hloc r'.
  set (tr0 := step tr RemoveAnyTokenListeners).
  assert (Hoff0 : offsets_ok tr0 last) by exact Hoff.
  assert (Hq0 : queue_ok tr0) by exact Hq.
  assert (Hun0 : unspliced (engine tr0)) by exact Hun.
  assert (Hlen0 : insertionLength (engine tr0) = blen (insertionChunk (engine tr0))) by exact Hlen.
  assert (Htr1 : tr1 = accept tr0 (default [] data) encoding true toks) by reflexivity.
  rewrite Htr1 in Hem, Hended, Hloc.
  destruct (accept_splice tr0 last (default [] data) encoding true toks
              Hoff0 Hq0 Hun0 Hlen0 Hem Hended Hloc)
    as (tok & Hfind & Hcat & Hk & Hlen1 & Hhtml1 & _ & Hcfg).
  rewrite <- Htr1 in Hcat, Hlen1, Hhtml1, Hcfg, Hem.
  exists tok. split; [exact Hfind|].
  destruct (flush_concat (engine tr1) Hlen1) as (Hflush & Hsb & _).
  subst r'.
  rewrite res_end_returns;
    [| exact Hend
     | intros _; cbn [parser set_parser restoreOriginalMethods set_endImpl set_writeImpl
                      set_setHeaderImpl];
       rewrite Hp; unfold writeLast; apply internalWrite_returns; exact Hem ].
  cbv zeta.
  cbn [parser set_parser restoreOriginalMethods set_endImpl set_writeImpl set_setHeaderImpl].
  rewrite Hp.
  assert (Hcond : shouldParseHtml (removeAnyTokenListeners (engine tr)) = true) by exact Hhtml.
  rewrite Hcond, andb_false_r.
  assert (Hlast : (writeLast (removeAnyTokenListeners (engine tr)) (default [] data) encoding toks).1
                  = engine tr1) by reflexivity.
  rewrite Hlast.
  rewrite forward_errors_none.
  2:{ cbn [parser set_parser]. rewrite Hem. apply drop_all. }
  cbn [parser set_parser].
  destruct (flush (engine tr1)) as [p4 flushed]. cbn [fst snd] in *. subst flushed.
  unfold originalEnd, restoreOriginalMethods.
  cbn [finished set_parser set_endImpl set_writeImpl set_setHeaderImpl].
  rewrite Hfin.
  cbn [parser delivered wire headers errors set_parserDestroyed set_finished set_headersSent
    set_wire set_parser set_endImpl set_writeImpl set_setHeaderImpl].
  rewrite Hsb. repeat split; try assumption.
  unfold delivered in *. cbn [wire set_parserDestroyed set_finished set_headersSent set_wire].
  rewrite concat_app, Hdel. cbn [concat]. rewrite app_nil_r, <- app_assoc.
  f_equal. exact Hcat.
Qed.

(** *** After the splice *)

Lemma original_run_parser (ops : list BodyOp) (r : Response) :
  writeImpl r = WriteOriginal -> endImpl r = EndOriginal ->
  parser (body_run inspect r ops) = parser r.
Proof.
  revert r. induction ops as [|op ops IH]; intros r Hw He; [reflexivity|].
  cbn [body_run fold_left].
  assert (Hstep : parser (body_step inspect r op) = parser r /\
                  writeImpl (body_step inspect r op) = WriteOriginal /\
                  endImpl (body_step inspect r op) = EndOriginal).
  { destruct op as [data enc toks | data enc toks]; cbn [body_step].
    - unfold res_write, originalWrite. rewrite Hw. destruct (finished r); auto.
    - unfold res_end, originalEnd. rewrite He. destruct (finished r); auto. }
  destruct Hstep as (Hp & Hw' & He').
  transitivity (parser (body_step inspect r op)); [|exact Hp].
  apply (IH (body_step inspect r op) Hw' He').
Qed.

Lemma after_splice_body (r0 r : Response) (k : Z) (acc : Buffer) (text : jsstring)
    (data : option Buffer) (encoding : EncodingArg) (toks : list Token)
    (writes : list (Buffer * EncodingArg * list Token)) :
  after_splice r0 r k acc text ->
  let ops := writes_then_end writes data encoding toks in
  let r' := body_run inspect r ops in
  delivered r' = delivered r0 ++ insert_at k (insertionChunk (parser r)) (acc ++ body_input ops) /\
  headers r' = headers r0 /\ errors r' = errors r0 /\
  stringBuffer (parser r') = text /\ ended (parser r') = true.
Proof.
  intros (Hdel & Hlen & Hhtml & Hended & Hsb & Hk & Hhead & Herr & Hfin & Hend & Hw).
  destruct writes as [|[[wdata wenc] wtoks] writes].
  - cbn [writes_then_end map app body_run fold_left body_step].
    unfold body_input. cbn [map chunk_of concat]. rewrite app_nil_r.
    rewrite insert_at_app_r by exact Hk. rewrite app_assoc, <- Hdel.
    unfold res_end. rewrite Hend.
    unfold restoreOriginalMethods.
    cbn [parser set_parser set_endImpl set_writeImpl set_setHeaderImpl].
    change (shouldParseHtml (removeAnyTokenListeners (parser r)))
      with (shouldParseHtml (parser r)).
    change (buffers (removeAnyTokenListeners (parser r))) with (buffers (parser r)).
    rewrite Hhtml. cbn [negb]. rewrite andb_true_r.
    destruct (bool_decide (buffers (parser r) = [])) eqn:Hempty.
    + apply bool_decide_eq_true_1 in Hempty. rewrite Hempty.
      unfold originalEnd. cbn [finished set_parserDestroyed set_parser set_endImpl
        set_writeImpl set_setHeaderImpl]. rewrite Hfin.
      cbn [parser delivered wire headers errors set_parserDestroyed set_finished
        set_headersSent set_wire set_parser set_endImpl set_writeImpl set_setHeaderImpl
        stringBuffer ended removeAnyTokenListeners set_anyTokenListeners].
      repeat split; try assumption.
      unfold delivered. cbn [wire set_finished set_headersSent set_wire].
      rewrite concat_app. cbn [concat]. rewrite !app_nil_r.
      destruct data; cbn; rewrite ?app_nil_r; reflexivity.
    + unfold forward_errors. cbn [parser set_parser].
      set (p := removeAnyTokenListeners (parser r)).
      assert (Hpush : emitted (push p (default [] data)).1 = emitted p /\
                      len (push p (default [] data)).1
                        = total_len (buffers (push p (default [] data)).1) /\
                      concat (buffers (push p (default [] data)).1)
                        = concat (buffers (parser r)) ++ default [] data /\
                      stringBuffer (push p (default [] data)).1 = stringBuffer (parser r) /\
                      ended (push p (default [] data)).1 = ended (parser r)).
      { unfold push. destruct (blen (default [] data) =? 0) eqn:Hz; cbn [fst].
        - assert (default [] data = []) as ->
            by (destruct (default [] data); [reflexivity | unfold blen in Hz; simpl in Hz; lia]).
          rewrite app_nil_r. repeat split. exact Hlen.
        - cbn. rewrite total_len_snoc, concat_app. cbn. rewrite app_nil_r.
          repeat split. change (len p) with (len (parser r)). rewrite Hlen. reflexivity. }
      destruct Hpush as (Hem & Hlen3 & Hcat3 & Hsb3 & Hended3).
      rewrite Hem, drop_all. cbn [fold_left parser set_parser].
      destruct (flush_concat _ Hlen3) as (Hflush & Hsb4 & Hended4).
      destruct (flush (push p (default [] data)).1) as [p4 flushed]. cbn [fst snd] in *.
      subst flushed.
      unfold originalEnd. cbn [finished set_parser set_endImpl set_writeImpl set_setHeaderImpl].
      rewrite Hfin.
      cbn [parser delivered wire headers errors set_parserDestroyed set_finished
        set_headersSent set_wire set_parser set_endImpl set_writeImpl set_setHeaderImpl].
      repeat split; try assumption; try congruence.
      unfold delivered. cbn [wire set_parserDestroyed set_finished set_headersSent set_wire].
      rewrite concat_app. cbn [concat]. rewrite app_nil_r, Hcat3, app_assoc. reflexivity.
  - cbn [writes_then_end map app body_run fold_left body_step fst snd].
    fold (writes_then_end writes data encoding toks).
    fold (body_run inspect (res_write inspect r wdata wenc wtoks)
            (writes_then_end writes data encoding toks)).
    set (r1 := set_headersSent true
                 (set_wire (wire r ++ [concat (buffers (parser r)) ++ wdata])
                    (set_parser (set_buffers [] (parser r)) (restoreOriginalMethods r)))).
    assert (Hstep : res_write inspect r wdata wenc wtoks = r1).
    { unfold res_write. rewrite Hw. unfold write_fn. rewrite Hhtml.
      unfold originalWrite. cbn [finished set_parser restoreOriginalMethods set_endImpl
        set_writeImpl set_setHeaderImpl parser]. rewrite Hfin.
      subst r1. f_equal. f_equal. f_equal. f_equal.
      rewrite Hlen, <- total_len_snoc, concat_total_all, concat_app. cbn.
      rewrite app_nil_r. reflexivity. }
    rewrite Hstep.
    destruct (original_body inspect data encoding toks writes r1 eq_refl eq_refl Hfin)
      as (Hdel1 & Hhead1 & Herr1).
    pose proof (original_run_parser (writes_then_end writes data encoding toks) r1
                  eq_refl eq_refl) as Hparser.
    rewrite Hparser.
    assert (Hb : body_input (ResWrite wdata wenc wtoks :: writes_then_end writes data encoding toks)
                 = wdata ++ body_input (writes_then_end writes data encoding toks))
      by reflexivity.
    assert (Hd1 : delivered r1 = delivered r0 ++ insert_at k (insertionChunk (parser r)) acc ++ wdata).
    { unfold delivered, r1. cbn [wire set_headersSent set_wire].
      rewrite concat_app. cbn [concat]. rewrite app_nil_r.
      fold (delivered r). fold (delivered r0). rewrite !app_assoc. rewrite Hdel. reflexivity. }
    split; [|split; [|split; [|split]]].
    + rewrite Hdel1, Hd1, Hb. rewrite insert_at_app_r by exact Hk.
      rewrite <- !app_assoc. reflexivity.
    + rewrite Hhead1. exact Hhead.
    + rewrite Herr1. exact Herr.
    + exact Hsb.
    + exact Hended.
Qed.

(** *** The whole body *)

Lemma accept_unspliced (tr : Trace) (data : Buffer) (encoding : EncodingArg)
    (isLast : bool) (toks : list Token) :
  unspliced (engine tr) ->
  emitted (engine (accept tr data encoding isLast toks)) = emitted (engine tr) ->
  ended (engine (accept tr data encoding isLast toks)) = false ->
  unspliced (engine (accept tr data encoding isLast toks)) /\
  (data <> [] -> List.find (is_target (engine tr)) toks = None).
Proof.
  intros Hun Hem Hended. cbn [accept engine] in *.
  destruct (internalWrite_no_error _ _ _ _ _ Hem) as [_ Hcases].
  destruct Hcases as [[-> Heq] | (Hne & _ & d & s & Hdec & Heq)]; rewrite Heq in *.
  - split; [exact Hun | intros H; contradiction].
  - assert (Hun3 : unspliced (after_decode (engine tr) data d s)) by exact Hun.
    destruct (emit_tokens_none toks _ Hun3 Hended) as [Hun' Hfind].
    split; [exact Hun' | intros _; exact Hfind].
Qed.

Lemma getWritableBuffer_unspliced (tr : Trace) :
  unspliced (engine tr) -> unspliced (engine (step tr GetWritableBuffer)) /\
  config (engine (step tr GetWritableBuffer)) = config (engine tr).
Proof.
  intros (Hl & Hs & He). cbn [step].
  destruct (getWritableBuffer_config (engine tr)) as (Hc & Hl' & Hs').
  destruct (getWritableBuffer_frame (engine tr)) as (_ & He' & _).
  destruct (getWritableBuffer (engine tr)) as [st out]. cbn [fst engine] in *.
  unfold unspliced. repeat split; congruence.
Qed.

Lemma drop_all_eq {A} (l l' : list A) : l' = l -> drop (length l) l' = [].
Proof. intros ->. apply drop_all. Qed.

Lemma find_app_none {A} (f : A -> bool) (l k : list A) :
  List.find f l = None -> List.find f (l ++ k) = List.find f k.
Proof.
  induction l as [|x l IH]; simpl; [reflexivity|].
  destruct (f x); [discriminate | exact IH].
Qed.

Lemma find_app_some {A} (f : A -> bool) (l k : list A) (x : A) :
  List.find f l = Some x -> List.find f (l ++ k) = Some x.
Proof.
  induction l as [|y l IH]; simpl; [discriminate|].
  destruct (f y); [auto | exact IH].
Qed.

Lemma flush_fields (st : Engine) :
  stringBuffer (flush st).1 = stringBuffer st /\ ended (flush st).1 = ended st.
Proof. unfold flush. destruct (buffers st) as [|b [|b' q]]; auto. Qed.

Lemma res_end_parser (r : Response) (data : option Buffer) (encoding : EncodingArg)
    (toks : list Token) :
  endImpl r = EndPatched -> shouldParseHtml (parser r) = true ->
  emitted (writeLast (removeAnyTokenListeners (parser r)) (default [] data) encoding toks).1
    = emitted (parser r) ->
  parser (res_end inspect r data encoding toks) =
    (flush (writeLast (removeAnyTokenListeners (parser r)) (default [] data) encoding toks).1).1.
Proof.
  intros Hend Hhtml Hem.
  rewrite res_end_returns;
    [| exact Hend
     | intros _; unfold writeLast; apply internalWrite_returns; exact Hem ].
  cbv zeta. unfold restoreOriginalMethods.
  cbn [parser set_parser set_endImpl set_writeImpl set_setHeaderImpl].
  change (shouldParseHtml (removeAnyTokenListeners (parser r)))
    with (shouldParseHtml (parser r)).
  rewrite Hhtml, andb_false_r.
  rewrite forward_errors_none.
  2:{ cbn [parser set_parser]. apply drop_all_eq. exact Hem. }
  cbn [parser set_parser].
  destruct (flush _) as [p4 flushed]. cbn [parser set_parserDestroyed fst].
  match goal with |- context [originalEnd ?x ?d] =>
    destruct (originalEnd_frame x d) as (_ & -> & _) end.
  reflexivity.
Qed.

Lemma splice_body (r0 : Response) (data : option Buffer) (encoding : EncodingArg)
    (toks : list Token) (writes : list (Buffer * EncodingArg * list Token)) :
  forall (r : Response) (tr : Trace) (last : Z),
  in_step r0 r tr -> offsets_ok tr last -> queue_ok tr -> unspliced (engine tr) ->
  insertionLength (engine tr) = blen (insertionChunk (engine tr)) ->
  let ops := writes_then_end writes data encoding toks in
  body_contract inspect r last ops ->
  errors (body_run inspect r ops) = errors r ->
  ended (parser (body_run inspect r ops)) = true ->
  let r' := body_run inspect r ops in
  exists tok,
    List.find (is_target (engine tr)) (concat (map toks_of ops)) = Some tok /\
    delivered r' = delivered r0 ++
      insert_at (byteLength (substring0 (stringBuffer (parser r'))
                               (Spec.boundary (insertToEnd (engine tr)) tok)))
        (insertionChunk (engine tr)) (concat (accepted tr) ++ body_input ops) /\
    headers r' = headers r0 /\ errors r' = errors r0.
Proof.
  induction writes as [|[[wdata wenc] wtoks] writes IH];
    intros r tr last Hin Hoff Hq Hun Hlen.
  - cbn [writes_then_end map app body_contract body_run fold_left body_step toks_of concat].
    rewrite app_nil_r.
    intros (_ & Hloc & _) Herr Hended.
    pose proof (res_end_no_error r0 r tr data encoding toks Hin Herr) as Hem.
    assert (Hparser : parser (res_end inspect r data encoding toks)
                      = (flush (engine (run tr [RemoveAnyTokenListeners;
                                                WriteLast (default [] data) encoding toks]))).1).
    { destruct Hin as (Hp & Hhtml & _ & _ & _ & _ & Hend & _).
      rewrite (res_end_parser r data encoding toks Hend); rewrite Hp; auto. }
    destruct (flush_fields (engine (run tr [RemoveAnyTokenListeners;
                                            WriteLast (default [] data) encoding toks])))
      as [Hsbf Hendedf].
    assert (Hended1 : ended (engine (run tr [RemoveAnyTokenListeners;
                                             WriteLast (default [] data) encoding toks])) = true)
      by congruence.
    assert (Hloc1 : tokens_located last toks
                      (text_length (engine (run tr [RemoveAnyTokenListeners;
                                                    WriteLast (default [] data) encoding toks])))).
    { unfold text_length in *. rewrite Hparser, Hsbf in Hloc. exact Hloc. }
    unfold body_input. cbn [map chunk_of concat]. rewrite app_nil_r.
    apply (res_end_splice r0 r tr last data encoding toks Hin Hoff Hq Hun Hlen Hem Hended1 Hloc1).
  - cbn [writes_then_end map app body_contract body_run fold_left body_step toks_of concat
      fst snd chunk_of].
    fold (writes_then_end writes data encoding toks).
    set (rest := writes_then_end writes data encoding toks).
    fold (body_run inspect (res_write inspect r wdata wenc wtoks) rest).
    fold (concat (map toks_of rest)).
    intros (Hempty & Hloc & Hcontract) Herr Hended.
    assert (Herr' : errors (body_run inspect r (ResWrite wdata wenc wtoks :: rest)) = errors r)
      by exact Herr.
    destruct (body_no_error_split _ _ _ Herr') as [Herr1 Herr2].
    cbn [body_step] in Herr1, Herr2.
    pose proof (res_write_no_error r0 r tr wdata wenc wtoks Hin Herr1) as Hem1.
    set (tr1 := step tr (Write wdata wenc wtoks)) in *.
    destruct (res_write_is_write_fn r0 r tr wdata wenc wtoks Hin)
      as (rw & Heq & Hinw & Hww & Herrw).
    assert (Htext : text_length (parser (res_write inspect r wdata wenc wtoks))
                    = text_length (engine tr1)).
    { rewrite Heq. destruct Hinw as (Hp & Hhtml & _).
      rewrite write_fn_returns;
        [| rewrite Hp; exact Hhtml
         | rewrite Hp; apply internalWrite_returns; exact Hem1 ].
      cbv zeta. rewrite Hp.
      rewrite forward_errors_none.
      2:{ cbn [parser set_parser]. apply drop_all_eq. exact Hem1. }
      cbn [parser set_parser].
      change (write (engine tr) wdata wenc wtoks).1 with (engine tr1).
      destruct (getWritableBuffer_frame (engine tr1)) as (_ & _ & Hsb & _).
      destruct (getWritableBuffer (engine tr1)) as [p2 out]. cbn [fst] in Hsb.
      unfold text_length.
      destruct (negb (blen out =? 0)).
      - destruct (originalWrite_frame (set_parser p2 (set_parser (engine tr1) rw)) out)
          as (_ & -> & _). cbn [parser set_parser]. rewrite Hsb. reflexivity.
      - cbn [parser set_parser]. rewrite Hsb. reflexivity. }
    rewrite Htext in Hloc.
    destruct (ended (engine tr1)) eqn:Hended1.
    + destruct (write_fn_splice r0 rw tr last wdata wenc wtoks Hinw Hww Hoff Hq Hun Hlen
                  Hem1 Hended1 Hloc) as (tok & Hfind & Hchunk & Hafter).
      rewrite <- Heq in Hchunk, Hafter.
      destruct (after_splice_body r0 _ _ _ _ data encoding toks writes Hafter)
        as (Hdel & Hhead & Herrs & Hsb & _).
      fold rest in Hdel, Hhead, Herrs, Hsb.
      exists tok. split; [apply find_app_some; exact Hfind|].
      rewrite Hsb. rewrite Hchunk in Hdel.
      split; [|split; assumption].
      rewrite Hdel. unfold body_input. cbn [map chunk_of concat].
      rewrite <- !app_assoc. reflexivity.
    + set (tr2 := step tr1 GetWritableBuffer).
      destruct (getWritableBuffer_step_frame tr1) as (Hem2 & Hended2 & _ & _).
      fold tr2 in Hem2, Hended2.
      assert (Hemw : emitted (engine (run tr [Write wdata wenc wtoks; GetWritableBuffer]))
                     = emitted (engine tr))
        by (change (emitted (engine tr2) = emitted (engine tr)); congruence).
      assert (Hendedw : ended (engine (run tr [Write wdata wenc wtoks; GetWritableBuffer])) = false)
        by (change (ended (engine tr2) = false); congruence).
      destruct (res_write_html inspect r0 r tr wdata wenc wtoks Hin Hemw Hendedw)
        as [Hin2 Hacc2].
      change (run tr [Write wdata wenc wtoks; GetWritableBuffer]) with tr2 in Hin2, Hacc2.
      pose proof (step_offsets tr last (Write wdata wenc wtoks) Hoff Hem1
                    (tokens_located_in_order _ _ _ Hloc)) as Hoff1.
      pose proof (step_queue tr last (Write wdata wenc wtoks) Hoff Hq Hem1 Hended1) as Hq1.
      fold tr1 in Hoff1, Hq1.
      pose proof (getWritableBuffer_offsets tr1 _ Hoff1) as Hoff2.
      pose proof (getWritableBuffer_queue tr1 _ Hoff1 Hq1) as Hq2.
      fold tr2 in Hoff2, Hq2.
      destruct (accept_unspliced tr wdata wenc false wtoks Hun Hem1 Hended1) as [Hun1 Hnone].
      fold tr1 in Hun1.
      destruct (getWritableBuffer_unspliced tr1 Hun1) as [Hun2 Hcfg2].
      fold tr2 in Hun2, Hcfg2.
      assert (Hcfg1 : config (engine tr1) = config (engine tr))
        by (apply internalWrite_config).
      assert (Hcfg : config (engine tr2) = config (engine tr)) by congruence.
      destruct (config_fields _ _ Hcfg) as (_ & Hchunk & HtoEnd & Hplen).
      assert (Hlen2 : insertionLength (engine tr2) = blen (insertionChunk (engine tr2)))
        by congruence.
      destruct (IH _ _ _ Hin2 Hoff2 Hq2 Hun2 Hlen2 Hcontract Herr2 Hended)
        as (tok & Hfind & Hdel & Hhead & Herrs).
      fold rest in Hfind, Hdel, Hhead, Herrs.
      exists tok. split; [|split; [|split]].
      * assert (Hwt : List.find (is_target (engine tr)) wtoks = None).
        { destruct wdata as [|b wdata]; [rewrite (Hempty eq_refl); reflexivity|].
          apply Hnone. discriminate. }
        rewrite (find_app_none _ _ _ Hwt). rewrite <- Hfind.
        apply find_ext. intros t. symmetry. apply is_target_config. exact Hcfg.
      * rewrite Hdel, HtoEnd, Hchunk, Hacc2, concat_app.
        unfold body_input. cbn [map chunk_of concat].
        rewrite app_nil_r, <- !app_assoc. reflexivity.
      * exact Hhead.
      * rewrite Herrs. reflexivity.
Qed.

(** A body that raises no error and ends without splice: none of its
    tokens was the target, and its bytes are delivered as written. *)
Lemma plain_body (r0 : Response) (data : option Buffer) (encoding : EncodingArg)
    (toks : list Token) (writes : list (Buffer * EncodingArg * list Token)) :
  forall (r : Response) (tr : Trace) (last : Z),
  in_step r0 r tr -> offsets_ok tr last -> queue_ok tr -> unspliced (engine tr) ->
  insertionLength (engine tr) = blen (insertionChunk (engine tr)) ->
  let ops := writes_then_end writes data encoding toks in
  body_contract inspect r last ops ->
  errors (body_run inspect r ops) = errors r ->
  ended (parser (body_run inspect r ops)) = false ->
  let r' := body_run inspect r ops in
  List.find (is_target (engine tr)) (concat (map toks_of ops)) = None /\
  delivered r' = delivered r0 ++ concat (accepted tr) ++ body_input ops /\
  headers r' = headers r0 /\ errors r' = errors r0.
Proof.
  induction writes as [|[[wdata wenc] wtoks] writes IH];
    intros r tr last Hin Hoff Hq Hun Hlen.
  - cbn [writes_then_end map app body_contract body_run fold_left body_step toks_of concat
      chunk_of].
    rewrite app_nil_r.
    intros (Hempty & Hloc & _) Herr Hended.
    pose proof (res_end_no_error r0 r tr data encoding toks Hin Herr) as Hem.
    set (tr1 := run tr [RemoveAnyTokenListeners; WriteLast (default [] data) encoding toks])
      in *.
    assert (Hparser : parser (res_end inspect r data encoding toks) = (flush (engine tr1)).1).
    { destruct Hin as (Hp & Hhtml & _ & _ & _ & _ & Hend & _).
      rewrite (res_end_parser r data encoding toks Hend); rewrite Hp; auto. }
    destruct (flush_fields (engine tr1)) as [_ Hendedf].
    assert (Hended1 : ended (engine tr1) = false) by congruence.
    set (tr0 := step tr RemoveAnyTokenListeners).
    assert (Hq0 : queue_ok tr0) by exact Hq.
    assert (Hun0 : unspliced (engine tr0)) by exact Hun.
    assert (Htr1 : tr1 = accept tr0 (default [] data) encoding true toks) by reflexivity.
    assert (Hem0 : emitted (engine (accept tr0 (default [] data) encoding true toks))
                   = emitted (engine tr0)) by (rewrite <- Htr1; exact Hem).
    assert (Hended0 : ended (engine (accept tr0 (default [] data) encoding true toks)) = false)
      by (rewrite <- Htr1; exact Hended1).
    pose proof (accept_queue tr0 (default [] data) encoding true toks Hq0 Hem0 Hended0) as Hq1.
    rewrite <- Htr1 in Hq1.
    destruct (accept_unspliced tr0 (default [] data) encoding true toks Hun0 Hem0 Hended0)
      as [_ Hnone].
    split.
    + destruct (default [] data) as [|x l] eqn:Hd.
      * rewrite (Hempty eq_refl). reflexivity.
      * apply Hnone. discriminate.
    + unfold body_input. cbn [map chunk_of concat]. rewrite app_nil_r.
      apply (res_end_html inspect r0 r tr data encoding toks Hin Hem Hended1 Hq1).
  - cbn [writes_then_end map app body_contract body_run fold_left body_step toks_of concat
      fst snd chunk_of].
    fold (writes_then_end writes data encoding toks).
    set (rest := writes_then_end writes data encoding toks).
    fold (body_run inspect (res_write inspect r wdata wenc wtoks) rest).
    fold (concat (map toks_of rest)).
    intros (Hempty & Hloc & Hcontract) Herr Hended.
    assert (Herr' : errors (body_run inspect r (ResWrite wdata wenc wtoks :: rest)) = errors r)
      by exact Herr.
    destruct (body_no_error_split _ _ _ Herr') as [Herr1 Herr2].
    cbn [body_step] in Herr1, Herr2.
    pose proof (res_write_no_error r0 r tr wdata wenc wtoks Hin Herr1) as Hem1.
    set (tr1 := step tr (Write wdata wenc wtoks)) in *.
    destruct (res_write_is_write_fn r0 r tr wdata wenc wtoks Hin)
      as (rw & Heq & Hinw & Hww & Herrw).
    assert (Htext : text_length (parser (res_write inspect r wdata wenc wtoks))
                    = text_length (engine tr1)).
    { rewrite Heq. destruct Hinw as (Hp & Hhtml & _).
      rewrite write_fn_returns;
        [| rewrite Hp; exact Hhtml
         | rewrite Hp; apply internalWrite_returns; exact Hem1 ].
      cbv zeta. rewrite Hp.
      rewrite forward_errors_none.
      2:{ cbn [parser set_parser]. apply drop_all_eq. exact Hem1. }
      cbn [parser set_parser].
      change (write (engine tr) wdata wenc wtoks).1 with (engine tr1).
      destruct (getWritableBuffer_frame (engine tr1)) as (_ & _ & Hsb & _).
      destruct (getWritableBuffer (engine tr1)) as [p2 out]. cbn [fst] in Hsb.
      unfold text_length.
      destruct (negb (blen out =? 0)).
      - destruct (originalWrite_frame (set_parser p2 (set_parser (engine tr1) rw)) out)
          as (_ & -> & _). cbn [parser set_parser]. rewrite Hsb. reflexivity.
      - cbn [parser set_parser]. rewrite Hsb. reflexivity. }
    rewrite Htext in Hloc.
    destruct (ended (engine tr1)) eqn:Hended1.
    + exfalso.
      destruct (write_fn_splice r0 rw tr last wdata wenc wtoks Hinw Hww Hoff Hq Hun Hlen
                  Hem1 Hended1 Hloc) as (tok & Hfind & Hchunk & Hafter).
      rewrite <- Heq in Hchunk, Hafter.
      destruct (after_splice_body r0 _ _ _ _ data encoding toks writes Hafter)
        as (_ & _ & _ & _ & Htrue).
      fold rest in Htrue. congruence.
    + set (tr2 := step tr1 GetWritableBuffer).
      destruct (getWritableBuffer_step_frame tr1) as (Hem2 & Hended2 & _ & _).
      fold tr2 in Hem2, Hended2.
      assert (Hemw : emitted (engine (run tr [Write wdata wenc wtoks; GetWritableBuffer]))
                     = emitted (engine tr))
        by (change (emitted (engine tr2) = emitted (engine tr)); congruence).
      assert (Hendedw : ended (engine (run tr [Write wdata wenc wtoks; GetWritableBuffer])) = false)
        by (change (ended (engine tr2) = false); congruence).
      destruct (res_write_html inspect r0 r tr wdata wenc wtoks Hin Hemw Hendedw)
        as [Hin2 Hacc2].
      change (run tr [Write wdata wenc wtoks; GetWritableBuffer]) with tr2 in Hin2, Hacc2.
      pose proof (step_offsets tr last (Write wdata wenc wtoks) Hoff Hem1
                    (tokens_located_in_order _ _ _ Hloc)) as Hoff1.
      pose proof (step_queue tr last (Write wdata wenc wtoks) Hoff Hq Hem1 Hended1) as Hq1.
      fold tr1 in Hoff1, Hq1.
      pose proof (getWritableBuffer_offsets tr1 _ Hoff1) as Hoff2.
      pose proof (getWritableBuffer_queue tr1 _ Hoff1 Hq1) as Hq2.
      fold tr2 in Hoff2, Hq2.
      destruct (accept_unspliced tr wdata wenc false wtoks Hun Hem1 Hended1) as [Hun1 Hnone].
      fold tr1 in Hun1.
      destruct (getWritableBuffer_unspliced tr1 Hun1) as [Hun2 Hcfg2].
      fold tr2 in Hun2, Hcfg2.
      assert (Hcfg1 : config (engine tr1) = config (engine tr))
        by (apply internalWrite_config).
      assert (Hcfg : config (engine tr2) = config (engine tr)) by congruence.
      destruct (config_fields _ _ Hcfg) as (_ & Hchunk & HtoEnd & Hplen).
      assert (Hlen2 : insertionLength (engine tr2) = blen (insertionChunk (engine tr2)))
        by congruence.
      destruct (IH _ _ _ Hin2 Hoff2 Hq2 Hun2 Hlen2 Hcontract Herr2 Hended)
        as (Hfind & Hdel & Hhead & Herrs).
      fold rest in Hfind, Hdel, Hhead, Herrs.
      split; [|split; [|split]].
      * assert (Hwt : List.find (is_target (engine tr)) wtoks = None).
        { destruct wdata as [|b wdata]; [rewrite (Hempty eq_refl); reflexivity|].
          apply Hnone. discriminate. }
        rewrite (find_app_none _ _ _ Hwt). rewrite <- Hfind.
        apply find_ext. intros t. symmetry. apply is_target_config. exact Hcfg.
      * rewrite Hdel, Hacc2, concat_app.
        unfold body_input. cbn [map chunk_of concat].
        rewrite app_nil_r, <- !app_assoc. reflexivity.
      * exact Hhead.
      * rewrite Herrs. reflexivity.
Qed.

(** X1: for every body of an HTML response and every way it is cut into
    writes followed by the end: when the wrappers raise no error and a token
    of the target arrives ([tok] is the first one), the splice takes place
    and the payload is put in once, at the byte offset that is the UTF-8
    length of the decoded text before the boundary of [tok]; the other bytes
    are delivered as written, in order, and the headers are left alone. *)
Theorem payload_spliced_once (r0 : Response) (target : string) (chunk : Buffer)
    (toEnd : bool) (writes : list (Buffer * EncodingArg * list Token))
    (data : option Buffer) (encoding : EncodingArg) (toks : list Token) (tok : Token) :
  parser r0 = set_shouldParseHtml true (create target chunk (blen chunk) toEnd) ->
  writeImpl r0 = WritePatched -> endImpl r0 = EndPatched -> finished r0 = false ->
  let ops := writes_then_end writes data encoding toks in
  let r := body_run inspect r0 ops in
  body_contract inspect r0 0 ops ->
  errors r = errors r0 ->
  List.find (is_target (parser r0)) (concat (map toks_of ops)) = Some tok ->
  ended (parser r) = true /\
  delivered r = delivered r0 ++
    insert_at (byteLength (substring0 (stringBuffer (parser r)) (Spec.boundary toEnd tok)))
      chunk (body_input ops) /\
  headers r = headers r0.
Proof.
  intros Hparser Hw He Hf ops r Hcontract Herr Htok.
  destruct (create_invariants target chunk (blen chunk) toEnd true) as [Hoff Hq].
  rewrite <- Hparser in Hoff, Hq.
  assert (Hin : in_step r0 r0 (start (parser r0))).
  { unfold in_step. cbn [engine released start]. rewrite Hparser.
    repeat split; auto. simpl. rewrite app_nil_r. reflexivity. }
  assert (Hun : unspliced (engine (start (parser r0)))).
  { cbn [engine start]. rewrite Hparser. unfold unspliced. cbn. auto. }
  assert (Hlen : insertionLength (engine (start (parser r0)))
                 = blen (insertionChunk (engine (start (parser r0))))).
  { cbn [engine start]. rewrite Hparser. reflexivity. }
  destruct (ended (parser r)) eqn:Hended.
  - destruct (splice_body r0 data encoding toks writes r0 _ 0 Hin Hoff Hq Hun Hlen
                Hcontract Herr Hended) as (tok' & Hfind & Hdel & Hhead & _).
    cbn [engine start accepted concat app] in Hfind, Hdel.
    fold ops in Hfind. rewrite Htok in Hfind. injection Hfind as <-.
    split; [reflexivity|]. split; [|exact Hhead].
    etransitivity; [exact Hdel|]. rewrite Hparser. reflexivity.
  - destruct (plain_body r0 data encoding toks writes r0 _ 0 Hin Hoff Hq Hun Hlen
                Hcontract Herr Hended) as (Hfind & _).
    cbn [engine start] in Hfind. fold ops in Hfind. congruence.
Qed.

(** X20: written through the wrappers, the body of a response that is not
    processed as HTML reaches the transport byte for byte; so does the body
    of a response processed as HTML when no error is raised and no token of
    the target tag arrives (for a tokenizer that keeps its contract).
    Writing the body changes no header. *)
Theorem body_passes_through (r0 : Response) (target : string) (chunk : Buffer)
    (toEnd html : bool)
    (writes : list (Buffer * EncodingArg * list Token))
    (data : option Buffer) (encoding : EncodingArg) (toks : list Token) :
  parser r0 = set_shouldParseHtml html (create target chunk (blen chunk) toEnd) ->
  writeImpl r0 = WritePatched -> endImpl r0 = EndPatched -> finished r0 = false ->
  let ops := writes_then_end writes data encoding toks in
  let r := body_run inspect r0 ops in
  (html = true ->
   body_contract inspect r0 0 ops /\ errors r = errors r0 /\
   List.find (is_target (parser r0)) (concat (map toks_of ops)) = None) ->
  delivered r = delivered r0 ++ body_input ops /\
  headers r = headers r0 /\ errors r = errors r0 /\
  (html = true -> ended (parser r) = false).
Proof.
  intros Hparser Hw He Hf ops r Hhtml. destruct html.
  - destruct (Hhtml eq_refl) as (Hcontract & Herr & Hnone). clear Hhtml.
    destruct (create_invariants target chunk (blen chunk) toEnd true) as [Hoff Hq].
    rewrite <- Hparser in Hoff, Hq.
    assert (Hin : in_step r0 r0 (start (parser r0))).
    { unfold in_step. cbn [engine released start]. rewrite Hparser.
      repeat split; auto. simpl. rewrite app_nil_r. reflexivity. }
    assert (Hun : unspliced (engine (start (parser r0)))).
    { cbn [engine start]. rewrite Hparser. unfold unspliced. cbn. auto. }
    assert (Hlen : insertionLength (engine (start (parser r0)))
                   = blen (insertionChunk (engine (start (parser r0))))).
    { cbn [engine start]. rewrite Hparser. reflexivity. }
    destruct (ended (parser r)) eqn:Hended.
    + destruct (splice_body r0 data encoding toks writes r0 _ 0 Hin Hoff Hq Hun Hlen
                  Hcontract Herr Hended) as (tok' & Hfind & _).
      cbn [engine start] in Hfind. fold ops in Hfind. congruence.
    + destruct (plain_body r0 data encoding toks writes r0 _ 0 Hin Hoff Hq Hun Hlen
                  Hcontract Herr Hended) as (_ & Hdel & Hhead & Herrs).
      split; [|split; [exact Hhead|split; [exact Herrs|reflexivity]]].
      etransitivity; [exact Hdel|]. reflexivity.
  - clear Hhtml. subst r ops.
    assert (Hgoal : let ops := writes_then_end writes data encoding toks in
              delivered (body_run inspect r0 ops) = delivered r0 ++ body_input ops /\
              headers (body_run inspect r0 ops) = headers r0 /\
              errors (body_run inspect r0 ops) = errors r0).
    2:{ destruct Hgoal as (? & ? & ?). repeat split; try assumption. discriminate. }
    destruct writes as [|[[wdata wenc] wtoks] writes].
    + cbn [writes_then_end map app body_run fold_left body_step].
      unfold res_end. rewrite He.
      cbn [parser set_parser restoreOriginalMethods set_endImpl set_writeImpl set_setHeaderImpl].
      rewrite Hparser. cbn [buffers shouldParseHtml removeAnyTokenListeners
        set_anyTokenListeners set_shouldParseHtml create].
      rewrite bool_decide_eq_true_2 by reflexivity. cbn [andb negb].
      unfold originalEnd, restoreOriginalMethods, body_input, delivered.
      cbn [finished set_parserDestroyed set_parser set_endImpl set_writeImpl set_setHeaderImpl].
      rewrite Hf.
      cbn [map chunk_of concat wire set_finished set_headersSent set_wire headers errors
        set_parserDestroyed set_parser set_endImpl set_writeImpl set_setHeaderImpl].
      repeat split. rewrite concat_app. destruct data; simpl; rewrite ?app_nil_r; reflexivity.
    + cbn [writes_then_end map app body_run fold_left body_step fst snd].
      fold (writes_then_end writes data encoding toks).
      fold (body_run inspect (res_write inspect r0 wdata wenc wtoks)
              (writes_then_end writes data encoding toks)).
      set (r1 := set_headersSent true (set_wire (wire r0 ++ [wdata])
                   (set_parserDestroyed true (set_endImpl EndOriginal
                      (set_writeImpl WriteOriginal
                         (set_headersSent true (set_setHeaderImpl SetHeaderOriginal r0))))))).
      assert (Hstep : res_write inspect r0 wdata wenc wtoks = r1).
      { unfold res_write, originalWrite. rewrite Hw.
        cbn [parser set_headersSent set_setHeaderImpl]. rewrite Hparser.
        cbn [shouldParseHtml set_shouldParseHtml negb finished set_parserDestroyed
          set_endImpl set_writeImpl set_headersSent set_setHeaderImpl].
        rewrite Hf. reflexivity. }
      rewrite Hstep.
      destruct (original_body inspect data encoding toks writes r1 eq_refl eq_refl Hf)
        as (Hdel & Hhead & Herr).
      split; [|split; assumption].
      etransitivity; [exact Hdel|].
      unfold delivered, body_input. subst r1.
      cbn [wire set_headersSent set_wire map chunk_of concat].
      rewrite concat_app. simpl. rewrite app_nil_r, <- app_assoc. reflexivity.
Qed.

End Insertion.

(** The theorem on a body in three calls. *)
Example payload_spliced_once_in_three_calls :
  delivered (body_run Sample.inspect Scenario.response_before_body Scenario.body_with_target)
    = [60; 112; 62; 194; 162] ++ bytes_of_string "<body>" ++ bytes_of_string "Z"
      ++ bytes_of_string "</body>".
Proof.
  destruct (payload_spliced_once Sample.inspect Scenario.response_before_body
              "body" (bytes_of_string "Z") false
              [([60; 112; 62; 194], EncUndefined, [mkToken StartTag "p" 0 3]);
               ([162; 60; 98; 111; 100; 121; 62], EncUndefined,
                [mkToken Text "" 3 4; mkToken StartTag "body" 4 10])]
              (Some (bytes_of_string "</body>")) EncUndefined []
              (mkToken StartTag "body" 4 10))
    as (_ & Hdel & _).
  - vm_compute. reflexivity.
  - vm_compute. reflexivity.
  - vm_compute. reflexivity.
  - vm_compute. reflexivity.
  - vm_compute. repeat split; try discriminate; try (intros H; discriminate H).
  - vm_compute. reflexivity.
  - vm_compute. reflexivity.
  - etransitivity; [exact Hdel|]. vm_compute. reflexivity.
Defined.

Lemma body_passes_through_witness :
  delivered (body_run Sample.inspect Scenario.response_before_body Scenario.body_without_target)
    = [60; 112; 62; 194; 162; 60; 47; 112; 62].
Proof.
  refine (proj1 (body_passes_through Sample.inspect Scenario.response_before_body
                   "body" (bytes_of_string "Z") false true
                   [([60; 112; 62; 194], EncUndefined, [mkToken StartTag "p" 0 3])]
                   (Some [162; 60; 47; 112; 62]) EncUndefined
                   [mkToken Text "" 3 4; mkToken EndTag "p" 4 8] _ _ _ _ _)).
  - vm_compute. reflexivity.
  - vm_compute. reflexivity.
  - vm_compute. reflexivity.
  - vm_compute. reflexivity.
  - intros _. vm_compute. repeat split; try discriminate; try (intros H; discriminate H).
Defined.

End SpliceBodyFacts.

Module ReleaseFacts.
Import Buf JsStr Engine BufFacts RunFacts.

Lemma release_loop_beyond (w : Z) (rest before : list Buffer) :
  total_len before + total_len rest < w ->
  release_loop w before rest (total_len before) = None.
Proof.
  revert before. induction rest as [|buffer rest IH]; intros before Hw; simpl; [reflexivity|].
  rewrite total_len_cons in Hw. pose proof (total_len_nonneg rest).
  destruct (total_len before + blen buffer =? w) eqn:E1; [lia|].
  destruct (total_len before + blen buffer >? w) eqn:E2; [lia|].
  rewrite <- total_len_snoc. apply IH. rewrite total_len_snoc. lia.
Qed.

(** X2: with a watermark inside the queue, [getWritableBuffer] returns the
    bytes of the queue up to the watermark, cutting a chunk in two where the
    watermark falls inside it, keeps the bytes after it in their order and
    [len] as their number, moves [writtenOffset] to the watermark and sets
    [writableOffset] back to 0. *)
Theorem getWritableBuffer_releases_prefix (st : Engine) :
  writableOffset st <> 0 ->
  len st = total_len (buffers st) ->
  0 <= writableOffset st - writtenOffset st <= total_len (buffers st) ->
  let w := writableOffset st - writtenOffset st in
  let st' := (getWritableBuffer st).1 in
  (getWritableBuffer st).2 = take (Z.to_nat w) (concat (buffers st)) /\
  concat (buffers st') = drop (Z.to_nat w) (concat (buffers st)) /\
  len st' = total_len (buffers st') /\
  writtenOffset st' = writableOffset st /\ writableOffset st' = 0.
Proof.
  intros Hnz Hlen Hw w st'. subst st'. unfold getWritableBuffer.
  destruct (writableOffset st =? 0) eqn:Hz; [lia|]. simpl.
  pose proof (release_loop_spec w (buffers st) []) as Hloop.
  rewrite total_len_nil in Hloop. specialize (Hloop ltac:(subst w; lia)).
  simpl in Hloop. rewrite Z.sub_0_r in Hloop. fold w.
  destruct (release_loop w [] (buffers st) 0) as [[remaining out]|]; simpl.
  - destruct Hloop as [-> Hrem]. repeat split; [exact Hrem|].
    unfold total_len at 1. rewrite Hrem. unfold blen. rewrite length_drop.
    rewrite Hlen. unfold total_len, blen in *. lia.
  - destruct Hloop as [Hw0 Hnil]. rewrite Hw0, Hnil. simpl.
    repeat split. rewrite Hlen. unfold total_len. rewrite Hnil. reflexivity.
Qed.

Lemma getWritableBuffer_releases_prefix_witness :
  let st := set_writableOffset 6 (set_writtenOffset 1 (set_len 7
              (set_buffers [[112; 62]; [60; 98; 62; 60; 105]] (create "body" [90] 1 false)))) in
  (getWritableBuffer st).2 = [112; 62; 60; 98; 62] /\
  concat (buffers (getWritableBuffer st).1) = [60; 105].
Proof.
  intro st.
  destruct (getWritableBuffer_releases_prefix st) as (H1 & H2 & _).
  - discriminate.
  - reflexivity.
  - vm_compute. split; discriminate.
  - split; [exact H1 | exact H2].
Defined.

(** X3: with a watermark past the end of the queue the loop finds no chunk
    to stop at: the call returns an empty buffer and leaves the queue alone,
    but the offsets and [len] were already updated. *)
Theorem getWritableBuffer_beyond_queue (st : Engine) :
  writableOffset st <> 0 ->
  total_len (buffers st) < writableOffset st - writtenOffset st ->
  getWritableBuffer st =
    (set_len (len st - (writableOffset st - writtenOffset st))
       (set_writableOffset 0 (set_writtenOffset (writableOffset st) st)), []).
Proof.
  intros Hnz Hw. unfold getWritableBuffer.
  destruct (writableOffset st =? 0) eqn:Hz; [lia|]. simpl.
  pose proof (release_loop_beyond (writableOffset st - writtenOffset st) (buffers st) []) as H.
  rewrite total_len_nil in H. rewrite H by lia. reflexivity.
Qed.

Lemma getWritableBuffer_beyond_queue_witness :
  let st := set_writableOffset 9 (set_len 1 (set_buffers [[172]] (create "body" [90] 1 false))) in
  (getWritableBuffer st).2 = [] /\ len (getWritableBuffer st).1 = -8 /\
  buffers (getWritableBuffer st).1 = [[172]].
Proof.
  intro st. rewrite (getWritableBuffer_beyond_queue st); [|discriminate | reflexivity].
  repeat split.
Defined.

End ReleaseFacts.

Module WatermarkFacts.
Import Buf JsStr Engine Js Response Body Run Inv BufFacts JsStrFacts RunFacts BodyFacts
  InsertionFacts SpliceBodyFacts.

Lemma last_end_cons (last : Z) (tok : Token) (rest : list Token) :
  last_end last (tok :: rest) = last_end (endOffset tok) rest.
Proof. reflexivity. Qed.

Lemma last_end_app (last : Z) (a b : list Token) :
  last_end last (a ++ b) = last_end (last_end last a) b.
Proof. unfold last_end. apply fold_left_app. Qed.

(** Tokens that do not end the stream only move [writableOffset], to the
    UTF-8 length of the text up to the end of the last of them. *)
Lemma emit_tokens_watermark (toks : list Token) (st : Engine) (last : Z) :
  unspliced st -> anyTokenListeners st = true ->
  ended (emit_tokens st toks) = false ->
  emit_tokens st toks =
    set_writableOffset
      (match toks with
       | [] => writableOffset st
       | _ => byteLength (substring0 (stringBuffer st) (last_end last toks))
       end) st.
Proof.
  revert st last. induction toks as [|tok rest IH]; intros st last Hun Hany Hended.
  - destruct st; reflexivity.
  - assert (Hstopped : stopped st = false) by (destruct Hun as (_ & ? & _); assumption).
    cbn [emit_tokens] in *. rewrite Hstopped in *.
    assert (Hended1 : ended (emit_token st tok) = false).
    { destruct (ended (emit_token st tok)) eqn:E; [|reflexivity].
      apply (emit_tokens_ended rest) in E. congruence. }
    assert (Hother : is_target st tok = false).
    { destruct (is_target st tok) eqn:E; [|reflexivity].
      destruct (emit_token_target st tok Hun E) as (w & _ & He & _). congruence. }
    destruct (emit_token_other st tok Hun Hother) as (Hun1 & _ & _ & w & Heq).
    pose proof (emit_token_frame st tok) as (_ & _ & _ & _ & Hw).
    rewrite Hany in Hw. rewrite Heq in Hw. cbn in Hw. subst w.
    rewrite Heq in *.
    rewrite (IH _ (endOffset tok) Hun1 Hany Hended).
    rewrite last_end_cons.
    destruct rest; destruct st; reflexivity.
Qed.

End WatermarkFacts.

Module StreamFacts.
Import Buf JsStr Engine Js Response Body Run Inv Stream BufFacts JsStrFacts RunFacts BodyFacts
  InsertionFacts SpliceBodyFacts WatermarkFacts.

Lemma write_release_stream (tr : Trace) (last : Z) (data : Buffer) (enc : EncodingArg)
    (toks : list Token) :
  offsets_ok tr last -> stream_ok tr last -> (data = [] -> toks = []) ->
  let tr1 := step tr (Write data enc toks) in
  let tr2 := step tr1 GetWritableBuffer in
  emitted (engine tr1) = emitted (engine tr) -> ended (engine tr1) = false ->
  tokens_in_order last toks (text_length (engine tr1)) ->
  stream_ok tr2 (last_end last toks).
Proof.
  intros Hoff (Hun & Hany & Hw0 & Hwr) Hempty tr1 tr2 Hem Hended Hin.
  assert (Hlast : 0 <= last <= text_length (engine tr))
    by (destruct Hoff as (_ & _ & ? & _); assumption).
  subst tr2 tr1. cbn [step accept engine] in *.
  destruct (internalWrite_no_error _ _ _ _ _ Hem) as [_ Hcases].
  destruct Hcases as [[-> Heq] | (Hne & _ & d & s & Hdec & Heq)]; rewrite Heq in *.
  - rewrite (Hempty eq_refl). unfold getWritableBuffer. rewrite Hw0. cbn.
    unfold stream_ok. cbn. auto.
  - set (st1 := after_decode (engine tr) data d s) in *.
    assert (Hun1 : unspliced st1) by exact Hun.
    assert (Hany1 : anyTokenListeners st1 = true) by exact Hany.
    rewrite (emit_tokens_watermark toks st1 last Hun1 Hany1 Hended) in *.
    assert (Hsb : stringBuffer st1 = stringBuffer (engine tr) ++ s) by reflexivity.
    assert (Hold : writtenOffset (engine tr)
                   = byteLength (substring0 (stringBuffer st1) last)).
    { rewrite Hsb, substring0_app by (unfold text_length in Hlast; lia). exact Hwr. }
    assert (Hle : last <= last_end last toks).
    { apply (tokens_in_order_bounds toks last _ Hin).
      unfold text_length in *. cbn [stringBuffer set_writableOffset]. rewrite Hsb, length_app. lia. }
    pose proof (byteLength_substring0_mono (stringBuffer st1) _ _ Hle) as Hmono.
    pose proof (byteLength_nonneg (substring0 (stringBuffer st1) last)) as Hnn.
    set (W := match toks with
              | [] => writableOffset st1
              | _ :: _ => byteLength (substring0 (stringBuffer st1) (last_end last toks))
              end) in *.
    assert (HW : W = 0 /\ writtenOffset (engine tr)
                           = byteLength (substring0 (stringBuffer st1) (last_end last toks))
                 \/ W <> 0 /\ W = byteLength (substring0 (stringBuffer st1) (last_end last toks))).
    { subst W. destruct toks as [|t toks'].
      - left. split; [exact Hw0 | exact Hold].
      - destruct (Z.eq_dec (byteLength (substring0 (stringBuffer st1)
                                          (last_end last (t :: toks')))) 0) as [E | E].
        + left. split; [exact E | lia].
        + right. split; [exact E | reflexivity]. }
    unfold getWritableBuffer. cbn [writableOffset set_writableOffset].
    destruct HW as [[HW0 Hwritten] | [HWnz HWeq]].
    + rewrite HW0. cbn. unfold stream_ok. cbn.
      repeat split; try apply Hun; try assumption.
    + destruct (W =? 0) eqn:E; [lia|]. cbn [negb].
      destruct (release_loop _ _ _ _) as [[remaining out]|]; cbn;
        unfold stream_ok; cbn; repeat split; try apply Hun; try assumption.
Qed.

End StreamFacts.

Module StreamBodyFacts.
Import Buf JsStr Engine Js Response Body Run Inv Stream BufFacts JsStrFacts RunFacts BodyFacts
  InsertionFacts SpliceBodyFacts WatermarkFacts StreamFacts.

Section Streaming.

Variable inspect : HeaderValue -> string.

Lemma write_fn_ended (r : Response) (data : Buffer) (enc : EncodingArg) (toks : list Token) :
  ended (parser r) = true -> ended (parser (write_fn inspect r data enc toks)) = true.
Proof.
  intros H. unfold write_fn. destruct (shouldParseHtml (parser r)).
  - destruct (internalWrite_emitted (parser r) data enc false toks) as [l Hl].
    destruct (forwarded inspect r (write (parser r) data enc toks).1 l Hl) as [_ Hp].
    assert (Hen : ended (write (parser r) data enc toks).1 = true)
      by (apply internalWrite_ended, H).
    destruct (write (parser r) data enc toks) as [p1 c]. cbn [fst] in Hp, Hen.
    set (r1 := forward_errors inspect _ _) in *.
    destruct c; [|rewrite Hp; exact Hen].
    pose proof (getWritableBuffer_frame (parser r1)) as (_ & He & _).
    destruct (getWritableBuffer (parser r1)) as [p2 out]. cbn [fst] in He.
    assert (Hp2 : ended p2 = true).
    { rewrite He, Hp. exact Hen. }
    destruct (negb (blen out =? 0)).
    + destruct (originalWrite_frame (set_parser p2 r1) out) as (_ & -> & _). exact Hp2.
    + exact Hp2.
  - match goal with |- context [originalWrite ?a ?b] =>
      destruct (originalWrite_frame a b) as (_ & -> & _) end.
    exact H.
Qed.

Lemma res_write_ended (r : Response) (data : Buffer) (enc : EncodingArg) (toks : list Token) :
  ended (parser r) = true -> ended (parser (res_write inspect r data enc toks)) = true.
Proof.
  intros H. unfold res_write. destruct (writeImpl r).
  - destruct (negb _).
    + match goal with |- context [originalWrite ?a ?b] =>
        destruct (originalWrite_frame a b) as (_ & -> & _) end.
      exact H.
    + apply write_fn_ended. exact H.
  - apply write_fn_ended. exact H.
  - destruct (originalWrite_frame r data) as (_ & -> & _). exact H.
Qed.

Lemma writes_ended (writes : list (Buffer * EncodingArg * list Token)) (r : Response) :
  ended (parser r) = true ->
  ended (parser (body_run inspect r (map (fun w => ResWrite w.1.1 w.1.2 w.2) writes))) = true.
Proof.
  revert r. induction writes as [|w writes IH]; intros r H; [exact H|].
  cbn [map body_run fold_left body_step]. apply IH, res_write_ended, H.
Qed.

Lemma res_write_parser (r0 r : Response) (tr : Trace) (data : Buffer) (enc : EncodingArg)
    (toks : list Token) :
  in_step r0 r tr ->
  emitted (engine (step tr (Write data enc toks))) = emitted (engine tr) ->
  parser (res_write inspect r data enc toks)
    = (getWritableBuffer (engine (step tr (Write data enc toks)))).1.
Proof.
  intros Hin Hem1. set (tr1 := step tr (Write data enc toks)) in *.
  destruct (res_write_is_write_fn inspect r0 r tr data enc toks Hin)
    as (rw & Heq & Hinw & Hww & Herrw).
  rewrite Heq. destruct Hinw as (Hp & Hhtml & _).
  rewrite write_fn_returns;
    [| rewrite Hp; exact Hhtml
     | rewrite Hp; apply internalWrite_returns; exact Hem1 ].
  cbv zeta. rewrite Hp.
  rewrite forward_errors_none.
  2:{ cbn [parser set_parser]. apply drop_all_eq. exact Hem1. }
  cbn [parser set_parser].
  change (write (engine tr) data enc toks).1 with (engine tr1).
  destruct (getWritableBuffer (engine tr1)) as [p2 out]. cbn [fst].
  destruct (negb (blen out =? 0)).
  - destruct (originalWrite_frame (set_parser p2 (set_parser (engine tr1) rw)) out)
      as (_ & -> & _). reflexivity.
  - reflexivity.
Qed.

Lemma res_write_text (r0 r : Response) (tr : Trace) (data : Buffer) (enc : EncodingArg)
    (toks : list Token) :
  in_step r0 r tr ->
  emitted (engine (step tr (Write data enc toks))) = emitted (engine tr) ->
  text_length (parser (res_write inspect r data enc toks))
    = text_length (engine (step tr (Write data enc toks))).
Proof.
  intros Hin Hem1. rewrite (res_write_parser r0 r tr data enc toks Hin Hem1).
  destruct (getWritableBuffer_frame (engine (step tr (Write data enc toks))))
    as (_ & _ & Hsb & _).
  unfold text_length. rewrite Hsb. reflexivity.
Qed.

Lemma writes_stream (r0 : Response) (writes : list (Buffer * EncodingArg * list Token)) :
  forall (r : Response) (tr : Trace) (last : Z),
  in_step r0 r tr -> offsets_ok tr last -> queue_ok tr -> stream_ok tr last ->
  let ops := map (fun w => ResWrite w.1.1 w.1.2 w.2) writes in
  body_contract inspect r last ops ->
  errors (body_run inspect r ops) = errors r ->
  ended (parser (body_run inspect r ops)) = false ->
  exists tr',
    in_step r0 (body_run inspect r ops) tr' /\
    queue_ok tr' /\
    stream_ok tr' (last_end last (concat (map toks_of ops))) /\
    accepted tr' = accepted tr ++ map chunk_of ops.
Proof.
  induction writes as [|[[wdata wenc] wtoks] writes IH];
    intros r tr last Hin Hoff Hq Hs.
  - cbn. intros _ _ _. exists tr. rewrite app_nil_r. auto.
  - cbn [map body_contract body_run fold_left body_step toks_of concat fst snd chunk_of].
    set (rest := map (fun w => ResWrite w.1.1 w.1.2 w.2) writes).
    fold (body_run inspect (res_write inspect r wdata wenc wtoks) rest).
    intros (Hempty & Hloc & Hcontract) Herr Hended.
    assert (Herr' : errors (body_run inspect r (ResWrite wdata wenc wtoks :: rest)) = errors r)
      by exact Herr.
    destruct (body_no_error_split inspect _ _ _ Herr') as [Herr1 Herr2].
    cbn [body_step] in Herr1, Herr2.
    pose proof (res_write_no_error inspect r0 r tr wdata wenc wtoks Hin Herr1) as Hem1.
    rewrite (res_write_text r0 r tr wdata wenc wtoks Hin Hem1) in Hloc.
    set (tr1 := step tr (Write wdata wenc wtoks)) in *.
    set (tr2 := step tr1 GetWritableBuffer).
    destruct (getWritableBuffer_step_frame tr1) as (Hem2 & Hended2 & _ & _).
    fold tr2 in Hem2, Hended2.
    assert (Hended1 : ended (engine tr1) = false).
    { destruct (ended (engine tr1)) eqn:E; [|reflexivity].
      assert (Hin1 : ended (parser (res_write inspect r wdata wenc wtoks)) = true).
      { rewrite (res_write_parser r0 r tr wdata wenc wtoks Hin Hem1).
        destruct (getWritableBuffer_frame (engine tr1)) as (_ & Hf & _).
        etransitivity; [exact Hf | exact E]. }
      apply (writes_ended writes) in Hin1. fold rest in Hin1. congruence. }
    assert (Hemw : emitted (engine (run tr [Write wdata wenc wtoks; GetWritableBuffer]))
                   = emitted (engine tr))
      by (change (emitted (engine tr2) = emitted (engine tr)); congruence).
    assert (Hendedw : ended (engine (run tr [Write wdata wenc wtoks; GetWritableBuffer])) = false)
      by (change (ended (engine tr2) = false); congruence).
    destruct (res_write_html inspect r0 r tr wdata wenc wtoks Hin Hemw Hendedw)
      as [Hin2 Hacc2].
    change (run tr [Write wdata wenc wtoks; GetWritableBuffer]) with tr2 in Hin2, Hacc2.
    pose proof (tokens_located_in_order _ _ _ Hloc) as Hord.
    pose proof (step_offsets tr last (Write wdata wenc wtoks) Hoff Hem1 Hord) as Hoff1.
    pose proof (step_queue tr last (Write wdata wenc wtoks) Hoff Hq Hem1 Hended1) as Hq1.
    fold tr1 in Hoff1, Hq1.
    pose proof (getWritableBuffer_offsets tr1 _ Hoff1) as Hoff2.
    pose proof (getWritableBuffer_queue tr1 _ Hoff1 Hq1) as Hq2.
    fold tr2 in Hoff2, Hq2.
    pose proof (write_release_stream tr last wdata wenc wtoks Hoff Hs Hempty Hem1 Hended1 Hord)
      as Hs2.
    fold tr1 tr2 in Hs2.
    destruct (IH _ _ _ Hin2 Hoff2 Hq2 Hs2 Hcontract Herr2 Hended)
      as (tr' & Hin' & Hq' & Hs' & Hacc').
    exists tr'. split; [exact Hin'|]. split; [exact Hq'|]. split.
    + rewrite last_end_app. exact Hs'.
    + rewrite Hacc', Hacc2, <- app_assoc. reflexivity.
Qed.

(** X4: while the target tag has not arrived and no error was raised, the
    writes of an HTML body deliver whole tokens only: after any number of
    writes the transport has received the bytes written so far up to the
    UTF-8 length of the text that ends with the last token, and the engine
    holds the bytes after them. *)
Theorem writes_deliver_whole_tokens (r0 : Response) (target : string) (chunk : Buffer)
    (chunkLen : Z) (toEnd : bool) (writes : list (Buffer * EncodingArg * list Token)) :
  parser r0 = set_shouldParseHtml true (create target chunk chunkLen toEnd) ->
  writeImpl r0 = WritePatched -> endImpl r0 = EndPatched -> finished r0 = false ->
  let ops := map (fun w => ResWrite w.1.1 w.1.2 w.2) writes in
  let r := body_run inspect r0 ops in
  body_contract inspect r0 0 ops ->
  errors r = errors r0 ->
  ended (parser r) = false ->
  let n := byteLength (substring0 (stringBuffer (parser r))
                         (last_end 0 (concat (map toks_of ops)))) in
  delivered r = delivered r0 ++ take (Z.to_nat n) (body_input ops) /\
  concat (buffers (parser r)) = drop (Z.to_nat n) (body_input ops) /\
  headers r = headers r0.
Proof.
  intros Hparser Hw He Hf ops r Hcontract Herr Hended n.
  destruct (create_invariants target chunk chunkLen toEnd true) as [Hoff Hq].
  rewrite <- Hparser in Hoff, Hq.
  assert (Hin : in_step r0 r0 (start (parser r0))).
  { unfold in_step. cbn [engine released start]. rewrite Hparser.
    repeat split; auto. simpl. rewrite app_nil_r. reflexivity. }
  assert (Hs : stream_ok (start (parser r0)) 0).
  { unfold stream_ok, unspliced. cbn [engine start]. rewrite Hparser. cbn. auto. }
  destruct (writes_stream r0 writes r0 _ 0 Hin Hoff Hq Hs Hcontract Herr Hended)
    as (tr' & Hin' & Hq' & Hs' & Hacc').
  fold ops in Hin', Hs', Hacc'. fold r in Hin'.
  destruct Hin' as (Hp & _ & Hdel & Hhead & _).
  destruct Hq' as (_ & Hcat & Hrel).
  destruct Hs' as (_ & _ & _ & Hwr).
  assert (Hn : Z.to_nat n = length (concat (released tr'))).
  { subst n. rewrite Hp, <- Hwr, Hrel. unfold total_len, blen. lia. }
  assert (Hbody : concat (accepted tr') = body_input ops).
  { rewrite Hacc'. reflexivity. }
  rewrite Hbody in Hcat.
  split; [|split].
  - rewrite Hdel, Hn, <- Hcat, take_app_length. reflexivity.
  - rewrite Hp, Hn, <- Hcat, drop_app_length. reflexivity.
  - exact Hhead.
Qed.

End Streaming.

Lemma writes_deliver_whole_tokens_witness :
  let r := body_run Sample.inspect Scenario.response_before_body
             [ResWrite [60; 112; 62; 194] EncUndefined [mkToken StartTag "p" 0 3];
              ResWrite [162; 60; 47; 112; 62; 60; 105] EncUndefined
                [mkToken Text "" 3 4; mkToken EndTag "p" 4 8]] in
  delivered r = [60; 112; 62; 194; 162; 60; 47; 112; 62] /\
  concat (buffers (parser r)) = [60; 105].
Proof.
  intro r.
  destruct (writes_deliver_whole_tokens Sample.inspect Scenario.response_before_body
              "body" (bytes_of_string "Z") 1 false
              [([60; 112; 62; 194], EncUndefined, [mkToken StartTag "p" 0 3]);
               ([162; 60; 47; 112; 62; 60; 105], EncUndefined,
                [mkToken Text "" 3 4; mkToken EndTag "p" 4 8])])
    as (Hdel & Hq & _).
  - vm_compute. reflexivity.
  - vm_compute. reflexivity.
  - vm_compute. reflexivity.
  - vm_compute. reflexivity.
  - vm_compute. repeat split; try discriminate; try (intros H; discriminate H).
  - vm_compute. reflexivity.
  - vm_compute. reflexivity.
  - split.
    + etransitivity; [exact Hdel|]. vm_compute. reflexivity.
    + etransitivity; [exact Hq|]. vm_compute. reflexivity.
Defined.

End StreamBodyFacts.

Module DecimalFacts.
Import Js.

Lemma digits_of_uint (d : Decimal.uint) :
  has_non_digit (DecimalString.NilEmpty.string_of_uint d) = false.
Proof. induction d; cbn; auto. Qed.

Lemma leading_digits_step (c : Ascii.ascii) (rest : string) (acc : option Z) (k : Z) :
  is_digit c = true -> digit_value c = k ->
  leading_digits (String c rest) acc = leading_digits rest (Some (10 * default 0 acc + k)).
Proof. intros Hc <-. cbn [leading_digits]. rewrite Hc. reflexivity. Qed.

Lemma leading_digits_of_uint (d : Decimal.uint) (a : N) :
  leading_digits (DecimalString.NilEmpty.string_of_uint d) (Some (Z.of_N a)) =
    Some (Z.of_N match a with
                 | N0 => Pos.of_uint d
                 | N.pos p => N.pos (Pos.of_uint_acc d p)
                 end).
Proof.
  revert a.
  induction d as [| l IH | l IH | l IH | l IH | l IH | l IH | l IH | l IH | l IH | l IH];
    intros a; cbn [DecimalString.NilEmpty.string_of_uint Pos.of_uint Pos.of_uint_acc].
  { destruct a; reflexivity. }
  all: erewrite leading_digits_step by reflexivity; cbn [default id].
  all: match goal with |- context [digit_value ?c] =>
         let v := eval vm_compute in (digit_value c) in change (digit_value c) with v end.
  all: destruct a as [|p];
    [ first [ exact (IH 0%N) | exact (IH (N.pos _)) ]
    | match goal with |- context [Pos.of_uint_acc _ ?q] =>
        rewrite <- (IH (N.pos q)) end; f_equal; f_equal; lia ].
Qed.

(** The decimal form of a non-negative integer holds digits only and reads
    back as the integer. *)
Lemma decimal_reads_back (n : Z) :
  0 <= n -> has_non_digit (decimal n) = false /\ parseInt (decimal n) = Int n.
Proof.
  intros Hn. unfold decimal. destruct n as [|p|p]; [split; reflexivity | | lia].
  cbn [Z.to_int DecimalString.NilZero.string_of_int].
  assert (Hs : DecimalString.NilZero.string_of_uint (Pos.to_uint p)
               = DecimalString.NilEmpty.string_of_uint (Pos.to_uint p)).
  { pose proof (DecimalPos.Unsigned.to_uint_nonnil p).
    destruct (Pos.to_uint p); [contradiction | reflexivity ..]. }
  rewrite Hs. split; [apply digits_of_uint|].
  pose proof (leading_digits_of_uint (Pos.to_uint p) 0) as Hl.
  rewrite DecimalPos.Unsigned.of_to in Hl. cbn [Z.of_N] in Hl.
  pose proof (digits_of_uint (Pos.to_uint p)) as Hd.
  pose proof (DecimalPos.Unsigned.to_uint_nonnil p) as Hnil.
  unfold parseInt.
  destruct (DecimalString.NilEmpty.string_of_uint (Pos.to_uint p)) as [|c rest] eqn:E.
  { destruct (Pos.to_uint p); try contradiction; discriminate. }
  cbn [has_non_digit] in Hd. apply orb_false_iff in Hd as [Hc _].
  apply negb_false_iff in Hc.
  assert (Hsp : is_js_space c = false).
  { unfold is_digit, is_js_space in *. destruct (Ascii.nat_of_ascii c =? 32)%nat eqn:E1; [|].
    - apply Nat.eqb_eq in E1. rewrite E1 in Hc. discriminate.
    - cbn [orb]. apply andb_true_iff in Hc as [H1 H2].
      apply Nat.leb_le in H1. apply andb_false_iff. right. apply Nat.leb_gt. lia. }
  cbn [skip_spaces]. rewrite Hsp.
  assert (Hm : Ascii.eqb c (Ascii.ascii_of_nat 45) = false).
  { apply Ascii.eqb_neq. intros ->. discriminate. }
  assert (Hp : Ascii.eqb c (Ascii.ascii_of_nat 43) = false).
  { apply Ascii.eqb_neq. intros ->. discriminate. }
  rewrite Hm, Hp.
  assert (Hnone : leading_digits (String c rest) None = leading_digits (String c rest) (Some 0)).
  { cbn [leading_digits]. rewrite Hc. reflexivity. }
  rewrite Hnone, Hl. reflexivity.
Qed.

End DecimalFacts.

Module HeaderFacts.
Import Buf JsStr Engine Js Response Body Methods Stages BufFacts DecimalFacts.

Lemma originalEnd_fields (r : Response) (data : option Buffer) :
  let r' := originalEnd r data in
  headers r' = headers r /\ errors r' = errors r /\ parser r' = parser r /\
  etag r' = etag r /\ setHeaderImpl r' = setHeaderImpl r /\
  writeImpl r' = writeImpl r /\ endImpl r' = endImpl r /\ listener r' = listener r.
Proof. unfold originalEnd. destruct (finished r); cbn; auto 10. Qed.

Lemma originalSetHeader_fields (r : Response) (name : string) (v : HeaderValue) :
  let r' := originalSetHeader r name v in
  errors r' = errors r /\ parser r' = parser r /\ etag r' = etag r /\
  setHeaderImpl r' = setHeaderImpl r /\ writeImpl r' = writeImpl r /\
  endImpl r' = endImpl r /\ listener r' = listener r /\
  headersSent r' = headersSent r /\ finished r' = finished r /\ wire r' = wire r /\
  forall k, k <> lower_string name -> headers r' !! k = headers r !! k.
Proof.
  unfold originalSetHeader. destruct (headersSent r) eqn:E; cbn; rewrite ?E; repeat split; auto.
  intros k Hk. apply lookup_insert_ne. congruence.
Qed.

Lemma removeHeader_fields (r : Response) (name : string) :
  let r' := removeHeader r name in
  errors r' = errors r /\ parser r' = parser r /\ etag r' = etag r /\
  setHeaderImpl r' = setHeaderImpl r /\ writeImpl r' = writeImpl r /\
  endImpl r' = endImpl r /\ listener r' = listener r /\
  headersSent r' = headersSent r /\ finished r' = finished r /\ wire r' = wire r /\
  forall k, k <> lower_string name -> headers r' !! k = headers r !! k.
Proof.
  unfold removeHeader. destruct (headersSent r) eqn:E; cbn; rewrite ?E; repeat split; auto.
  intros k Hk. apply lookup_delete_ne. congruence.
Qed.

Lemma suffix_etag_fields (r : Response) :
  let r' := suffix_etag r in
  (forall k, k <> "etag" -> headers r' !! k = headers r !! k) /\
  parser r' = parser r /\ quiet r r' /\ (restored r -> restored r').
Proof.
  unfold suffix_etag. destruct (getHeader r "etag") as [old|].
  2:{ unfold quiet. cbn. auto 10. }
  destruct (_ && _).
  - match goal with |- context [originalSetHeader ?a ?b ?c] =>
      destruct (originalSetHeader_fields a b c)
        as (He & Hp & Ht & H1 & H2 & H3 & _ & _ & _ & _ & Hk) end.
    cbv zeta. unfold quiet, restored. cbn. rewrite H1, H2, H3.
    split; [exact Hk|]. split; [exact Hp|]. tauto.
  - unfold quiet. cbn. auto 10.
Qed.

Lemma quiet_trans (a b c : Response) : quiet a b -> quiet b c -> quiet a c.
Proof. unfold quiet. intros (-> & -> & -> & ->) (-> & -> & -> & ->). auto. Qed.

Section Errors.

Variable inspect : HeaderValue -> string.

Lemma emit_error_fields (r : Response) (e : ResError) :
  let r' := emit_error inspect r e in
  headers r' = headers r /\ errors r' = errors r ++ [e] /\ parser r' = parser r /\
  etag r' = etag r /\ restored r' /\ listener r' = listener r.
Proof.
  unfold emit_error, restored. cbn [listener set_errors restoreOriginalMethods
    set_endImpl set_writeImpl set_setHeaderImpl].
  destruct (listener r) eqn:Hl.
  - cbn. rewrite Hl. auto 10.
  - match goal with |- context [originalEnd ?a ?b] =>
      destruct (originalEnd_fields a b) as (-> & -> & -> & -> & -> & -> & -> & ->) end.
    cbn. rewrite Hl. auto 10.
Qed.

Lemma adjust_fields (r : Response) :
  let r' := adjust inspect r in
  (forall k, k <> "content-length" -> headers r' !! k = headers r !! k) /\
  etag r' = etag r /\ parser r' = parser r /\
  (quiet r r' \/ raised r r') /\ (restored r -> restored r').
Proof.
  unfold adjust. destruct (getHeader r "content-length") as [v|].
  2:{ unfold quiet. cbn. auto 10. }
  unfold adjustContentLength. destruct (content_length_refused v).
  - destruct (emit_error_fields (removeHeader r "content-length")
                (InvalidContentLength v)) as (Hh & He & Hp & Ht & Hr & Hl).
    destruct (removeHeader_fields r "content-length")
      as (He' & Hp' & Ht' & _ & _ & _ & _ & _ & _ & _ & Hk).
    cbv zeta. rewrite Hh, Ht, Hp.
    split; [exact Hk|]. split; [exact Ht'|]. split; [exact Hp'|].
    split; [|intros _; exact Hr].
    right. split; [|exact Hr]. eexists. rewrite He, He'. reflexivity.
  - destruct (_ && _).
    + match goal with |- context [originalSetHeader ?a ?b ?c] =>
        destruct (originalSetHeader_fields a b c)
          as (He & Hp & Ht & H1 & H2 & H3 & _ & _ & _ & _ & Hk) end.
      cbv zeta. unfold quiet, restored. rewrite H1, H2, H3.
      split; [exact Hk|]. split; [exact Ht|]. split; [exact Hp|]. tauto.
    + unfold quiet. cbn. auto 10.
Qed.

Lemma adjust_accepted (r : Response) :
  (forall cl, getHeader r "content-length" = Some cl -> content_length_refused cl = false) ->
  let r' := adjust inspect r in
  quiet r r' /\ headersSent r' = headersSent r /\
  (shouldParseHtml (parser r) = false -> r' = r).
Proof.
  intros Hok. unfold adjust. destruct (getHeader r "content-length") as [cl|] eqn:Hget.
  2:{ unfold quiet. cbn. auto 10. }
  unfold adjustContentLength. rewrite (Hok cl eq_refl).
  destruct (shouldParseHtml (parser r)) eqn:Hhtml; cbn [andb].
  - destruct (header_strict_ne _ _).
    + match goal with |- context [originalSetHeader ?a ?b ?c] =>
        destruct (originalSetHeader_fields a b c)
          as (He & Hp & Ht & H1 & H2 & H3 & _ & Hs & _) end.
      cbv zeta. unfold quiet. split; [tauto|]. split; [exact Hs | discriminate].
    + unfold quiet. cbn. auto 10.
  - unfold quiet. cbn. auto 10.
Qed.

End Errors.

Section Headers.

Variable inspect : HeaderValue -> string.
Variable parseContentType : HeaderValue -> string + string.

Lemma updateHeaders_stages (r : Response) :
  updateHeaders inspect parseContentType r =
    suffix_etag (adjust inspect (classify inspect parseContentType r)).
Proof. reflexivity. Qed.

Lemma classify_fields (r : Response) :
  let r' := classify inspect parseContentType r in
  headers r' = headers r /\ etag r' = etag r /\
  (quiet r r' \/ raised r r') /\ (restored r -> restored r').
Proof.
  unfold classify. destruct (getHeader r "content-type") as [ct|].
  2:{ unfold quiet. cbn. auto 10. }
  unfold hasHtmlContentType. destruct (parseContentType ct) as [ty | reason].
  - unfold quiet, restored. cbn. auto 10.
  - destruct (emit_error_fields inspect r (InvalidContentType ct reason))
      as (Hh & He & Hp & Ht & Hr & Hl).
    cbn [set_parser headers etag]. unfold raised, restored in *. cbn.
    repeat split; try tauto. right. split; [eauto | tauto].
Qed.

Lemma classify_parsed (r : Response) (ct : HeaderValue) (ty : string) :
  getHeader r "content-type" = Some ct -> parseContentType ct = inl ty ->
  classify inspect parseContentType r =
    set_parser (set_shouldParseHtml (String.eqb ty "text/html") (parser r)) r.
Proof.
  intros Hget Hparse. unfold classify, hasHtmlContentType. rewrite Hget, Hparse. reflexivity.
Qed.

(** [updateHeaders] either runs without error or leaves the original
    methods in place. *)
Lemma updateHeaders_outcome (r : Response) :
  let r' := updateHeaders inspect parseContentType r in
  quiet r r' \/ restored r'.
Proof.
  cbv zeta. rewrite updateHeaders_stages.
  set (r1 := classify inspect parseContentType r).
  set (r2 := adjust inspect r1).
  destruct (classify_fields r) as (_ & _ & H1 & _). fold r1 in H1.
  destruct (adjust_fields inspect r1) as (_ & _ & _ & H2 & K2). fold r2 in H2, K2.
  destruct (suffix_etag_fields r2) as (_ & _ & H3 & K3).
  destruct H1 as [H1 | [_ H1]].
  - destruct H2 as [H2 | [_ H2]].
    + left. eapply quiet_trans; [|exact H3]. eapply quiet_trans; eassumption.
    + right. auto.
  - right. auto.
Qed.

(** X10: a [setHeader] call that raises an error leaves the original
    methods in place; if no listener ended the response, the body is then
    delivered as it is written. *)
Theorem setHeader_error_restores_methods (r : Response) (name : string) (v : HeaderValue)
    (writes : list (Buffer * EncodingArg * list Token))
    (data : option Buffer) (encoding : EncodingArg) (toks : list Token) :
  let r' := setHeader inspect parseContentType r name v in
  errors r' <> errors r ->
  restored r' /\
  (finished r' = false ->
   let ops := writes_then_end writes data encoding toks in
   delivered (body_run inspect r' ops) = delivered r' ++ body_input ops /\
   headers (body_run inspect r' ops) = headers r' /\
   errors (body_run inspect r' ops) = errors r').
Proof.
  intros r' Herr.
  assert (Hr : restored r').
  { subst r'. unfold setHeader in *. destruct (setHeaderImpl r).
    - destruct (headersSent r) eqn:Hsent; [contradiction|].
      destruct (updateHeaders_outcome (originalSetHeader r name v)) as [(He & _) | Hr];
        [|exact Hr].
      destruct (originalSetHeader_fields r name v) as (He1 & _). congruence.
    - destruct (originalSetHeader_fields r name v) as (He1 & _). congruence. }
  split; [exact Hr|]. intros Hf ops.
  destruct Hr as (_ & Hw & He).
  apply (BodyFacts.original_body inspect data encoding toks writes r' Hw He Hf).
Qed.


Lemma setHeader_patched (r : Response) (name : string) (v : HeaderValue) :
  setHeaderImpl r = SetHeaderPatched -> headersSent r = false ->
  setHeader inspect parseContentType r name v =
    suffix_etag (adjust inspect (classify inspect parseContentType
                                   (originalSetHeader r name v))).
Proof.
  intros Hi Hs. unfold setHeader. rewrite Hi, Hs. apply updateHeaders_stages.
Qed.

(** X11: a [setHeader] call after which the content type is not text/html
    (or is absent on a response not classified as HTML), with a
    content-length that passes the check, changes no header but the one the
    caller set and raises no error. *)
Theorem setHeader_not_html_keeps_headers (r : Response) (name : string) (v : HeaderValue) :
  setHeaderImpl r = SetHeaderPatched -> headersSent r = false ->
  let r1 := originalSetHeader r name v in
  match getHeader r1 "content-type" with
  | Some ct => exists ty, parseContentType ct = inl ty /\ ty <> "text/html"
  | None => shouldParseHtml (parser r) = false
  end ->
  (forall cl, getHeader r1 "content-length" = Some cl -> content_length_refused cl = false) ->
  let r' := setHeader inspect parseContentType r name v in
  headers r' = <[lower_string name := v]> (headers r) /\
  errors r' = errors r /\
  shouldParseHtml (parser r') = false /\
  setHeaderImpl r' = SetHeaderPatched.
Proof.
  intros Hi Hs r1 Htype Hlen r'. subst r'. rewrite (setHeader_patched r name v Hi Hs).
  fold r1.
  assert (H1 : headers r1 = <[lower_string name := v]> (headers r) /\
               errors r1 = errors r /\ setHeaderImpl r1 = SetHeaderPatched /\
               parser r1 = parser r).
  { subst r1. unfold originalSetHeader. rewrite Hs. cbn. auto. }
  destruct H1 as (Hh1 & He1 & Hi1 & Hp1).
  set (r2 := classify inspect parseContentType r1).
  assert (H2 : headers r2 = headers r1 /\ errors r2 = errors r1 /\
               setHeaderImpl r2 = setHeaderImpl r1 /\ shouldParseHtml (parser r2) = false).
  { subst r2. destruct (getHeader r1 "content-type") as [ct|] eqn:Hct.
    - destruct Htype as (ty & Hparse & Hne).
      rewrite (classify_parsed r1 ct ty Hct Hparse).
      assert (String.eqb ty "text/html" = false) as -> by (apply String.eqb_neq; exact Hne).
      cbn. auto.
    - unfold classify. rewrite Hct. rewrite Hp1. auto. }
  destruct H2 as (Hh2 & He2 & Hi2 & Hhtml2).
  assert (Hlen2 : forall cl, getHeader r2 "content-length" = Some cl ->
                             content_length_refused cl = false).
  { intros cl. unfold getHeader. rewrite Hh2. apply Hlen. }
  destruct (adjust_accepted inspect r2 Hlen2) as (_ & _ & Hsame). rewrite (Hsame Hhtml2).
  unfold suffix_etag. rewrite Hhtml2, andb_false_r.
  destruct (getHeader r2 "etag"); repeat split; congruence.
Qed.

(** X5: on a response whose content type is text/html, setting a
    content-length that passes the check and reads as [declared] leaves the
    header as the decimal form of [declared] plus the payload length, and
    raises no error (a numeric header stays as it is when the payload is
    empty).  The declared length and the sum are integers a double holds
    exactly. *)
Theorem setHeader_adds_payload_length (r : Response) (name : string) (v ct : HeaderValue)
    (declared : Z) :
  setHeaderImpl r = SetHeaderPatched -> headersSent r = false ->
  lower_string name = "content-length" ->
  getHeader r "content-type" = Some ct -> parseContentType ct = inl "text/html" ->
  content_length_refused v = false -> originalContentLength v = Int declared ->
  0 <= insertionLength (parser r) ->
  exact_integer declared -> exact_integer (declared + insertionLength (parser r)) ->
  let r' := setHeader inspect parseContentType r name v in
  let total := declared + insertionLength (parser r) in
  errors r' = errors r /\
  (getHeader r' "content-length" = Some (HStr (decimal total)) \/
   insertionLength (parser r) = 0 /\
   getHeader r' "content-length" = Some (HNum (Int declared))).
Proof.
  intros Hi Hs Hname Hct Hparse Hok Hdecl _ _ _ r' total. subst r' total.
  rewrite (setHeader_patched r name v Hi Hs).
  set (r1 := originalSetHeader r name v).
  assert (H1 : headers r1 = <[lower_string name := v]> (headers r) /\
               errors r1 = errors r /\ headersSent r1 = false /\ parser r1 = parser r).
  { subst r1. unfold originalSetHeader. rewrite Hs. cbn. auto. }
  destruct H1 as (Hh1 & He1 & Hs1 & Hp1).
  assert (Hct1 : getHeader r1 "content-type" = Some ct).
  { unfold getHeader in *. rewrite Hh1, Hname. rewrite lookup_insert_ne by discriminate.
    exact Hct. }
  rewrite (classify_parsed r1 ct "text/html" Hct1 Hparse).
  change (String.eqb "text/html" "text/html") with true.
  set (r2 := set_parser (set_shouldParseHtml true (parser r1)) r1).
  assert (Hget2 : getHeader r2 "content-length" = Some v).
  { unfold getHeader. subst r2. cbn [headers set_parser]. rewrite Hh1, Hname.
    apply lookup_insert_eq. }
  unfold adjust. rewrite Hget2.
  destruct (ResponseFacts.adjustContentLength_adds_payload inspect r2 v declared
              Hs1 eq_refl Hok Hdecl Hget2) as [He3 Hh3].
  set (r3 := adjustContentLength inspect r2 v) in *.
  destruct (suffix_etag_fields r3) as (Hk & _ & (He4 & _) & _).
  assert (Hget4 : getHeader (suffix_etag r3) "content-length" = getHeader r3 "content-length").
  { unfold getHeader. apply Hk. discriminate. }
  rewrite Hget4, He4, He3.
  assert (Hplen : insertionLength (parser r2) = insertionLength (parser r)).
  { subst r2. cbn. rewrite Hp1. reflexivity. }
  rewrite Hplen in Hh3. split; [exact He1 | exact Hh3].
Qed.

(** X7: HTML or not, setting a content-length that fails the check removes
    the header, raises one error that carries the raw value, and leaves the
    original [setHeader], [write] and [end] in place. *)
Theorem setHeader_refuses_length (r : Response) (name : string) (v : HeaderValue) :
  setHeaderImpl r = SetHeaderPatched -> headersSent r = false ->
  lower_string name = "content-length" ->
  (forall ct, getHeader r "content-type" = Some ct -> exists ty, parseContentType ct = inl ty) ->
  content_length_refused v = true ->
  let r' := setHeader inspect parseContentType r name v in
  getHeader r' "content-length" = None /\
  errors r' = errors r ++ [InvalidContentLength v] /\
  restored r'.
Proof.
  intros Hi Hs Hname Htype Hbad r'. subst r'.
  rewrite (setHeader_patched r name v Hi Hs).
  set (r1 := originalSetHeader r name v).
  assert (H1 : headers r1 = <[lower_string name := v]> (headers r) /\
               errors r1 = errors r /\ headersSent r1 = false /\ parser r1 = parser r).
  { subst r1. unfold originalSetHeader. rewrite Hs. cbn. auto. }
  destruct H1 as (Hh1 & He1 & Hs1 & Hp1).
  set (r2 := classify inspect parseContentType r1).
  assert (H2 : headers r2 = headers r1 /\ errors r2 = errors r1 /\
               headersSent r2 = headersSent r1).
  { subst r2. destruct (getHeader r1 "content-type") as [ct|] eqn:Hct.
    - assert (Hct0 : getHeader r "content-type" = Some ct).
      { unfold getHeader in *. rewrite Hh1, Hname in Hct.
        rewrite lookup_insert_ne in Hct by discriminate. exact Hct. }
      destruct (Htype ct Hct0) as (ty & Hparse).
      rewrite (classify_parsed r1 ct ty Hct Hparse). cbn. auto.
    - unfold classify. rewrite Hct. auto. }
  destruct H2 as (Hh2 & He2 & Hs2).
  assert (Hget2 : getHeader r2 "content-length" = Some v).
  { unfold getHeader. rewrite Hh2, Hh1, Hname. apply lookup_insert_eq. }
  unfold adjust. rewrite Hget2.
  assert (Hs2' : headersSent r2 = false) by congruence.
  destruct (ResponseFacts.adjustContentLength_refuses inspect r2 v Hs2' Hbad)
    as (Hnone & He3 & _).
  set (r3 := adjustContentLength inspect r2 v) in *.
  assert (Hr3 : restored r3).
  { subst r3. unfold adjustContentLength. rewrite Hbad.
    apply emit_error_fields. }
  destruct (suffix_etag_fields r3) as (Hk & _ & (He4 & _) & Hr4).
  split; [|split].
  - unfold getHeader in *. rewrite Hk by discriminate. exact Hnone.
  - rewrite He4, He3. congruence.
  - apply Hr4, Hr3.
Qed.


(** X8: in whichever order the two headers are set: after a [setHeader]
    call that leaves a content type of text/html and an etag header, while
    the suffix is unused, the etag header is the old value followed by the
    suffix, and the suffix is cleared. *)
Theorem setHeader_appends_etag (r : Response) (name : string) (v ct old : HeaderValue) :
  setHeaderImpl r = SetHeaderPatched -> headersSent r = false ->
  etag r <> "" ->
  let r1 := originalSetHeader r name v in
  getHeader r1 "content-type" = Some ct -> parseContentType ct = inl "text/html" ->
  getHeader r1 "etag" = Some old ->
  (forall cl, getHeader r1 "content-length" = Some cl -> content_length_refused cl = false) ->
  let r' := setHeader inspect parseContentType r name v in
  getHeader r' "etag" = Some (HStr (to_string old +:+ etag r)) /\
  etag r' = "" /\ errors r' = errors r.
Proof.
  intros Hi Hs Htag r1 Hct Hparse Hold Hlen r'. subst r'.
  rewrite (setHeader_patched r name v Hi Hs). fold r1.
  assert (H1 : errors r1 = errors r /\ headersSent r1 = false /\ etag r1 = etag r).
  { subst r1. unfold originalSetHeader. rewrite Hs. cbn. auto. }
  destruct H1 as (He1 & Hs1 & Ht1).
  rewrite (classify_parsed r1 ct "text/html" Hct Hparse).
  change (String.eqb "text/html" "text/html") with true.
  set (r2 := set_parser (set_shouldParseHtml true (parser r1)) r1).
  assert (Hlen2 : forall cl, getHeader r2 "content-length" = Some cl ->
                             content_length_refused cl = false) by exact Hlen.
  destruct (adjust_accepted inspect r2 Hlen2) as ((He3 & _) & Hs3 & _).
  destruct (adjust_fields inspect r2) as (Hk3 & Ht3 & Hp3 & _).
  set (r3 := adjust inspect r2) in *.
  assert (Hold3 : getHeader r3 "etag" = Some old).
  { unfold getHeader in *. rewrite Hk3 by discriminate. exact Hold. }
  assert (Ht3' : etag r3 = etag r) by (rewrite Ht3; exact Ht1).
  assert (Hhtml3 : shouldParseHtml (parser r3) = true) by (rewrite Hp3; reflexivity).
  assert (Hs3' : headersSent r3 = false) by (rewrite Hs3; exact Hs1).
  unfold suffix_etag. rewrite Hold3, Hhtml3, Ht3'.
  assert (String.eqb (etag r) "" = false) as -> by (apply String.eqb_neq; exact Htag).
  cbn [negb andb]. unfold originalSetHeader. rewrite Hs3'.
  unfold getHeader. cbn. rewrite lookup_insert_eq.
  split; [reflexivity|]. split; [reflexivity|]. rewrite He3. exact He1.
Qed.

(** X9: once the suffix was used, no [setHeader] call changes the etag
    header beyond what the caller sets: the suffix is appended at most once,
    and an etag set later gets none. *)
Theorem setHeader_keeps_suffixed_etag (r : Response) (name : string) (v : HeaderValue) :
  etag r = "" ->
  let r' := setHeader inspect parseContentType r name v in
  getHeader r' "etag" = getHeader (originalSetHeader r name v) "etag" /\ etag r' = "".
Proof.
  intros Htag r'. subst r'. unfold setHeader.
  destruct (originalSetHeader_fields r name v) as (_ & _ & Ht1 & _).
  destruct (setHeaderImpl r).
  2:{ split; [reflexivity | congruence]. }
  destruct (headersSent r) eqn:Hs.
  { unfold originalSetHeader. rewrite Hs. auto. }
  rewrite updateHeaders_stages.
  set (r1 := originalSetHeader r name v) in *.
  destruct (classify_fields r1) as (Hh2 & Ht2 & _).
  set (r2 := classify inspect parseContentType r1) in *.
  destruct (adjust_fields inspect r2) as (Hk3 & Ht3 & _).
  set (r3 := adjust inspect r2) in *.
  assert (Ht : etag r3 = "") by congruence.
  unfold suffix_etag. rewrite Ht. cbn [String.eqb negb andb].
  assert (Hget : getHeader r3 "etag" = getHeader r1 "etag").
  { unfold getHeader. rewrite Hk3 by discriminate. rewrite Hh2. reflexivity. }
  split.
  - etransitivity; [|exact Hget]. f_equal. destruct (getHeader r3 "etag"); reflexivity.
  - destruct (getHeader r3 "etag"); exact Ht.
Qed.


(** X6: every further [setHeader] call, for a header other than content-type
    and content-length, on a response whose content type is text/html and
    whose content-length is the decimal form of [declared], reads that header
    as the declared length and adds the payload length to it again (the
    sum being an integer a double holds exactly). *)
Theorem setHeader_adds_payload_again (r : Response) (name : string) (v ct : HeaderValue)
    (declared : Z) :
  setHeaderImpl r = SetHeaderPatched -> headersSent r = false ->
  lower_string name <> "content-length" -> lower_string name <> "content-type" ->
  getHeader r "content-type" = Some ct -> parseContentType ct = inl "text/html" ->
  0 <= declared -> 0 <= insertionLength (parser r) ->
  exact_integer (declared + insertionLength (parser r)) ->
  getHeader r "content-length" = Some (HStr (decimal declared)) ->
  let r' := setHeader inspect parseContentType r name v in
  getHeader r' "content-length"
    = Some (HStr (decimal (declared + insertionLength (parser r)))) /\
  errors r' = errors r.
Proof.
  intros Hi Hs Hn1 Hn2 Hct Hparse Hpos _ _ Hcl r'. subst r'.
  rewrite (setHeader_patched r name v Hi Hs).
  set (r1 := originalSetHeader r name v).
  destruct (originalSetHeader_fields r name v)
    as (He1 & Hp1 & _ & _ & _ & _ & _ & Hs1 & _ & _ & Hk1).
  fold r1 in He1, Hp1, Hs1, Hk1.
  assert (Hct1 : getHeader r1 "content-type" = Some ct).
  { unfold getHeader in *.
    rewrite Hk1 by (intros E; apply Hn2; rewrite <- E; reflexivity). exact Hct. }
  assert (Hcl1 : getHeader r1 "content-length" = Some (HStr (decimal declared))).
  { unfold getHeader in *.
    rewrite Hk1 by (intros E; apply Hn1; rewrite <- E; reflexivity). exact Hcl. }
  rewrite (classify_parsed r1 ct "text/html" Hct1 Hparse).
  change (String.eqb "text/html" "text/html") with true.
  set (r2 := set_parser (set_shouldParseHtml true (parser r1)) r1).
  assert (Hcl2 : getHeader r2 "content-length" = Some (HStr (decimal declared))) by exact Hcl1.
  destruct (decimal_reads_back declared Hpos) as [Hdigits Hread].
  unfold adjust. rewrite Hcl2. unfold adjustContentLength.
  cbn [content_length_refused to_string originalContentLength].
  rewrite Hdigits, Hread, Hcl2.
  change (shouldParseHtml (parser r2)) with true.
  change (insertionLength (parser r2)) with (insertionLength (parser r1)).
  cbn [andb header_strict_ne strict_ne add_int number_to_string].
  match goal with |- context [suffix_etag ?x] =>
    destruct (suffix_etag_fields x) as (Hk5 & _ & (He5 & _) & _); set (r3 := x) in * end.
  split.
  - unfold getHeader. rewrite Hk5 by discriminate.
    subst r3. unfold originalSetHeader.
    assert (Hs2 : headersSent r2 = false) by (rewrite <- Hs; exact Hs1).
    rewrite Hs2. cbn [headers set_headers]. rewrite lookup_insert_eq.
    rewrite Hp1. reflexivity.
  - rewrite He5. subst r3.
    destruct (originalSetHeader_fields r2 "content-length"
                (HStr (decimal (declared + insertionLength (parser r1))))) as (-> & _).
    exact He1.
Qed.


End Headers.

Lemma setHeader_error_restores_methods_witness :
  let r := Scenario.res_setHeader Scenario.response_before_body "content-length" (HStr "0_0") in
  restored r /\
  delivered (body_run Sample.inspect r
               (writes_then_end [([60; 112; 62], EncUndefined, [])] (Some [33]) EncUndefined []))
    = [60; 112; 62; 33].
Proof.
  intro r.
  destruct (setHeader_error_restores_methods Sample.inspect Sample.parseContentType
              Scenario.response_before_body "content-length" (HStr "0_0")
              [([60; 112; 62], EncUndefined, [])] (Some [33]) EncUndefined [])
    as [Hr Hbody].
  - vm_compute. discriminate.
  - split; [exact Hr|].
    destruct (Hbody eq_refl) as (Hd & _).
    etransitivity; [exact Hd|]. vm_compute. reflexivity.
Defined.

Lemma setHeader_not_html_keeps_headers_witness :
  let r := Scenario.res_setHeader
             (Scenario.register (plain ∅ NoListener) (bytes_of_string "Z") 1 "tag" "body" false)
             "content-length" (HStr "10") in
  headers (Scenario.res_setHeader r "Content-Type" (HStr "text/plain"))
    = <[ "content-type" := HStr "text/plain" ]> (headers r).
Proof.
  intro r.
  refine (proj1 (setHeader_not_html_keeps_headers Sample.inspect Sample.parseContentType
                   r "Content-Type" (HStr "text/plain") eq_refl eq_refl _ _)).
  - vm_compute. exists "text/plain". split; [reflexivity | discriminate].
  - intros cl Hcl. vm_compute in Hcl. injection Hcl as <-. reflexivity.
Defined.

Lemma setHeader_adds_payload_length_witness :
  getHeader (Scenario.res_setHeader Scenario.response_before_body "Content-Length" (HStr "37"))
    "content-length" = Some (HStr "38").
Proof.
  destruct (setHeader_adds_payload_length Sample.inspect Sample.parseContentType
              Scenario.response_before_body "Content-Length" (HStr "37") (HStr "text/html") 37
              eq_refl eq_refl eq_refl eq_refl eq_refl eq_refl eq_refl) as [_ [H | [H _]]].
  - vm_compute. discriminate.
  - unfold Js.exact_integer. lia.
  - vm_compute. split; discriminate.
  - exact H.
  - vm_compute in H. discriminate.
Defined.

Lemma setHeader_refuses_length_witness :
  let r := Scenario.res_setHeader
             (Scenario.register (plain ∅ NoListener) (bytes_of_string "Z") 1 "tag" "body" false)
             "content-length" (HNum (Int (-100))) in
  getHeader r "content-length" = None /\
  errors r = [InvalidContentLength (HNum (Int (-100)))] /\ restored r.
Proof.
  intro r.
  destruct (setHeader_refuses_length Sample.inspect Sample.parseContentType
              (Scenario.register (plain ∅ NoListener) (bytes_of_string "Z") 1 "tag" "body" false)
              "content-length" (HNum (Int (-100)))) as (Hnone & Herr & Hr).
  - reflexivity.
  - reflexivity.
  - reflexivity.
  - intros ct Hct. vm_compute in Hct. discriminate.
  - reflexivity.
  - split; [exact Hnone|]. split; [|exact Hr].
    etransitivity; [exact Herr | reflexivity].
Defined.

Lemma setHeader_appends_etag_witness :
  let r := Scenario.res_setHeader
             (Scenario.register (plain ∅ NoListener) (bytes_of_string "Z") 1 "tag" "body" false)
             "ETag" (HStr "abc") in
  getHeader r "etag" = Some (HStr "abc") /\
  getHeader (Scenario.res_setHeader r "content-type" (HStr "text/html")) "etag"
    = Some (HStr "abctag").
Proof.
  intro r. split; [reflexivity|].
  refine (proj1 (setHeader_appends_etag Sample.inspect Sample.parseContentType
                   r "content-type" (HStr "text/html") (HStr "text/html") (HStr "abc")
                   eq_refl eq_refl _ eq_refl eq_refl eq_refl _)).
  - vm_compute. discriminate.
  - intros cl Hcl. vm_compute in Hcl. discriminate.
Defined.

Lemma setHeader_keeps_suffixed_etag_witness :
  let r := Scenario.res_setHeader
             (Scenario.res_setHeader
                (Scenario.register (plain ∅ NoListener) (bytes_of_string "Z") 1 "tag" "body" false)
                "etag" (HStr "abc"))
             "content-type" (HStr "text/html") in
  getHeader (Scenario.res_setHeader r "etag" (HStr "xyz")) "etag" = Some (HStr "xyz").
Proof.
  intro r.
  refine (eq_trans (proj1 (setHeader_keeps_suffixed_etag Sample.inspect Sample.parseContentType
                             r "etag" (HStr "xyz") eq_refl)) _).
  reflexivity.
Defined.

Lemma setHeader_adds_payload_again_witness :
  getHeader
    (Scenario.res_setHeader
       (Scenario.res_setHeader Scenario.response_before_body "content-length" (HStr "37"))
       "cache-control" (HStr "no-cache"))
    "content-length" = Some (HStr "39").
Proof.
  refine (eq_trans (proj1 (setHeader_adds_payload_again Sample.inspect Sample.parseContentType
                             (Scenario.res_setHeader Scenario.response_before_body
                                "content-length" (HStr "37"))
                             "cache-control" (HStr "no-cache") (HStr "text/html") 38
                             eq_refl eq_refl _ _ eq_refl eq_refl _ _ _ eq_refl)) _).
  - discriminate.
  - discriminate.
  - lia.
  - vm_compute. discriminate.
  - vm_compute. split; discriminate.
  - reflexivity.
Defined.

End HeaderFacts.

Module ErrorPathFacts.
Import Buf JsStr Engine Js Response Body Run Inv Methods BufFacts JsStrFacts RunFacts BodyFacts
  InsertionFacts SpliceBodyFacts HeaderFacts.

Section ErrorPaths.

Variable inspect : HeaderValue -> string.

(** A chunk that is not empty and does not decode: the error is emitted,
    [undefined] is appended to the text log, and [super.write] throws. *)
Lemma internalWrite_invalid (p : Engine) (data : Buffer) (encoding : EncodingArg)
    (isLast : bool) (toks : list Token) :
  encoding_rejected p encoding = None ->
  data <> [] -> Utf8.decode (utf8Decoder p) data (negb isLast) = None ->
  internalWrite p data encoding isLast toks =
    (set_stringBuffer (stringBuffer p ++ of_ascii "undefined")
       (set_emitted (emitted p ++ [InvalidUtf8])
          (set_buffers (buffers p ++ [data]) (set_len (len p + blen data) p))),
     Throws).
Proof.
  intros Henc Hne Hdec. unfold internalWrite. rewrite Henc. unfold push.
  destruct (blen data =? 0) eqn:Hlen.
  { destruct data; [contradiction | unfold blen in Hlen; simpl in Hlen; lia]. }
  cbn [negb fst snd utf8Decoder set_buffers set_len]. rewrite Hdec. reflexivity.
Qed.

(** One error the parser emitted during a call reaches the response. *)
Lemma forward_one_error (r : Response) (p : Engine) (e : EngineError) :
  emitted p = emitted (parser r) ++ [e] ->
  forward_errors inspect (length (emitted (parser r))) (set_parser p r)
    = emit_error inspect (set_parser p r) (ParserError e).
Proof.
  intros He. unfold forward_errors. cbn [parser set_parser].
  rewrite He, drop_app_length. reflexivity.
Qed.

(** What one error does to a response that is not ended: the original
    methods are back, and a listener that ends the response delivers the
    message. *)
Lemma emit_error_effect (r : Response) (e : ResError) :
  finished r = false ->
  let r' := emit_error inspect r e in
  errors r' = errors r ++ [e] /\ restored r' /\
  delivered r' = delivered r ++
    match listener r with
    | NoListener => []
    | EndWithMessage => bytes_of_string (message inspect e)
    end /\
  finished r' = match listener r with NoListener => false | EndWithMessage => true end /\
  parser r' = parser r /\ headers r' = headers r.
Proof.
  intros Hf. cbv zeta. unfold emit_error.
  cbn [listener set_errors restoreOriginalMethods set_endImpl set_writeImpl set_setHeaderImpl].
  destruct (listener r) eqn:Hl.
  - unfold delivered, restored. cbn. rewrite app_nil_r. repeat split. exact Hf.
  - unfold originalEnd. cbn. rewrite Hf. unfold delivered, restored. cbn.
    rewrite concat_app. cbn. rewrite app_nil_r. repeat split.
Qed.

(** What the end wrapper delivers once a parser error [e] was raised in it
    and the call on the parser returned: with no listener the flushed bytes,
    with a listener that ends the response the bytes of the message. *)
Lemma end_after_error (r : Response) (p : Engine) (e : EngineError) :
  finished r = false -> len p = total_len (buffers p) ->
  let r3 := emit_error inspect (set_parser p r) (ParserError e) in
  let r' := set_parserDestroyed true
              (originalEnd (set_parser (flush (parser r3)).1 r3) (Some (flush (parser r3)).2)) in
  errors r' = errors r ++ [ParserError e] /\
  delivered r' = delivered r ++
    match listener r with
    | NoListener => concat (buffers p)
    | EndWithMessage => bytes_of_string (error_message e)
    end /\
  restored r' /\ finished r' = true.
Proof.
  intros Hf Hlen. cbv zeta. unfold emit_error.
  cbn [listener set_errors restoreOriginalMethods set_endImpl set_writeImpl set_setHeaderImpl
       set_parser].
  destruct (listener r) eqn:Hl.
  - cbn [parser]. destruct (flush_concat p Hlen) as (Hfl & _).
    unfold originalEnd. cbn. rewrite Hf. cbn.
    unfold delivered, restored. cbn. rewrite concat_app, Hfl. cbn. rewrite app_nil_r.
    repeat split.
  - unfold originalEnd. cbn. rewrite Hf. cbn.
    unfold delivered, restored. cbn.
    rewrite concat_app. cbn. rewrite app_nil_r. repeat split.
Qed.

(** The end wrapper on a response still processed as HTML, when the parser
    emits the one error [e] during a [writeLast] that returns. *)
Lemma res_end_with_error (r : Response) (data : option Buffer) (encoding : EncodingArg)
    (toks : list Token) (e : EngineError) :
  endImpl r = EndPatched -> finished r = false -> shouldParseHtml (parser r) = true ->
  let w := writeLast (removeAnyTokenListeners (parser r)) (default [] data) encoding toks in
  w.2 = Returns ->
  emitted w.1 = emitted (parser r) ++ [e] ->
  len w.1 = total_len (buffers w.1) ->
  let r' := res_end inspect r data encoding toks in
  errors r' = errors r ++ [ParserError e] /\
  delivered r' = delivered r ++
    match listener r with
    | NoListener => concat (buffers w.1)
    | EndWithMessage => bytes_of_string (error_message e)
    end /\
  restored r' /\ finished r' = true.
Proof.
  intros Hend Hf Hhtml w Hret Hem Hlen r'. subst r'.
  rewrite res_end_returns; [| exact Hend | intros _; exact Hret].
  cbv zeta.
  set (r2 := set_parser (removeAnyTokenListeners (parser (restoreOriginalMethods r)))
               (restoreOriginalMethods r)).
  assert (Hhtml2 : shouldParseHtml (parser r2) = true) by exact Hhtml.
  rewrite Hhtml2, andb_false_r.
  change (writeLast (parser r2) (default [] data) encoding toks) with w.
  assert (Hem2 : emitted w.1 = emitted (parser r2) ++ [e]) by exact Hem.
  rewrite (forward_one_error r2 w.1 e Hem2).
  assert (Hf2 : finished r2 = false) by exact Hf.
  pose proof (end_after_error r2 w.1 e Hf2 Hlen) as H. cbv zeta in H.
  destruct (flush (parser (emit_error inspect (set_parser w.1 r2) (ParserError e))))
    as [p4 flushed].
  exact H.
Qed.

(** The end wrapper with a last chunk that does not decode: the call ends
    where the error was raised. *)
Lemma res_end_invalid (r : Response) (data : Buffer) (encoding : EncodingArg)
    (toks : list Token) :
  endImpl r = EndPatched ->
  shouldParseHtml (parser r) = true ->
  encoding_rejected (parser r) encoding = None ->
  data <> [] -> Utf8.decode (utf8Decoder (parser r)) data false = None ->
  let w := writeLast (removeAnyTokenListeners (parser r)) data encoding toks in
  let r2 := set_parser (removeAnyTokenListeners (parser r)) (restoreOriginalMethods r) in
  w.2 = Throws /\ buffers w.1 = buffers (parser r) ++ [data] /\
  res_end inspect r (Some data) encoding toks
    = emit_error inspect (set_parser w.1 r2) (ParserError InvalidUtf8).
Proof.
  intros Hend Hhtml Henc Hne Hdec w r2.
  pose proof (internalWrite_invalid (removeAnyTokenListeners (parser r)) data encoding true toks
                Henc Hne Hdec) as Hw.
  change (internalWrite (removeAnyTokenListeners (parser r)) data encoding true toks)
    with w in Hw.
  split; [rewrite Hw; reflexivity|]. split; [rewrite Hw; reflexivity|].
  rewrite res_end_throws; [| exact Hend | exact Hhtml | exact (f_equal snd Hw)].
  cbv zeta.
  change (set_parser (removeAnyTokenListeners (parser (restoreOriginalMethods r)))
            (restoreOriginalMethods r)) with r2.
  change (writeLast (parser r2) (default [] (Some data)) encoding toks) with w.
  apply forward_one_error. rewrite Hw. reflexivity.
Qed.

(** X13: the end wrapper on a response still processed as HTML, with a last
    chunk that is not empty and does not decode: one error is raised, the
    original methods are put back, and the call is left by the exception of
    the stream before anything is handed to the original [end].  Neither the
    queued bytes nor the chunk are delivered: they stay in the queue of the
    parser.  Without a listener that ends the response it stays open; with
    one, its body ends with the message. *)
Theorem end_with_invalid_utf8 (r : Response) (data : Buffer) (encoding : EncodingArg)
    (toks : list Token) :
  endImpl r = EndPatched -> finished r = false ->
  shouldParseHtml (parser r) = true ->
  encoding_rejected (parser r) encoding = None ->
  data <> [] -> Utf8.decode (utf8Decoder (parser r)) data false = None ->
  let r' := res_end inspect r (Some data) encoding toks in
  (writeLast (removeAnyTokenListeners (parser r)) data encoding toks).2 = Throws /\
  errors r' = errors r ++ [ParserError InvalidUtf8] /\
  restored r' /\
  delivered r' = delivered r ++
    match listener r with
    | NoListener => []
    | EndWithMessage => bytes_of_string (error_message InvalidUtf8)
    end /\
  finished r' = match listener r with NoListener => false | EndWithMessage => true end /\
  buffers (parser r') = buffers (parser r) ++ [data] /\
  parserDestroyed r' = parserDestroyed r.
Proof.
  intros Hend Hf Hhtml Henc Hne Hdec r'. subst r'.
  destruct (res_end_invalid r data encoding toks Hend Hhtml Henc Hne Hdec)
    as (Ht & Hb & ->).
  split; [exact Ht|].
  set (w := writeLast (removeAnyTokenListeners (parser r)) data encoding toks) in *.
  set (r3 := set_parser w.1 (set_parser (removeAnyTokenListeners (parser r))
                               (restoreOriginalMethods r))).
  assert (Hf3 : finished r3 = false) by exact Hf.
  destruct (emit_error_effect r3 (ParserError InvalidUtf8) Hf3)
    as (He & Hr & Hd & Hfin & Hp & _).
  split; [exact He|]. split; [exact Hr|]. split; [exact Hd|]. split; [exact Hfin|].
  split; [rewrite Hp; exact Hb|].
  unfold emit_error. destruct (listener _); [reflexivity|].
  unfold originalEnd. destruct (finished _); reflexivity.
Qed.

(** X14: the end wrapper with an encoding that is rejected: one error is
    raised, the original methods are put back, the response is ended and the
    last chunk is dropped; without a listener that ends the response the
    queued bytes are delivered, with one, the message only. *)
Theorem end_with_rejected_encoding (r : Response) (data : option Buffer)
    (encoding : EncodingArg) (toks : list Token) (e : string) :
  endImpl r = EndPatched -> finished r = false ->
  len (parser r) = total_len (buffers (parser r)) ->
  encoding_rejected (parser r) encoding = Some e ->
  let r' := res_end inspect r data encoding toks in
  errors r' = errors r ++ [ParserError (InvalidHtmlEncoding e)] /\
  delivered r' = delivered r ++
    match listener r with
    | NoListener => concat (buffers (parser r))
    | EndWithMessage => bytes_of_string (error_message (InvalidHtmlEncoding e))
    end /\
  restored r' /\ finished r' = true.
Proof.
  intros Hend Hf Hlen Henc r'. subst r'.
  assert (Hhtml : shouldParseHtml (parser r) = true).
  { unfold encoding_rejected in Henc. destruct encoding; try discriminate.
    destruct (shouldParseHtml (parser r)); [reflexivity | discriminate]. }
  assert (Hp3 : writeLast (removeAnyTokenListeners (parser r)) (default [] data) encoding toks
                = (set_emitted (emitted (parser r) ++ [InvalidHtmlEncoding e])
                     (removeAnyTokenListeners (parser r)), Returns)).
  { unfold writeLast, internalWrite.
    change (encoding_rejected (removeAnyTokenListeners (parser r)) encoding)
      with (encoding_rejected (parser r) encoding).
    rewrite Henc. reflexivity. }
  destruct (res_end_with_error r data encoding toks (InvalidHtmlEncoding e) Hend Hf Hhtml)
    as (He & Hd & Hr & Hfin).
  - rewrite Hp3. reflexivity.
  - rewrite Hp3. reflexivity.
  - rewrite Hp3. exact Hlen.
  - rewrite Hp3 in Hd. split; [exact He|]. split; [exact Hd|]. split; assumption.
Qed.

Lemma emit_errors_restore (l : list EngineError) (r : Response) :
  l <> [] ->
  restored (fold_left (fun acc e => emit_error inspect acc (ParserError e)) l r).
Proof.
  revert r. induction l as [|e l IH]; intros r Hne; [contradiction|].
  cbn [fold_left]. destruct l as [|e' l'].
  - cbn [fold_left]. apply emit_error_fields.
  - apply IH. discriminate.
Qed.

Lemma originalWrite_methods (r : Response) (data : Buffer) :
  restored r -> restored (originalWrite r data).
Proof. unfold originalWrite, restored. destruct (finished r); cbn; auto. Qed.

(** A call of [write] either raises nothing or leaves the original methods
    in place. *)
Lemma write_fn_outcome (r : Response) (data : Buffer) (encoding : EncodingArg)
    (toks : list Token) :
  let r' := write_fn inspect r data encoding toks in
  errors r' = errors r \/ restored r'.
Proof.
  unfold write_fn. destruct (shouldParseHtml (parser r)).
  - destruct (internalWrite_emitted (parser r) data encoding false toks) as [l Hl].
    change (internalWrite (parser r) data encoding false toks)
      with (write (parser r) data encoding toks) in Hl.
    destruct (write (parser r) data encoding toks) as [p1 c]. cbn [fst] in Hl.
    unfold forward_errors. cbn [parser set_parser].
    rewrite Hl, drop_app_length.
    destruct l as [|e l].
    + left. cbn [fold_left]. destruct c; [|reflexivity].
      destruct (getWritableBuffer (parser (set_parser p1 r))) as [p2 out].
      destruct (negb (blen out =? 0)).
      * destruct (originalWrite_frame (set_parser p2 (set_parser p1 r)) out)
          as (-> & _). reflexivity.
      * reflexivity.
    + right.
      pose proof (emit_errors_restore (e :: l) (set_parser p1 r) ltac:(discriminate)) as Hr.
      set (r1 := fold_left _ _ _) in *.
      destruct c; [|exact Hr].
      destruct (getWritableBuffer (parser r1)) as [p2 out].
      destruct (negb (blen out =? 0)).
      * apply originalWrite_methods. exact Hr.
      * exact Hr.
  - left. match goal with |- context [originalWrite ?a ?b] =>
      destruct (originalWrite_frame a b) as (-> & _) end.
    reflexivity.
Qed.

(** X15: a [res.write] call that raises an error leaves the original
    methods in place; if no listener ended the response, what follows is
    delivered as it is written, and what the engine still held never is. *)
Theorem write_error_restores_methods (r : Response) (data : Buffer)
    (encoding : EncodingArg) (toks : list Token)
    (writes : list (Buffer * EncodingArg * list Token))
    (data' : option Buffer) (encoding' : EncodingArg) (toks' : list Token) :
  let r' := res_write inspect r data encoding toks in
  errors r' <> errors r ->
  restored r' /\
  (finished r' = false ->
   let ops := writes_then_end writes data' encoding' toks' in
   delivered (body_run inspect r' ops) = delivered r' ++ body_input ops /\
   headers (body_run inspect r' ops) = headers r' /\
   errors (body_run inspect r' ops) = errors r').
Proof.
  intros r' Herr.
  assert (Hr : restored r').
  { subst r'. unfold res_write in *. destruct (writeImpl r).
    - destruct (negb _).
      + exfalso. apply Herr.
        match goal with |- context [originalWrite ?a ?b] =>
          destruct (originalWrite_frame a b) as (-> & _) end.
        reflexivity.
      + match goal with |- restored (write_fn inspect ?x _ _ _) =>
          destruct (write_fn_outcome x data encoding toks) as [He | Hr] end;
          [|exact Hr].
        exfalso. apply Herr. rewrite He. reflexivity.
    - destruct (write_fn_outcome r data encoding toks) as [He | Hr]; [contradiction|exact Hr].
    - exfalso. apply Herr. destruct (originalWrite_frame r data) as (-> & _). reflexivity. }
  split; [exact Hr|]. intros Hf ops.
  destruct Hr as (_ & Hw & He).
  apply (BodyFacts.original_body inspect data' encoding' toks' writes r' Hw He Hf).
Qed.

(** The function [write] with a chunk that does not decode. *)
Lemma write_fn_invalid (r : Response) (data : Buffer) (encoding : EncodingArg)
    (toks : list Token) :
  finished r = false -> shouldParseHtml (parser r) = true ->
  encoding_rejected (parser r) encoding = None ->
  data <> [] -> Utf8.decode (utf8Decoder (parser r)) data true = None ->
  let r' := write_fn inspect r data encoding toks in
  (write (parser r) data encoding toks).2 = Throws /\
  errors r' = errors r ++ [ParserError InvalidUtf8] /\
  restored r' /\
  delivered r' = delivered r ++
    match listener r with
    | NoListener => []
    | EndWithMessage => bytes_of_string (error_message InvalidUtf8)
    end /\
  finished r' = match listener r with NoListener => false | EndWithMessage => true end /\
  buffers (parser r') = buffers (parser r) ++ [data].
Proof.
  intros Hf Hhtml Henc Hne Hdec r'. subst r'.
  pose proof (internalWrite_invalid (parser r) data encoding false toks Henc Hne Hdec) as Hw.
  change (internalWrite (parser r) data encoding false toks)
    with (write (parser r) data encoding toks) in Hw.
  split; [rewrite Hw; reflexivity|].
  rewrite write_fn_throws; [| exact Hhtml | exact (f_equal snd Hw)].
  rewrite Hw. cbn [fst].
  match goal with |- context [set_parser ?p r] => set (p1 := p) end.
  assert (Hem : emitted p1 = emitted (parser r) ++ [InvalidUtf8]) by reflexivity.
  rewrite (forward_one_error r p1 InvalidUtf8 Hem).
  assert (Hf1 : finished (set_parser p1 r) = false) by exact Hf.
  destruct (emit_error_effect (set_parser p1 r) (ParserError InvalidUtf8) Hf1)
    as (He & Hr & Hd & Hfin & Hp & _).
  split; [exact He|]. split; [exact Hr|]. split; [exact Hd|]. split; [exact Hfin|].
  rewrite Hp. reflexivity.
Qed.

(** C7, as the code has it: while a response is processed as HTML, a chunk
    given to [res.write] or [res.end] that is not empty and does not decode
    as UTF-8 ([res.end] requires the text to be complete) raises the decode
    error exactly once; the original methods are put back, and the
    exception of the stream leaves the call before anything is handed to
    the transport: neither the chunk nor the bytes already queued are
    delivered, they stay in the queue of the parser.  With a listener that
    ends the response, its body ends with the message; otherwise the
    response stays open, and the calls that follow deliver their own bytes
    and nothing else. *)
Theorem decode_error_stops_the_body (r : Response) (op : BodyOp)
    (writes : list (Buffer * EncodingArg * list Token))
    (data' : option Buffer) (encoding' : EncodingArg) (toks' : list Token) :
  (writeImpl r = WritePatched \/ writeImpl r = WriteParsing) -> endImpl r = EndPatched ->
  finished r = false -> shouldParseHtml (parser r) = true ->
  encoding_rejected (parser r) (encoding_of op) = None ->
  chunk_of op <> [] ->
  Utf8.decode (utf8Decoder (parser r)) (chunk_of op) (negb (is_last op)) = None ->
  let r' := body_step inspect r op in
  (internalWrite (engine_at_call (parser r) op) (chunk_of op) (encoding_of op) (is_last op)
     (toks_of op)).2 = Throws /\
  errors r' = errors r ++ [ParserError InvalidUtf8] /\
  restored r' /\
  delivered r' = delivered r ++
    match listener r with
    | NoListener => []
    | EndWithMessage => bytes_of_string (error_message InvalidUtf8)
    end /\
  finished r' = match listener r with NoListener => false | EndWithMessage => true end /\
  buffers (parser r') = buffers (parser r) ++ [chunk_of op] /\
  (listener r = NoListener ->
   let ops := writes_then_end writes data' encoding' toks' in
   delivered (body_run inspect r' ops) = delivered r ++ body_input ops /\
   errors (body_run inspect r' ops) = errors r').
Proof.
  intros Hw Hend Hf Hhtml Henc Hne Hdec r'.
  assert (Hcall :
    (internalWrite (engine_at_call (parser r) op) (chunk_of op) (encoding_of op) (is_last op)
       (toks_of op)).2 = Throws /\
    errors r' = errors r ++ [ParserError InvalidUtf8] /\
    restored r' /\
    delivered r' = delivered r ++
      match listener r with
      | NoListener => []
      | EndWithMessage => bytes_of_string (error_message InvalidUtf8)
      end /\
    finished r' = match listener r with NoListener => false | EndWithMessage => true end /\
    buffers (parser r') = buffers (parser r) ++ [chunk_of op]).
  { subst r'. destruct op as [data encoding toks | data encoding toks];
      cbn [body_step chunk_of encoding_of is_last toks_of engine_at_call negb] in *.
    - assert (Hstep : exists rw, res_write inspect r data encoding toks
                                 = write_fn inspect rw data encoding toks /\
                finished rw = false /\ parser rw = parser r /\ errors rw = errors r /\
                delivered rw = delivered r /\ listener rw = listener r).
      { unfold res_write. destruct Hw as [Hw | Hw]; rewrite Hw.
        - cbn [parser set_headersSent set_setHeaderImpl]. rewrite Hhtml. cbn [negb].
          eexists. split; [reflexivity|]. repeat split. exact Hf.
        - exists r. repeat split. exact Hf. }
      destruct Hstep as (rw & -> & Hfw & Hpw & Hew & Hdw & Hlw).
      rewrite <- Hpw in Hhtml, Henc, Hdec.
      destruct (write_fn_invalid rw data encoding toks Hfw Hhtml Henc Hne Hdec)
        as (Ht & He & Hr & Hd & Hfin & Hb).
      rewrite Hpw in Ht, Hb. rewrite Hew in He. rewrite Hdw, Hlw in Hd. rewrite Hlw in Hfin.
      repeat split; try assumption; apply Hr.
    - destruct data as [data|]; [|contradiction]. cbn [default] in *.
      destruct (res_end_invalid r data encoding toks Hend Hhtml Henc Hne Hdec)
        as (Ht & Hb & ->).
      set (w := writeLast (removeAnyTokenListeners (parser r)) data encoding toks) in *.
      set (r3 := set_parser w.1 (set_parser (removeAnyTokenListeners (parser r))
                                   (restoreOriginalMethods r))).
      assert (Hf3 : finished r3 = false) by exact Hf.
      destruct (emit_error_effect r3 (ParserError InvalidUtf8) Hf3)
        as (He & Hr & Hd & Hfin & Hp & _).
      split; [exact Ht|]. split; [exact He|]. split; [exact Hr|]. split; [exact Hd|].
      split; [exact Hfin|]. rewrite Hp. exact Hb. }
  destruct Hcall as (Ht & He & Hr & Hd & Hfin & Hb).
  split; [exact Ht|]. split; [exact He|]. split; [exact Hr|]. split; [exact Hd|].
  split; [exact Hfin|]. split; [exact Hb|].
  intros Hl ops. rewrite Hl in Hd, Hfin. rewrite app_nil_r in Hd.
  destruct Hr as (_ & Hw' & He').
  destruct (BodyFacts.original_body inspect data' encoding' toks' writes r' Hw' He' Hfin)
    as (Hdel & _ & Herr).
  split; [|exact Herr]. etransitivity; [exact Hdel|]. rewrite Hd. reflexivity.
Qed.

End ErrorPaths.

(** The handler of the test suite for invalid UTF-8, without its listener,
    followed by a second [res.end]. *)
Lemma decode_error_stops_the_body_witness :
  let r := Scenario.response_before_invalid_utf8 NoListener in
  let r' := body_step Sample.inspect r (ResEnd (Some [0xAC]) EncUndefined []) in
  errors r' = [ParserError InvalidUtf8] /\ delivered r' = [] /\
  delivered (body_run Sample.inspect r' (writes_then_end [] (Some [33]) EncUndefined []))
    = [33].
Proof.
  intros r r'.
  destruct (decode_error_stops_the_body Sample.inspect r
              (ResEnd (Some [0xAC]) EncUndefined []) [] (Some [33]) EncUndefined [])
    as (_ & He & _ & Hd & _ & _ & Hlater).
  - left. vm_compute. reflexivity.
  - vm_compute. reflexivity.
  - vm_compute. reflexivity.
  - vm_compute. reflexivity.
  - vm_compute. reflexivity.
  - discriminate.
  - vm_compute. reflexivity.
  - split; [etransitivity; [exact He | vm_compute; reflexivity]|].
    split; [etransitivity; [exact Hd | vm_compute; reflexivity]|].
    destruct (Hlater ltac:(vm_compute; reflexivity)) as (Hdel & _).
    etransitivity; [exact Hdel | vm_compute; reflexivity].
Defined.

Lemma end_with_invalid_utf8_witness :
  let r := res_write Sample.inspect Scenario.response_before_body [60; 112; 62; 194]
             EncUndefined [mkToken StartTag "p" 0 3] in
  let r' := res_end Sample.inspect r (Some [60]) EncUndefined [] in
  delivered r = [60; 112; 62] /\
  errors r' = [ParserError InvalidUtf8] /\ delivered r' = [60; 112; 62] /\
  finished r' = false /\ buffers (parser r') = [[194]; [60]].
Proof.
  intros r r'. split; [reflexivity|].
  destruct (end_with_invalid_utf8 Sample.inspect r [60] EncUndefined [])
    as (_ & He & _ & Hd & Hf & Hb & _).
  - reflexivity.
  - reflexivity.
  - reflexivity.
  - reflexivity.
  - discriminate.
  - reflexivity.
  - split; [etransitivity; [exact He | vm_compute; reflexivity]|].
    split; [etransitivity; [exact Hd | vm_compute; reflexivity]|].
    split; [vm_compute in Hf; vm_compute; exact Hf|].
    etransitivity; [exact Hb | vm_compute; reflexivity].
Defined.

Lemma end_with_rejected_encoding_witness :
  let r := res_write Sample.inspect Scenario.response_before_body [60; 112]
             EncUndefined [] in
  let r' := res_end Sample.inspect r (Some [62]) (EncString "latin1") [] in
  delivered r = [] /\
  errors r' = [ParserError (InvalidHtmlEncoding "latin1")] /\ delivered r' = [60; 112].
Proof.
  intros r r'. split; [reflexivity|].
  destruct (end_with_rejected_encoding Sample.inspect r (Some [62]) (EncString "latin1") []
              "latin1") as (He & Hd & _).
  - reflexivity.
  - reflexivity.
  - reflexivity.
  - reflexivity.
  - split.
    + etransitivity; [exact He | reflexivity].
    + etransitivity; [exact Hd | reflexivity].
Defined.

Lemma write_error_restores_methods_witness :
  let r := res_write Sample.inspect Scenario.response_before_body [60; 112]
             EncUndefined [] in
  let r' := res_write Sample.inspect r [62] (EncString "latin1") [] in
  restored r' /\
  delivered (body_run Sample.inspect r' (writes_then_end [] (Some [33]) EncUndefined []))
    = [33].
Proof.
  intros r r'.
  destruct (write_error_restores_methods Sample.inspect r [62] (EncString "latin1") []
              [] (Some [33]) EncUndefined []) as [Hr Hbody].
  - vm_compute. discriminate.
  - split; [exact Hr|].
    destruct (Hbody eq_refl) as (Hd & _).
    etransitivity; [exact Hd | reflexivity].
Defined.

End ErrorPathFacts.

Module RegistrationFacts.
Import Buf JsStr Engine Js Response Body Methods Stages BufFacts HeaderFacts.

Section Registration.

Variable inspect : HeaderValue -> string.
Variable parseContentType : HeaderValue -> string + string.

(** X12: [main] on a response whose headers are not sent and which already
    has a content type of text/html and a content-length that passes the
    check: the response is classified as HTML and the length is adjusted at
    once, the temporary header is gone, no error is raised and the three
    wrappers are installed.  The declared length and the sum are integers a
    double holds exactly. *)
Theorem main_adjusts_present_headers (r : Response) (chunk : Buffer) (chunkLen : Z)
    (tag target : string) (toEnd : bool) (ct v : HeaderValue) (declared : Z) :
  headersSent r = false ->
  getHeader r "content-type" = Some ct -> parseContentType ct = inl "text/html" ->
  getHeader r "content-length" = Some v ->
  content_length_refused v = false -> originalContentLength v = Int declared ->
  0 <= chunkLen -> exact_integer declared -> exact_integer (declared + chunkLen) ->
  let r' := main inspect parseContentType r chunk chunkLen tag target toEnd in
  (getHeader r' "content-length" = Some (HStr (decimal (declared + chunkLen))) \/
   chunkLen = 0 /\ getHeader r' "content-length" = Some (HNum (Int declared))) /\
  shouldParseHtml (parser r') = true /\
  errors r' = errors r /\
  getHeader r' TMP_HEADER_NAME = None /\
  setHeaderImpl r' = SetHeaderPatched /\ writeImpl r' = WritePatched /\
  endImpl r' = EndPatched.
Proof.
  intros Hs Hct Hparse Hcl Hok Hdecl _ _ _ r'. subst r'. unfold main. rewrite Hs.
  set (r2 := set_etag tag (set_parserDestroyed false (set_parser _ _))).
  assert (H2 : headersSent r2 = false /\ errors r2 = errors r /\
               headers r2 = delete TMP_HEADER_NAME
                              (<[TMP_HEADER_NAME := HStr "1"]> (headers r)) /\
               insertionLength (parser r2) = chunkLen).
  { subst r2. unfold removeHeader, originalSetHeader. rewrite Hs. cbn. rewrite Hs. cbn. auto. }
  destruct H2 as (Hs2 & He2 & Hh2 & Hlen2).
  assert (Hct2 : getHeader r2 "content-type" = Some ct).
  { unfold getHeader in *. rewrite Hh2.
    rewrite lookup_delete_ne, lookup_insert_ne by discriminate. exact Hct. }
  assert (Hcl2 : getHeader r2 "content-length" = Some v).
  { unfold getHeader in *. rewrite Hh2.
    rewrite lookup_delete_ne, lookup_insert_ne by discriminate. exact Hcl. }
  assert (Htmp2 : getHeader r2 TMP_HEADER_NAME = None).
  { unfold getHeader. rewrite Hh2. apply lookup_delete_eq. }
  rewrite updateHeaders_stages.
  rewrite (classify_parsed inspect parseContentType r2 ct "text/html" Hct2 Hparse).
  change (String.eqb "text/html" "text/html") with true.
  set (r3 := set_parser (set_shouldParseHtml true (parser r2)) r2).
  assert (Hcl3 : getHeader r3 "content-length" = Some v) by exact Hcl2.
  unfold adjust. rewrite Hcl3.
  destruct (ResponseFacts.adjustContentLength_adds_payload inspect r3 v declared
              Hs2 eq_refl Hok Hdecl Hcl3) as [He4 Hh4].
  assert (Hfields : parser (adjustContentLength inspect r3 v) = parser r3 /\
                    forall k, k <> "content-length" ->
                      headers (adjustContentLength inspect r3 v) !! k = headers r3 !! k).
  { pose proof (adjust_fields inspect r3) as H. unfold adjust in H. rewrite Hcl3 in H.
    destruct H as (Hk & _ & Hp & _). auto. }
  destruct Hfields as (Hp4 & Hk4).
  set (r4 := adjustContentLength inspect r3 v) in *.
  destruct (suffix_etag_fields r4) as (Hk5 & Hp5 & (He5 & _) & _).
  set (r5 := suffix_etag r4) in *.
  cbn [setHeaderImpl writeImpl endImpl set_endImpl set_writeImpl set_setHeaderImpl
       errors parser].
  change (getHeader (set_endImpl EndPatched (set_writeImpl WritePatched
            (set_setHeaderImpl SetHeaderPatched r5))) "content-length")
    with (getHeader r5 "content-length").
  change (getHeader (set_endImpl EndPatched (set_writeImpl WritePatched
            (set_setHeaderImpl SetHeaderPatched r5))) TMP_HEADER_NAME)
    with (getHeader r5 TMP_HEADER_NAME).
  assert (Hcl5 : getHeader r5 "content-length" = getHeader r4 "content-length").
  { unfold getHeader. apply Hk5. discriminate. }
  assert (Htmp5 : getHeader r5 TMP_HEADER_NAME = None).
  { unfold getHeader in *. rewrite Hk5, Hk4 by discriminate. exact Htmp2. }
  rewrite Hcl5, Hp5, Hp4, He5, He4.
  change (insertionLength (parser r3)) with (insertionLength (parser r2)) in Hh4.
  rewrite Hlen2 in Hh4.
  split; [exact Hh4|]. split; [reflexivity|]. split; [exact He2|]. auto.
Qed.

End Registration.

Lemma main_adjusts_present_headers_witness :
  let r := plain (<["content-type" := HStr "text/html"]>
                    (<["content-length" := HNum (Int 37)]> ∅)) NoListener in
  getHeader (Scenario.register r (bytes_of_string "<h1>X</h1>") 10 "tag" "body" false)
    "content-length" = Some (HStr "47").
Proof.
  intro r.
  destruct (main_adjusts_present_headers Sample.inspect Sample.parseContentType r
              (bytes_of_string "<h1>X</h1>") 10 "tag" "body" false
              (HStr "text/html") (HNum (Int 37)) 37
              eq_refl eq_refl eq_refl eq_refl eq_refl eq_refl) as ([H | [H _]] & _).
  - lia.
  - unfold Js.exact_integer. lia.
  - unfold Js.exact_integer. lia.
  - exact H.
  - discriminate.
Defined.

End RegistrationFacts.

Module SpliceEdgeFacts.
Import Buf JsStr Engine BufFacts SpliceFacts.

(** X16: when the insertion index lies past the end of the queue no chunk
    reaches it: [onTag] inserts nothing, yet it adds the payload length to
    [len], ends the stream and turns HTML processing off. *)
Theorem onTag_beyond_queue (st : Engine) (tok : Token) :
  tagName tok = targetTagName st ->
  total_len (buffers st) < insertionIndex st tok ->
  buffers (onTag st tok) = buffers st /\
  len (onTag st tok) = len st + insertionLength st /\
  ended (onTag st tok) = true /\ shouldParseHtml (onTag st tok) = false.
Proof.
  intros Htag Hbeyond. unfold onTag. rewrite Htag, String.eqb_refl. cbn.
  split; [|auto].
  change (insertionIndex _ tok) with (insertionIndex st tok).
  pose proof (splice_loop_none (insertionChunk st) (insertionIndex st tok) (buffers st) [])
    as Hloop.
  cbn [app] in Hloop. rewrite total_len_nil in Hloop. apply Hloop.
  intros j Hj. unfold Spec.running_total.
  assert (Hle : total_len (take (S j) (buffers st)) <= total_len (buffers st)).
  { rewrite <- (take_drop (S j) (buffers st)) at 2. rewrite total_len_app.
    pose proof (total_len_nonneg (drop (S j) (buffers st))). lia. }
  lia.
Qed.

Lemma onTag_beyond_queue_witness :
  let st := set_stringBuffer (of_ascii "undefined<body>")
              (set_len 3 (set_buffers [[172]; [60; 98]] (create "body" [90] 1 false))) in
  let st' := onTag st (mkToken StartTag "body" 9 15) in
  buffers st' = [[172]; [60; 98]] /\ len st' = 4.
Proof.
  intros st st'.
  destruct (onTag_beyond_queue st (mkToken StartTag "body" 9 15)) as (Hb & Hl & _).
  - reflexivity.
  - vm_compute. reflexivity.
  - split; [exact Hb | exact Hl].
Defined.

End SpliceEdgeFacts.

Module EntryFacts.
Import Buf JsStr Js Entry BufFacts JsStrFacts.

Lemma trim_start_nil (s : jsstring) :
  trim_start s = [] -> Forall (fun u => is_space u = true) s.
Proof.
  induction s as [|u rest IH]; cbn [trim_start]; [constructor|].
  destruct (is_space u) eqn:E; [|discriminate].
  intros H. constructor; auto.
Qed.

Lemma trim_start_head (s : jsstring) (u : Z) (rest : jsstring) :
  trim_start s = u :: rest -> is_space u = false.
Proof.
  induction s as [|v s IH]; cbn [trim_start]; [discriminate|].
  destruct (is_space v) eqn:E; [exact IH|].
  intros H. injection H as <- _. exact E.
Qed.

(** A string that [trim] empties holds a white-space code unit, unless it
    is empty. *)
Lemma trim_nil_has_space (s : jsstring) :
  s <> [] -> trim s = [] -> has_space s = true.
Proof.
  intros Hne Htrim. unfold trim in Htrim.
  apply (f_equal reverse) in Htrim. rewrite reverse_involutive in Htrim.
  change (reverse []) with (@nil Z) in Htrim.
  apply trim_start_nil in Htrim.
  destruct (trim_start s) as [|u rest] eqn:Hs.
  - apply trim_start_nil in Hs. destruct s as [|v s]; [contradiction|].
    inversion Hs as [|? ? Hv _]. unfold has_space. cbn. rewrite Hv. reflexivity.
  - apply trim_start_head in Hs.
    rewrite Forall_reverse in Htrim. inversion Htrim as [|? ? Hu _]. congruence.
Qed.

(** [Buffer.from(str).length] is [Buffer.byteLength(str)]. *)
Lemma utf8_bytes_length (s : jsstring) : blen (utf8_bytes s) = byteLength s.
Proof.
  induction s as [| u | u v rest IH1 IH2] using pairwise_ind.
  - reflexivity.
  - cbn. destruct (u <? 128); [reflexivity|]. destruct (u <? 2048); [reflexivity|].
    destruct (is_high u); [reflexivity|]. destruct (is_low u); reflexivity.
  - cbn [utf8_bytes byteLength] in *.
    destruct (u <? 128). { unfold blen in *. cbn [length]. lia. }
    destruct (u <? 2048). { unfold blen in *. cbn [length]. lia. }
    destruct (is_high u).
    + destruct (is_low v); unfold blen in *; cbn [length]; lia.
    + destruct (is_low u); unfold blen in *; cbn [length]; lia.
Qed.

Section Platform.

Variable inspectWithKind : Arg -> string.
Variable inspect : jsstring -> string.
Variable md5Base64 : Buffer -> string.
Variable toLowerCase : jsstring -> jsstring.

Lemma tagName_error_none (t : Value) :
  tagName_error inspectWithKind inspect t = None <->
  t = VUndefined \/ exists s, t = VString s /\ s <> [] /\ has_space s = false.
Proof.
  split.
  - destruct t as [| b | s | l]; cbn [tagName_error]; try discriminate; [auto|].
    destruct (bool_decide (s = [])) eqn:E1; [discriminate|].
    destruct (bool_decide (trim s = [])) eqn:E2; [discriminate|].
    destruct (has_space s) eqn:E3; [discriminate|].
    intros _. right. exists s. apply bool_decide_eq_false in E1. auto.
  - intros [-> | (s & -> & Hne & Hsp)]; [reflexivity|]. cbn [tagName_error].
    rewrite bool_decide_eq_false_2 by exact Hne.
    destruct (bool_decide (trim s = [])) eqn:E2.
    + apply bool_decide_eq_true in E2. rewrite (trim_nil_has_space s Hne E2) in Hsp.
      discriminate.
    + rewrite Hsp. reflexivity.
Qed.

(** X19: [prepareOptionArguments] returns exactly when there are no
    options, or the options are a plain object whose [tagName] is undefined
    or a non-empty string without white space and whose [insertToEnd] is
    undefined or a boolean; it returns the lower-cased tag name ([body] by
    default) and the flag ([false] by default).  The check for a
    white-space-only name never changes the outcome, only the message. *)
Theorem prepareOptionArguments_accepts (options : option Arg) (name : jsstring)
    (toEnd : bool) :
  prepareOptionArguments inspectWithKind inspect toLowerCase options = inr (name, toEnd) <->
  match options with
  | None => name = of_ascii "body" /\ toEnd = false
  | Some (AValue _) => False
  | Some (APlainObject t e) =>
    (t = VUndefined /\ name = of_ascii "body" \/
     exists s, t = VString s /\ s <> [] /\ has_space s = false /\ name = toLowerCase s) /\
    (e = VUndefined /\ toEnd = false \/ e = VBoolean toEnd)
  end.
Proof.
  destruct options as [[v | t e]|]; cbn [prepareOptionArguments].
  - split; [discriminate | contradiction].
  - destruct (tagName_error inspectWithKind inspect t) as [err|] eqn:Herr.
    + split; [discriminate|]. intros [Ht _].
      assert (Hnone : tagName_error inspectWithKind inspect t = None).
      { apply tagName_error_none. destruct Ht as [[-> _] | (s & -> & ? & ? & _)]; eauto. }
      congruence.
    + apply tagName_error_none in Herr.
      destruct e as [| b | s' | l].
      * split.
        -- intros H. injection H as <- <-.
           split; [|auto]. destruct Herr as [-> | (s & -> & ? & ?)]; [auto|].
           right. exists s. auto.
        -- intros [Ht [[_ ->] | He]]; [|discriminate].
           destruct Ht as [[-> ->] | (s & -> & _ & _ & ->)]; reflexivity.
      * split.
        -- intros H. injection H as <- <-.
           split; [|auto]. destruct Herr as [-> | (s & -> & ? & ?)]; [auto|].
           right. exists s. auto.
        -- intros [Ht [[He _] | He]]; [discriminate|]. injection He as ->.
           destruct Ht as [[-> ->] | (s & -> & _ & _ & ->)]; reflexivity.
      * split; [discriminate|]. intros [_ [[He _] | He]]; discriminate.
      * split; [discriminate|]. intros [_ [[He _] | He]]; discriminate.
  - split.
    + intros H. injection H as <- <-. auto.
    + intros [-> ->]. reflexivity.
Qed.

(** X17: when [insertHtmlContent] reaches [main], its second argument is a
    string, the payload is the UTF-8 bytes of that string, and the length
    passed along is both [Buffer.byteLength] of the string and the length of
    the payload. *)
Theorem insertHtmlContent_payload (args : list Arg) (c : MainCall) :
  insertHtmlContent inspectWithKind inspect md5Base64 toLowerCase args = inr c ->
  exists s,
    args !! 1%nat = Some (AValue (VString s)) /\
    insertionChunk c = utf8_bytes s /\
    insertionLength c = byteLength s /\
    insertionLength c = blen (insertionChunk c) /\
    res c = arg args 0.
Proof.
  unfold insertHtmlContent. destruct (_ && _); [discriminate|].
  unfold arg at 1. destruct (args !! 1%nat) as [[[| b | s | l] | t e]|] eqn:H1;
    cbn [default convertInsertionChunkStringToBuffer]; try discriminate.
  destruct (prepareOptionArguments _ _ _ _) as [err | [name toEnd]]; [discriminate|].
  intros H. injection H as <-. cbn. exists s.
  rewrite utf8_bytes_length. auto.
Qed.

(** X18: for one or two constructor arguments, calling the function that
    [new InsertHtmlContent(...args)] returns with a response is calling
    [insertHtmlContent] with the response followed by the same arguments:
    the same error, or the same call of [main]. *)
Theorem class_call_is_function_call (r : Arg) (args : list Arg) :
  length args = 1%nat \/ length args = 2%nat ->
  insertHtmlContent inspectWithKind inspect md5Base64 toLowerCase (r :: args) =
    match construct inspectWithKind inspect md5Base64 toLowerCase args with
    | inl error => inl error
    | inr bound => insertHtmlContentFromClass bound [r]
    end.
Proof.
  intros Hlen. unfold insertHtmlContent, construct.
  assert (Harg : arg (r :: args) 1 = arg args 0) by reflexivity.
  assert (Hopt : options_of (r :: args) 2 = options_of args 1) by reflexivity.
  rewrite Harg, Hopt.
  assert (H1 : (negb (length (r :: args) =? 2)%nat && negb (length (r :: args) =? 3)%nat)
               = false).
  { cbn [length]. destruct Hlen as [-> | ->]; reflexivity. }
  assert (H2 : (negb (length args =? 1)%nat && negb (length args =? 2)%nat) = false).
  { destruct Hlen as [-> | ->]; reflexivity. }
  rewrite H1, H2.
  destruct (convertInsertionChunkStringToBuffer inspectWithKind (arg args 0))
    as [err | buffer]; [reflexivity|].
  destruct (prepareOptionArguments _ _ _ _) as [err | [name toEnd]]; reflexivity.
Qed.

End Platform.

Lemma insertHtmlContent_payload_witness :
  let args := [AValue (VOther "res"); AValue (VString EntrySample.surfer_heading)] in
  let c := mkMainCall (AValue (VOther "res")) (utf8_bytes EntrySample.surfer_heading) 16
             "<md5>" (of_ascii "body") false in
  insertionLength c = byteLength EntrySample.surfer_heading /\
  insertionLength c = blen (insertionChunk c).
Proof.
  intros args c.
  destruct (insertHtmlContent_payload EntrySample.inspectWithKind EntrySample.inspect
              EntrySample.md5Base64 EntrySample.toLowerCase args c eq_refl)
    as (s & Hs & _ & Hlen & Hblen & _).
  injection Hs as <-. split; [exact Hlen | exact Hblen].
Defined.

Lemma class_call_is_function_call_witness :
  insertHtmlContent EntrySample.inspectWithKind EntrySample.inspect EntrySample.md5Base64
    EntrySample.toLowerCase
    [AValue (VOther "res"); AValue (VString (of_ascii "Hi"));
     APlainObject (VString (of_ascii "HEAD")) VUndefined]
  = inr (mkMainCall (AValue (VOther "res")) [72; 105] 2 "<md5>" (of_ascii "head") false).
Proof.
  rewrite (class_call_is_function_call EntrySample.inspectWithKind EntrySample.inspect
             EntrySample.md5Base64 EntrySample.toLowerCase (AValue (VOther "res"))
             [AValue (VString (of_ascii "Hi"));
              APlainObject (VString (of_ascii "HEAD")) VUndefined]
             (or_intror eq_refl)).
  reflexivity.
Defined.

End EntryFacts.
